(* A shallow embedding of parts of the sunset SSH library (wyager/sunset):
   packet framing and sequence numbers (sshproto/src/encrypt.rs), the key
   exchange state machine and algorithm negotiation (src/kex.rs), client
   authentication (src/cliauth.rs, sshproto/src/client.rs) and the wire
   codec for tagged unions (src/packets.rs, sshwire_derive/src/lib.rs). *)

From Stdlib Require Import List String Ascii ZArith Arith Lia Bool.
Import ListNotations.
Open Scope list_scope.


(** Errors of the library ([crate::error::Error]), the constructors used
    by the modelled code. *)
Inductive Error :=
| Bug
| SSHProtoError
| BadDecrypt
| NoRoom
| PacketWrong
| BadKex
| AlgoNoMatch (algo : string)
| BehaviourError (msg : string)
(* [sshwire::WireError] *)
| RanOut
| BadString.

Inductive result (A : Type) :=
| Ok (a : A)
| Err (e : Error).
Arguments Ok {A} a.
Arguments Err {A} e.

Definition bind {A B} (r : result A) (f : A -> result B) : result B :=
  match r with
  | Ok a => f a
  | Err e => Err e
  end.

Notation "x <- r ;; k" := (bind r (fun x => k))
  (at level 61, r at next level, right associativity).

(** * Packet framing: sshproto/src/encrypt.rs *)
Module Encrypt.

Definition SSH_MIN_PACKET_SIZE : nat := 16.
Definition SSH_MIN_PADLEN : nat := 4.
Definition SSH_MIN_BLOCK : nat := 8.
Definition SSH_LENGTH_SIZE : nat := 4.
(** [aes::Aes256::block_size()] *)
Definition AES256_BLOCK_SIZE : nat := 16.

(** The sending key; the key material itself plays no part in padding. *)
Inductive EncKey := ChaPoly | Aes256Ctr | NoCipher.

Definition is_aead (k : EncKey) : bool :=
  match k with
  | ChaPoly => true
  | Aes256Ctr => false
  | NoCipher => false
  end.

Definition size_block (k : EncKey) : nat :=
  match k with
  | ChaPoly => SSH_MIN_BLOCK
  | Aes256Ctr => AES256_BLOCK_SIZE
  | NoCipher => SSH_MIN_BLOCK
  end.

(** [Keys::calc_encrypt_pad] *)
Definition calc_encrypt_pad (enc : EncKey) (payload_len : nat) : nat :=
  let size_block := size_block enc in
  let len := 1 + payload_len + (if is_aead enc then 0 else SSH_LENGTH_SIZE) in
  let padlen := size_block - len mod size_block in
  let padlen := if padlen <? SSH_MIN_PADLEN then padlen + size_block else padlen in
  if SSH_LENGTH_SIZE + 1 + payload_len + padlen <? SSH_MIN_PACKET_SIZE
  then padlen + size_block else padlen.

(** The length that has to be a multiple of the block size: the whole
    packet without MAC, less the length field for AEAD ciphers. *)
Definition encrypted_len (enc : EncKey) (payload_len : nat) : nat :=
  let padlen := calc_encrypt_pad enc payload_len in
  (if is_aead enc then 0 else SSH_LENGTH_SIZE) + 1 + payload_len + padlen.

(** Sequence numbers are [Wrapping<u32>]. *)
Definition wrap32 (z : Z) : Z := z mod 2 ^ 32.

Section KeyStateSec.
(** The key material and the in-place cipher operations of [Keys] (AES-CTR,
    ChaCha20-Poly1305, HMAC) are opaque here: they are given as functions on
    an abstract key state and buffer, each taking the sequence number. *)
Variable Keys : Type.
Variable Buf : Type.
Variable keys_new_cleartext : Keys.
Variable keys_encrypt : Keys -> nat -> Buf -> Z -> Keys * Buf * result nat.
Variable keys_decrypt : Keys -> Buf -> Z -> Keys * Buf * result nat.
Variable keys_decrypt_first_block : Keys -> Buf -> Z -> Keys * Buf * result Z.

Record KeyState := mkKeyState {
  keys : Keys;
  seq_encrypt : Z;
  seq_decrypt : Z;
}.

Definition new_cleartext : KeyState :=
  mkKeyState keys_new_cleartext 0 0.

Definition rekey (ks : KeyState) (k : Keys) : KeyState :=
  mkKeyState k (seq_encrypt ks) (seq_decrypt ks).

Definition decrypt_first_block (ks : KeyState) (buf : Buf)
  : KeyState * Buf * result Z :=
  let '(k', buf', r) := keys_decrypt_first_block (keys ks) buf (seq_decrypt ks) in
  (mkKeyState k' (seq_encrypt ks) (seq_decrypt ks), buf', r).

(** [KeyState::decrypt]: the sequence number is bumped whatever the
    outcome, then the result of [Keys::decrypt] is returned. *)
Definition decrypt (ks : KeyState) (buf : Buf) : KeyState * Buf * result nat :=
  let '(k', buf', e) := keys_decrypt (keys ks) buf (seq_decrypt ks) in
  (mkKeyState k' (seq_encrypt ks) (wrap32 (seq_decrypt ks + 1)), buf', e).

Definition encrypt (ks : KeyState) (payload_len : nat) (buf : Buf)
  : KeyState * Buf * result nat :=
  let '(k', buf', e) := keys_encrypt (keys ks) payload_len buf (seq_encrypt ks) in
  (mkKeyState k' (wrap32 (seq_encrypt ks + 1)) (seq_decrypt ks), buf', e).

End KeyStateSec.

Arguments mkKeyState {Keys}.
Arguments keys {Keys}.
Arguments seq_encrypt {Keys}.
Arguments seq_decrypt {Keys}.
Arguments new_cleartext {Keys}.
Arguments rekey {Keys}.
Arguments decrypt_first_block {Keys Buf}.
Arguments decrypt {Keys Buf}.
Arguments encrypt {Keys Buf}.

End Encrypt.

(** Bytes as the code has them ([u8]), and [u32::to_be_bytes]. *)
Definition byte_of_N (n : N) : Byte.byte :=
  match Byte.of_N (N.modulo n 256) with
  | Some b => b
  | None => Byte.x00
  end.

Definition u32_to_be_bytes (n : N) : list Byte.byte :=
  [byte_of_N (N.div n (2 ^ 24)); byte_of_N (N.div n (2 ^ 16));
   byte_of_N (N.div n (2 ^ 8)); byte_of_N n].

Definition bytes := list Byte.byte.

(** * Key exchange: src/kex.rs *)
Module Kex.

(** Algorithm names of [sshnames]. *)
Definition SSH_NAME_CURVE25519 := "curve25519-sha256"%string.
Definition SSH_NAME_CURVE25519_LIBSSH := "curve25519-sha256@libssh.org"%string.
Definition SSH_NAME_EXT_INFO_C := "ext-info-c"%string.
Definition SSH_NAME_EXT_INFO_S := "ext-info-s"%string.
Definition SSH_NAME_KEXGUESS2 := "kexguess2@matt.ucc.asn.au"%string.
Definition SSH_NAME_ED25519 := "ssh-ed25519"%string.
Definition SSH_NAME_RSA_SHA256 := "rsa-sha2-256"%string.
Definition SSH_NAME_CHAPOLY := "chacha20-poly1305@openssh.com"%string.
Definition SSH_NAME_AES256_CTR := "aes256-ctr"%string.
Definition SSH_NAME_HMAC_SHA256 := "hmac-sha2-256"%string.
Definition SSH_NAME_NONE := "none"%string.

Definition fixed_options_kex := [SSH_NAME_CURVE25519; SSH_NAME_CURVE25519_LIBSSH].
Definition marker_only_kexs :=
  [SSH_NAME_EXT_INFO_C; SSH_NAME_EXT_INFO_S; SSH_NAME_KEXGUESS2].
(** The build without the [rsa] feature. *)
Definition fixed_options_hostsig := [SSH_NAME_ED25519].
Definition fixed_options_cipher := [SSH_NAME_CHAPOLY; SSH_NAME_AES256_CTR].
Definition fixed_options_mac := [SSH_NAME_HMAC_SHA256].
Definition fixed_options_comp := [SSH_NAME_NONE].

(** A name-list, remote ([NameList]) or local ([LocalNames]). *)
Definition NameList := list string.

Definition str_mem (n : string) (l : NameList) : bool :=
  existsb (String.eqb n) l.

(** Modelled from the spec: [NameList::has_algo] (namelist.rs is not in the
    sources): whether the name is one of the list's entries. *)
Definition has_algo (l : NameList) (n : string) : result bool := Ok (str_mem n l).

(** Modelled from the spec: [NameList::first] (namelist.rs), the first entry
    of the list; an empty list gives the empty name. *)
Definition first (l : NameList) : string := hd EmptyString l.

Fixpoint find_in (cands : NameList) (other : NameList) : option string :=
  match cands with
  | [] => None
  | c :: cs => if str_mem c other then Some c else find_in cs other
  end.

(** Modelled from the spec: [NameList::first_match(is_client, ours)]
    (namelist.rs): "pick the first entry in the client's list also present
    in the server's list". [theirs] is the remote list; when [is_client] we
    are the client and our own list is the client's. *)
Definition first_match (theirs : NameList) (is_client : bool) (ours : NameList)
  : result (option string) :=
  Ok (if is_client then find_in ours theirs else find_in theirs ours).

Record AlgoConfig := mkAlgoConfig {
  kexs : NameList;
  hostsig_conf : NameList;
  ciphers : NameList;
  macs : NameList;
  comps : NameList;
}.

(** [AlgoConfig::new] *)
Definition AlgoConfig_new (is_client : bool) : AlgoConfig :=
  let kexs := fixed_options_kex ++ (if is_client then [SSH_NAME_EXT_INFO_C] else []) in
  let kexs := kexs ++ [SSH_NAME_KEXGUESS2] in
  mkAlgoConfig kexs fixed_options_hostsig fixed_options_cipher
    fixed_options_mac fixed_options_comp.

Definition KexCookie := bytes.

(** [packets::KexInit] *)
Record KexInit := mkKexInit {
  cookie : KexCookie;
  kex : NameList;
  hostsig : NameList;
  cipher_c2s : NameList;
  cipher_s2c : NameList;
  mac_c2s : NameList;
  mac_s2c : NameList;
  comp_c2s : NameList;
  comp_s2c : NameList;
  lang_c2s : NameList;
  lang_s2c : NameList;
  first_follows : bool;
  reserved : N;
}.

(** [Kex::make_kexinit] *)
Definition make_kexinit (c : KexCookie) (conf : AlgoConfig) : KexInit :=
  mkKexInit c (kexs conf) (hostsig_conf conf) (ciphers conf) (ciphers conf)
    (macs conf) (macs conf) (comps conf) (comps conf) [] [] false 0.

(** A [KexInit] with its two mac lists (client to server, server to client)
    replaced and every other field kept. *)
Definition KexInit_with_macs (p : KexInit) (mc ms : NameList) : KexInit :=
  mkKexInit (cookie p) (kex p) (hostsig p) (cipher_c2s p) (cipher_s2c p)
    mc ms (comp_c2s p) (comp_s2c p) (lang_c2s p) (lang_s2c p)
    (first_follows p) (reserved p).

(** [sign::SigType] *)
Inductive SigType := Ed25519 | RSA256.

Definition SigType_from_name (n : string) : result SigType :=
  if String.eqb n SSH_NAME_ED25519 then Ok Ed25519
  else if String.eqb n SSH_NAME_RSA_SHA256 then Ok RSA256
  else Err Bug.

(** [encrypt::Cipher] and [encrypt::Integ] *)
Inductive Cipher := CipherChaPoly | CipherAes256Ctr.
Inductive Integ := IntegChaPoly | IntegHmacSha256.

Definition Cipher_from_name (n : string) : result Cipher :=
  if String.eqb n SSH_NAME_CHAPOLY then Ok CipherChaPoly
  else if String.eqb n SSH_NAME_AES256_CTR then Ok CipherAes256Ctr
  else Err Bug.

Definition Cipher_integ (c : Cipher) : option Integ :=
  match c with
  | CipherChaPoly => Some IntegChaPoly
  | CipherAes256Ctr => None
  end.

Definition Integ_from_name (n : string) : result Integ :=
  if String.eqb n SSH_NAME_HMAC_SHA256 then Ok IntegHmacSha256 else Err Bug.

(** SHA-256 is given as a function of the whole input: the code feeds a
    streaming [Sha256] context, whose digest is that of the concatenation
    of everything fed to it. *)
Definition KexHash := bytes.

(** [KexHash::hash_slice]: a u32 length prefix, then the bytes. *)
Definition hash_slice (kh : KexHash) (v : bytes) : KexHash :=
  kh ++ u32_to_be_bytes (N.of_nat (List.length v)) ++ v.

(** Modelled from the spec: [sshwire::hash_ser_length] (sshwire.rs is not
    in the sources): the value's encoding, prefixed with its u32 length. *)
Definition hash_ser_length (kh : KexHash) (enc : bytes) : KexHash :=
  hash_slice kh enc.

(** Modelled from the spec: [sshwire::hash_mpint] (sshwire.rs): "a
    length-prefixed big-endian multi-precision integer with a leading zero
    byte when the high bit of the first payload byte is set". *)
Definition mpint (k : bytes) : bytes :=
  let body :=
    match k with
    | b :: _ => if N.leb 128 (Byte.to_N b) then Byte.x00 :: k else k
    | [] => k
    end in
  u32_to_be_bytes (N.of_nat (List.length body)) ++ body.

Definition hash_mpint (kh : KexHash) (k : bytes) : KexHash := kh ++ mpint k.

(** A field of the exchange hash input: its u32 length, then its bytes. *)
Definition length_prefixed (v : bytes) : bytes :=
  u32_to_be_bytes (N.of_nat (List.length v)) ++ v.

(** Whether the peer's guessed kex method was right, as
    [Kex::algo_negotiation] decides it ([goodguess_kex]): under
    [kexguess2] the peer's first entry is the negotiated method [m],
    otherwise the two lists' first entries agree. *)
Definition goodguess_kex (p : KexInit) (conf : AlgoConfig) (m : string) : bool :=
  if str_mem SSH_NAME_KEXGUESS2 (kex p) then String.eqb (first (kex p)) m
  else String.eqb (first (kex p)) (first (kexs conf)).


Section KexMachine.

(** Curve25519: the secret scalar, its public point and the agreement are
    opaque; [gen_secret] draws a fresh secret ([KexCurve25519::new], which
    fails if the random source fails). *)
Variable Secret : Type.
Variable secret_pubkey : Secret -> bytes.
Variable agree : Secret -> bytes -> bytes.
Variable gen_secret : result Secret.
(** [random::fill_random] for the 16-byte KexInit cookie. *)
Variable random_cookie : result KexCookie.
Variable sha256 : bytes -> bytes.
(** [ident::OUR_VERSION], our identification line without CR LF. *)
Variable OUR_VERSION : bytes.
(** Host keys, signatures and their wire encodings (sshwire). *)
Variable PubKey Signature SignKey : Type.
Variable ser_pubkey : PubKey -> bytes.
Variable ser_kexinit : KexInit -> bytes.
Variable sig_verify : SigType -> PubKey -> bytes -> Signature -> result unit.
(** Behaviour hooks: [CliBehaviour::valid_hostkey], [ServBehaviour::hostkeys]. *)
Variable valid_hostkey : PubKey -> result bool.
Variable hostkeys : result (list SignKey).
Variable can_sign : SignKey -> SigType -> bool.
Variable signkey_pubkey : SignKey -> PubKey.
Variable sign : SignKey -> bytes -> result Signature.

(** The packets the key exchange sends. *)
Inductive Packet :=
| PKexInit (p : KexInit)
| PKexDHInit (q_c : bytes)
| PKexDHReply (k_s : PubKey) (q_s : bytes) (sig : Signature)
| PNewKeys.

(** [TrafSend]: queuing a packet for output can fail (no room). *)
Variable Traf : Type.
Variable send : Traf -> Packet -> result Traf.

(** [SharedSecret::KexCurve25519]: the secret ([None] once used) and our
    public point. *)
Inductive SharedSecret := KexCurve25519 (ours : option Secret) (pubkey : bytes).

Definition SharedSecret_pubkey (s : SharedSecret) : bytes :=
  match s with KexCurve25519 _ p => p end.

Definition SharedSecret_from_name (name : string) : result SharedSecret :=
  if String.eqb name SSH_NAME_CURVE25519 || String.eqb name SSH_NAME_CURVE25519_LIBSSH
  then s <- gen_secret ;; Ok (KexCurve25519 (Some s) (secret_pubkey s))
  else Err Bug.

Record Algos := mkAlgos {
  kex_algo : SharedSecret;
  hostsig_algo : SigType;
  cipher_enc : Cipher;
  cipher_dec : Cipher;
  integ_enc : Integ;
  integ_dec : Integ;
  discard_next : bool;
  is_client : bool;
  send_ext_info : bool;
}.

Definition set_discard_next (a : Algos) (b : bool) : Algos :=
  mkAlgos (kex_algo a) (hostsig_algo a) (cipher_enc a) (cipher_dec a)
    (integ_enc a) (integ_dec a) b (is_client a) (send_ext_info a).

Definition set_kex_algo (a : Algos) (k : SharedSecret) : Algos :=
  mkAlgos k (hostsig_algo a) (cipher_enc a) (cipher_dec a)
    (integ_enc a) (integ_dec a) (discard_next a) (is_client a) (send_ext_info a).

Definition ok_or {A} (o : option A) (e : Error) : result A :=
  match o with Some a => Ok a | None => Err e end.

(** [Kex::algo_negotiation] *)
Definition algo_negotiation (is_client : bool) (p : KexInit) (conf : AlgoConfig)
  : result Algos :=
  kexguess2 <- has_algo (kex p) SSH_NAME_KEXGUESS2 ;;
  m <- first_match (kex p) is_client (kexs conf) ;;
  kex_method <- ok_or m (AlgoNoMatch "kex") ;;
  if str_mem kex_method marker_only_kexs then Err (AlgoNoMatch "kex") else
  kex_secret <- SharedSecret_from_name kex_method ;;
  let goodguess_kex :=
    if kexguess2 then String.eqb (first (kex p)) kex_method
    else String.eqb (first (kex p)) (first (kexs conf)) in
  send_ext_info <- (if is_client then Ok false
                    else has_algo (kex p) SSH_NAME_EXT_INFO_C) ;;
  m <- first_match (hostsig p) is_client (hostsig_conf conf) ;;
  hostsig_method <- ok_or m (AlgoNoMatch "hostkey") ;;
  hostsig_type <- SigType_from_name hostsig_method ;;
  let goodguess_hostkey :=
    if kexguess2 then String.eqb (first (hostsig p)) hostsig_method
    else String.eqb (first (hostsig p)) (first (hostsig_conf conf)) in
  let c2s := (cipher_c2s p, mac_c2s p, comp_c2s p) in
  let s2c := (cipher_s2c p, mac_s2c p, comp_s2c p) in
  let '((cipher_tx, mac_tx, comp_tx), (cipher_rx, mac_rx, comp_rx)) :=
    if is_client then (c2s, s2c) else (s2c, c2s) in
  m <- first_match cipher_tx is_client (ciphers conf) ;;
  n <- ok_or m (AlgoNoMatch "encryption") ;;
  cipher_enc <- Cipher_from_name n ;;
  m <- first_match cipher_rx is_client (ciphers conf) ;;
  n <- ok_or m (AlgoNoMatch "encryption") ;;
  cipher_dec <- Cipher_from_name n ;;
  integ_enc <- (match Cipher_integ cipher_enc with
                | Some integ => Ok integ
                | None =>
                    m <- first_match mac_tx is_client (macs conf) ;;
                    n <- ok_or m (AlgoNoMatch "mac") ;;
                    Integ_from_name n
                end) ;;
  integ_dec <- (match Cipher_integ cipher_dec with
                | Some integ => Ok integ
                | None =>
                    m <- first_match mac_rx is_client (macs conf) ;;
                    n <- ok_or m (AlgoNoMatch "mac") ;;
                    Integ_from_name n
                end) ;;
  m <- first_match comp_tx is_client (comps conf) ;;
  _ <- ok_or m (AlgoNoMatch "compression") ;;
  m <- first_match comp_rx is_client (comps conf) ;;
  _ <- ok_or m (AlgoNoMatch "compression") ;;
  let discard_next := first_follows p && negb (goodguess_kex && goodguess_hostkey) in
  Ok (mkAlgos kex_secret hostsig_type cipher_enc cipher_dec integ_enc integ_dec
        discard_next is_client send_ext_info).

(** [KexHash::new]: the two identification lines and the two KexInit
    payloads, in client, server order. [remote_version] is [None] while
    no version line has been received ([.trap()]). *)
Definition KexHash_new (algos : Algos) (conf : AlgoConfig) (our_cookie : KexCookie)
  (remote_version : option bytes) (remote_kexinit : KexInit) : result KexHash :=
  remote_version <- ok_or remote_version Bug ;;
  let own_kexinit := make_kexinit our_cookie conf in
  if is_client algos then
    let kh := hash_slice [] OUR_VERSION in
    let kh := hash_slice kh remote_version in
    let kh := hash_ser_length kh (ser_kexinit own_kexinit) in
    Ok (hash_ser_length kh (ser_kexinit remote_kexinit))
  else
    let kh := hash_slice [] remote_version in
    let kh := hash_slice kh OUR_VERSION in
    let kh := hash_ser_length kh (ser_kexinit remote_kexinit) in
    Ok (hash_ser_length kh (ser_kexinit own_kexinit)).

(** [KexHash::prefinish] *)
Definition prefinish (kh : KexHash) (host_key : PubKey) (q_c q_s : bytes) : result KexHash :=
  let kh := hash_ser_length kh (ser_pubkey host_key) in
  let kh := hash_slice kh q_c in
  Ok (hash_slice kh q_s).

(** [KexHash::finish] *)
Definition finish (kh : KexHash) (k : bytes) : bytes :=
  sha256 (hash_mpint kh k).

(** [KexOutput]: [h], and the bytes [K || H] already fed to [partial_hash]. *)
Record KexOutput := mkKexOutput {
  h : bytes;
  partial_hash : bytes;
}.

Definition KexOutput_new (k : bytes) (kh : KexHash) : KexOutput :=
  let h := finish kh k in
  mkKexOutput h (hash_mpint [] k ++ h).

(** [KexCurve25519::secret]: consumes our secret. *)
Definition KexCurve25519_secret (algos : Algos) (theirs : bytes) (kh : KexHash)
  : result (Algos * KexOutput) :=
  match kex_algo algos with
  | KexCurve25519 ours pub =>
      s <- ok_or ours Bug ;;
      if Nat.eqb (List.length theirs) 32 then
        let shsec := agree s theirs in
        Ok (set_kex_algo algos (KexCurve25519 None pub), KexOutput_new shsec kh)
      else Err BadKex
  end.

(** [SharedSecret::make_kexdhinit] *)
Definition make_kexdhinit (s : SharedSecret) : result Packet :=
  Ok (PKexDHInit (SharedSecret_pubkey s)).

(** [SharedSecret::handle_kexdhreply] (client) *)
Definition SharedSecret_handle_kexdhreply (algos : Algos) (kh : KexHash)
  (k_s : PubKey) (q_s : bytes) (sig : Signature) : result (Algos * KexOutput) :=
  kh <- prefinish kh k_s (SharedSecret_pubkey (kex_algo algos)) q_s ;;
  r <- KexCurve25519_secret algos q_s kh ;;
  let '(algos, kex_out) := r in
  _ <- sig_verify (hostsig_algo algos) k_s (h kex_out) sig ;;
  match valid_hostkey k_s with
  | Ok true => Ok (algos, kex_out)
  | _ => Err (BehaviourError "Host key rejected")
  end.

(** [SharedSecret::send_kexdhreply] (server) *)
Definition send_kexdhreply (ko : KexOutput) (kex_pub : bytes) (hostkey : SignKey)
  (t : Traf) : result Traf :=
  sig <- sign hostkey (h ko) ;;
  send t (PKexDHReply (signkey_pubkey hostkey) kex_pub sig).

(** [SharedSecret::handle_kexdhinit] (server) *)
Definition SharedSecret_handle_kexdhinit (algos : Algos) (kh : KexHash)
  (q_c : bytes) (t : Traf) : result (Algos * KexOutput * Traf) :=
  keys <- hostkeys ;;
  hostkey <- ok_or (find (fun k => can_sign k (hostsig_algo algos)) keys) Bug ;;
  kh <- prefinish kh (signkey_pubkey hostkey) q_c (SharedSecret_pubkey (kex_algo algos)) ;;
  r <- KexCurve25519_secret algos q_c kh ;;
  let '(algos, kex_out) := r in
  let kex_pub := SharedSecret_pubkey (kex_algo algos) in
  t <- send_kexdhreply kex_out kex_pub hostkey t ;;
  Ok (algos, kex_out, t).

(** The state of the key exchange, [enum Kex]. *)
Inductive Kex :=
| Idle
| KexInitSent (our_cookie : KexCookie)   (* Kex::KexInit *)
| KexDH (algos : Algos) (kex_hash : KexHash)
| NewKeys (output : KexOutput) (algos : Algos)
| Taken.

(** [Kex::send_kexinit] *)
Definition send_kexinit (st : Kex) (conf : AlgoConfig) (t : Traf) : Kex * result Traf :=
  match st with
  | Idle =>
      match random_cookie with
      | Err e => (st, Err e)
      | Ok c =>
          match send t (PKexInit (make_kexinit c conf)) with
          | Err e => (st, Err e)
          | Ok t => (KexInitSent c, Ok t)
          end
      end
  | _ => (st, Err Bug)
  end.

(** [Kex::handle_kexinit] *)
Definition handle_kexinit (st : Kex) (remote_kexinit : KexInit) (is_client : bool)
  (algo_conf : AlgoConfig) (remote_version : option bytes) (t : Traf) : Kex * result Traf :=
  let '(st, r) := match st with
                  | Idle => send_kexinit st algo_conf t
                  | _ => (st, Ok t)
                  end in
  match r with
  | Err e => (st, Err e)
  | Ok t =>
      match st with
      | KexInitSent our_cookie =>
          match algo_negotiation is_client remote_kexinit algo_conf with
          | Err e => (st, Err e)
          | Ok algos =>
              let r := if is_client
                       then p <- make_kexdhinit (kex_algo algos) ;; send t p
                       else Ok t in
              match r with
              | Err e => (st, Err e)
              | Ok t =>
                  match KexHash_new algos algo_conf our_cookie remote_version remote_kexinit with
                  | Err e => (st, Err e)
                  | Ok kh => (KexDH algos kh, Ok t)
                  end
              end
          end
      | _ => (st, Err PacketWrong)
      end
  end.

(** [Kex::handle_kexdhinit] (server) *)
Definition handle_kexdhinit (st : Kex) (q_c : bytes) (t : Traf) : Kex * result Traf :=
  match st with
  | KexDH algos kh =>
      if is_client algos then (st, Err Bug)
      else if discard_next algos then
        (* Ignore this packet *)
        (KexDH (set_discard_next algos false) kh, Ok t)
      else
        match SharedSecret_handle_kexdhinit algos kh q_c t with
        | Err e => (Taken, Err e)
        | Ok (algos, output, t) => (NewKeys output algos, send t PNewKeys)
        end
  | _ => (Taken, Err PacketWrong)
  end.

(** [Kex::handle_kexdhreply] (client) *)
Definition handle_kexdhreply (st : Kex) (k_s : PubKey) (q_s : bytes) (sig : Signature)
  (t : Traf) : Kex * result Traf :=
  match st with
  | KexDH algos kh =>
      if negb (is_client algos) then (st, Err Bug)
      else if discard_next algos then
        (* Ignore this packet *)
        (KexDH (set_discard_next algos false) kh, Ok t)
      else
        match SharedSecret_handle_kexdhreply algos kh k_s q_s sig with
        | Err e => (Taken, Err e)
        | Ok (algos, output) => (NewKeys output algos, send t PNewKeys)
        end
  | _ => (Taken, Err PacketWrong)
  end.

(** Key derivation ([Keys::derive]) and installing keys ([TrafSend::rekey]). *)
Variable Keys : Type.
Variable Keys_derive : KexOutput -> bytes -> Algos -> result Keys.
Variable traf_rekey : Traf -> Keys -> Traf.

(** [Kex::handle_newkeys]: the connection's [sess_id] is passed in and out. *)
Definition handle_newkeys (st : Kex) (sess_id : option bytes) (t : Traf)
  : Kex * option bytes * result Traf :=
  match st with
  | NewKeys output algos =>
      let sid := match sess_id with Some s => s | None => h output end in
      match Keys_derive output sid algos with
      | Err e => (Taken, Some sid, Err e)
      | Ok keys => (Idle, Some sid, Ok (traf_rekey t keys))
      end
  | _ => (Taken, sess_id, Err PacketWrong)
  end.

End KexMachine.

End Kex.

(** [auth::AuthType] and [packets::ParseContext]. *)
Inductive AuthType := AuthPassword | AuthPubKey.

Record ParseContext := mkParseContext {
  cli_auth_type : option AuthType;
  method_pubkey_force_sig_bool : bool;
  seen_unknown : bool;
}.

Definition ParseContext_new : ParseContext := mkParseContext None false false.

(** * Client authentication: src/cliauth.rs and sshproto/src/client.rs *)
Module CliAuth.

Definition SSH_SERVICE_USERAUTH := "ssh-userauth"%string.
Definition SSH_SERVICE_CONNECTION := "ssh-connection"%string.

Section CliAuthSec.

(** Keys for public key authentication and passwords ([ResponseString]). *)
Variable SignKey : Type.

Inductive Req :=
| Password (pw : string)
| PubKey (key : SignKey).

Inductive AuthState :=
| Unstarted
| MethodQuery
| Request (last_req : Req)
| Idle.

Record CliAuth := mkCliAuth {
  state : AuthState;
  username : string;
  try_password : bool;
  try_pubkey : bool;
  allow_rsa_sha2 : bool;
}.

Definition CliAuth_new : CliAuth := mkCliAuth Unstarted EmptyString true true false.

Definition set_state (c : CliAuth) (s : AuthState) : CliAuth :=
  mkCliAuth s (username c) (try_password c) (try_pubkey c) (allow_rsa_sha2 c).

(** The packet [Client::auth_success] sends. *)
Inductive Packet :=
| PServiceRequest (name : string).

(** [TrafSend::send] can fail (no room in the output buffer). *)
Variable Traf : Type.
Variable send : Traf -> Packet -> result Traf.

(** The behaviour callbacks made, in order. *)
Inductive BehCall := Authenticated.

(** [CliAuth::success]: the result of [b.authenticated()] is dropped. *)
Definition success (c : CliAuth) (b : list BehCall) : CliAuth * list BehCall * result unit :=
  let c := set_state c Idle in
  let b := b ++ [Authenticated] in
  (c, b, Ok tt).

Definition clear_auth_type (ctx : ParseContext) : ParseContext :=
  mkParseContext None (method_pubkey_force_sig_bool ctx) (seen_unknown ctx).

(** [Client::auth_success], run by the connection on [UserauthSuccess]. *)
Definition auth_success (c : CliAuth) (ctx : ParseContext) (t : Traf) (b : list BehCall)
  : CliAuth * ParseContext * Traf * list BehCall * result unit :=
  let ctx := clear_auth_type ctx in
  match send t (PServiceRequest SSH_SERVICE_CONNECTION) with
  | Err e => (c, ctx, t, b, Err e)
  | Ok t =>
      let '(c, b, r) := success c b in
      (c, ctx, t, b, r)
  end.

End CliAuthSec.

End CliAuth.

(** * The wire codec: src/packets.rs and the derive macros of
    sshwire_derive/src/lib.rs *)
Module Wire.

(** The [#[sshwire(...)]] attributes read by the derive macros. *)
Inductive FieldAtt :=
| VariantName (enum_field : string)
| CaptureUnknown
| Variant (name : string).

Inductive ContainerAtt := VariantPrefix | NoNames.

(** The shapes of enum variants the macros accept. *)
Inductive VFields := FUnit | FTuple1.

Record EnumVariant := mkVariant {
  var_ident : string;
  var_atts : list FieldAtt;
  var_fields : VFields;
}.

Record EnumDesc := mkEnum {
  cont_atts : list ContainerAtt;
  variants : list EnumVariant;
}.

Definition is_capture_unknown (a : FieldAtt) : bool :=
  match a with CaptureUnknown => true | _ => false end.

Definition is_variant_prefix (a : ContainerAtt) : bool :=
  match a with VariantPrefix => true | _ => false end.

Fixpoint att_variant_names (atts : list FieldAtt) : list string :=
  match atts with
  | [] => []
  | Variant n :: r => n :: att_variant_names r
  | _ :: r => att_variant_names r
  end.

(** [field_att_var_names]: exactly one [variant = ...] attribute, otherwise
    the derive does not compile (rendered as [Err Bug]). *)
Definition field_att_var_names (atts : list FieldAtt) : result string :=
  match att_variant_names atts with
  | [n] => Ok n
  | _ => Err Bug
  end.

Definition find_variant (d : EnumDesc) (ident : string) : option EnumVariant :=
  find (fun v => String.eqb (var_ident v) ident) (variants d).

Local Set Warnings "-register-all".

(** Values of the types that derive or implement [SSHEncode]/[SSHDecode].
    A struct's fields carry their name and attributes; an enum value is its
    descriptor, the variant's identifier and the variant's payload. *)
Inductive wval :=
| WU8 (b : Byte.byte)
| WU32 (n : N)
| WBool (b : bool)
| WString (s : bytes)          (* BinString, TextString, &str *)
| WUnknown (name : bytes)      (* packets::Unknown: not SSHEncode *)
| WStruct (fields : list (string * list FieldAtt * wval))
| WEnum (d : EnumDesc) (ident : string) (payload : option wval)
| WBlob (inner : wval)
| WOption (o : option wval).

(** Modelled from the spec: length-prefixed byte strings (sshwire.rs is not
    in the sources): a u32 length, then the bytes. *)
Definition enc_string (b : bytes) : bytes :=
  u32_to_be_bytes (N.of_nat (List.length b)) ++ b.

(** [SSHEncodeEnum::variant_name], as generated by [encode_enum_names]. *)
Definition variant_name (d : EnumDesc) (ident : string) : result string :=
  match find_variant d ident with
  | None => Err Bug
  | Some v =>
      if existsb is_capture_unknown (var_atts v)
      then Err Bug   (* Error::bug_msg("Can't encode Unknown") *)
      else field_att_var_names (var_atts v)
  end.

Fixpoint lookup_field (fs : list (string * list FieldAtt * wval)) (n : string)
  : option wval :=
  match fs with
  | [] => None
  | (fname, _, v) :: r => if String.eqb fname n then Some v else lookup_field r n
  end.

(** The bytes [SSHEncode::enc] writes to the sink, or its error. Structs
    follow [encode_struct], enums [encode_enum]; a [Blob] is modelled from the
    spec (its inner encoding, length-prefixed) and an [Option] writes its
    value when there is one (the spec's "no trailing signature"). *)
Fixpoint enc (v : wval) : result bytes :=
  match v with
  | WU8 b => Ok [b]
  | WU32 n => Ok (u32_to_be_bytes n)
  | WBool b => Ok [if b then Byte.x01 else Byte.x00]
  | WString s => Ok (enc_string s)
  | WUnknown _ => Err Bug
  | WStruct fs =>
      let fix enc_names (atts : list FieldAtt) : result bytes :=
        match atts with
        | [] => Ok []
        | VariantName ef :: r =>
            n <- match lookup_field fs ef with
                 | Some (WEnum d i _) => variant_name d i
                 | _ => Err Bug
                 end ;;
            rest <- enc_names r ;;
            Ok (enc_string (list_byte_of_string n) ++ rest)
        | _ :: r => enc_names r
        end in
      let fix enc_fields (l : list (string * list FieldAtt * wval)) : result bytes :=
        match l with
        | [] => Ok []
        | (_, atts, fv) :: r =>
            pre <- enc_names atts ;;
            b <- enc fv ;;
            rest <- enc_fields r ;;
            Ok (pre ++ b ++ rest)
        end in
      enc_fields fs
  | WEnum d ident payload =>
      pre <- (if existsb is_variant_prefix (cont_atts d)
              then n <- variant_name d ident ;; Ok (enc_string (list_byte_of_string n))
              else Ok []) ;;
      match find_variant d ident with
      | None => Err Bug
      | Some var =>
          match var_fields var, payload with
          | FUnit, _ => Ok pre
          | FTuple1, Some p =>
              if existsb is_capture_unknown (var_atts var)
              then Err Bug   (* return Error::bug_msg("Can't encode Unknown") *)
              else b <- enc p ;; Ok (pre ++ b)
          | FTuple1, None => Err Bug
          end
      end
  | WBlob inner => b <- enc inner ;; Ok (enc_string b)
  | WOption o => match o with None => Ok [] | Some x => enc x end
  end.

(** Whether a value holds an [Unknown] variant anywhere. *)
Definition is_unknown_variant (d : EnumDesc) (ident : string) : bool :=
  match find_variant d ident with
  | Some v => existsb is_capture_unknown (var_atts v)
  | None => false
  end.

Fixpoint contains_unknown (v : wval) : bool :=
  match v with
  | WStruct fs =>
      let fix go (l : list (string * list FieldAtt * wval)) : bool :=
        match l with
        | [] => false
        | (_, _, fv) :: r => contains_unknown fv || go r
        end in
      go fs
  | WEnum d ident payload =>
      is_unknown_variant d ident ||
      match payload with Some p => contains_unknown p | None => false end
  | WBlob inner => contains_unknown inner
  | WOption o => match o with Some x => contains_unknown x | None => false end
  | _ => false
  end.

(** The values the Rust types admit: an enum value names one of its
    variants, a unit variant has no payload and a tuple variant has one;
    the catch-all variant of [decode_enum_names] ([unk => Self::V(Unknown(unk))])
    is a tuple variant. *)
Fixpoint well_typed (v : wval) : bool :=
  match v with
  | WStruct fs =>
      let fix go (l : list (string * list FieldAtt * wval)) : bool :=
        match l with
        | [] => true
        | (_, _, fv) :: r => well_typed fv && go r
        end in
      go fs
  | WEnum d ident payload =>
      match find_variant d ident with
      | None => false
      | Some var =>
          match var_fields var, payload with
          | FUnit, None => negb (existsb is_capture_unknown (var_atts var))
          | FTuple1, Some p => well_typed p
          | _, _ => false
          end
      end
  | WBlob inner => well_typed inner
  | WOption o => match o with Some x => well_typed x | None => true end
  | _ => true
  end.

(** Decoding: a decoder reads from the input bytes that remain and sees
    the [ParseContext] of the [SSHSource]. *)
Definition Dec (A : Type) := ParseContext -> bytes -> result (A * bytes).

(** Modelled from the spec: [u32] big-endian (sshwire.rs is not in the
    sources); short input is [RanOut]. *)
Definition dec_u32 : Dec N := fun _ s =>
  match s with
  | a :: b :: c :: d :: r =>
      Ok (N.lor (N.shiftl (Byte.to_N a) 24)
           (N.lor (N.shiftl (Byte.to_N b) 16)
             (N.lor (N.shiftl (Byte.to_N c) 8) (Byte.to_N d))), r)
  | _ => Err RanOut
  end.

(** Modelled from the spec: a length-prefixed byte string; a length beyond
    the remaining input is [RanOut]. Text is validated lazily, so
    [TextString] and [&str] read the same way. *)
Definition dec_binstring : Dec bytes := fun ctx s =>
  r <- dec_u32 ctx s ;;
  let '(len, rest) := r in
  if N.ltb (N.of_nat (List.length rest)) len then Err RanOut
  else Ok (firstn (N.to_nat len) rest, skipn (N.to_nat len) rest).

Definition dec_textstring : Dec bytes := dec_binstring.
Definition dec_str : Dec bytes := dec_binstring.

(** Modelled from the spec: a [Blob] bounds the inner parse to its length. *)
Definition dec_blob {A} (inner : Dec A) : Dec A := fun ctx s =>
  r <- dec_u32 ctx s ;;
  let '(len, rest) := r in
  if N.ltb (N.of_nat (List.length rest)) len then Err RanOut
  else
    r <- inner ctx (firstn (N.to_nat len) rest) ;;
    let '(a, _) := r in
    Ok (a, skipn (N.to_nat len) rest).

(** The arms of the [match variant] that [decode_enum_names] generates. *)
Inductive Arm :=
| ArmName (name : string) (v : EnumVariant)
| ArmUnknown (v : EnumVariant).

(** [decode_enum_names]: the loop over the variants, with its
    [unknown_arm] slot. [None] when the macro reports an error. *)
Fixpoint gen_arms_loop (vs : list EnumVariant) (unknown_arm : option Arm)
  : option (list Arm) :=
  match vs with
  | [] => Some []
  | var :: r =>
      let step :=
        if existsb is_capture_unknown (var_atts var) then
          match unknown_arm with
          | Some _ => None     (* "only one variant can have #[sshwire(unknown)]" *)
          | None => Some ([], Some (ArmUnknown var))
          end
        else
          match field_att_var_names (var_atts var) with
          | Ok n => Some ([ArmName n var], unknown_arm)
          | Err _ => None
          end in
      match step with
      | None => None
      | Some (arms, unknown_arm) =>
          (* if let Some(unk) = unknown_arm.take() { match_arm.append(unk) } *)
          let '(arms, unknown_arm) :=
            match unknown_arm with
            | Some unk => (arms ++ [unk], None)
            | None => (arms, None)
            end in
          match gen_arms_loop r unknown_arm with
          | None => None
          | Some rest => Some (arms ++ rest)
          end
      end
  end.

Definition gen_arms (d : EnumDesc) : option (list Arm) := gen_arms_loop (variants d) None.

Fixpoint match_arms (arms : list Arm) (variant : string) : option (Arm) :=
  match arms with
  | [] => None
  | ArmName n v :: r => if String.eqb n variant then Some (ArmName n v) else match_arms r variant
  | ArmUnknown v :: _ => Some (ArmUnknown v)
  end.

(** [SSHDecodeEnum::dec_enum] as generated: [dec_payload] decodes the
    payload of a tuple variant ([SSHDecode::dec] of its field type). A
    [match] left without a matching arm would not compile ([Err Bug]). *)
Definition dec_enum (d : EnumDesc) (dec_payload : string -> Dec wval)
  (variant : string) : Dec wval := fun ctx s =>
  match gen_arms d with
  | None => Err Bug
  | Some arms =>
      match match_arms arms variant with
      | None => Err Bug
      | Some (ArmName _ v) =>
          match var_fields v with
          | FUnit => Ok (WEnum d (var_ident v) None, s)
          | FTuple1 =>
              r <- dec_payload (var_ident v) ctx s ;;
              let '(p, s) := r in
              Ok (WEnum d (var_ident v) (Some p), s)
          end
      | Some (ArmUnknown v) =>
          Ok (WEnum d (var_ident v) (Some (WUnknown (list_byte_of_string variant))), s)
      end
  end.

(** [decode_enum_variant_prefix]: the name, then [dec_enum]. *)
Definition dec_variant_prefix (d : EnumDesc) (dec_payload : string -> Dec wval)
  : Dec wval := fun ctx s =>
  r <- dec_str ctx s ;;
  let '(variant, s) := r in
  dec_enum d dec_payload (string_of_list_byte variant) ctx s.

(** The enums of packets.rs that derive [SSHDecode], with their attributes. *)
Definition var (i : string) (n : string) (f : VFields) : EnumVariant :=
  mkVariant i [Variant n] f.
Definition unknown_var : EnumVariant := mkVariant "Unknown" [CaptureUnknown] FTuple1.

Definition AuthMethod_desc : EnumDesc :=
  mkEnum [VariantPrefix]
    [var "Password" "password" FTuple1; var "PubKey" "publickey" FTuple1;
     var "None" "none" FUnit; unknown_var].

Definition PubKey_desc : EnumDesc :=
  mkEnum [VariantPrefix]
    [var "Ed25519" "ssh-ed25519" FTuple1; var "RSA" "ssh-rsa" FTuple1; unknown_var].

Definition Signature_desc : EnumDesc :=
  mkEnum [VariantPrefix]
    [var "Ed25519" "ssh-ed25519" FTuple1; var "RSA256" "rsa-sha2-256" FTuple1;
     unknown_var].

Definition ChannelOpenType_desc : EnumDesc :=
  mkEnum []
    [var "Session" "session" FUnit; var "ForwardedTcpip" "forwarded-tcpip" FTuple1;
     var "DirectTcpip" "direct-tcpip" FTuple1; unknown_var].

Definition ChannelReqType_desc : EnumDesc :=
  mkEnum []
    [var "Shell" "shell" FUnit; var "Exec" "exec" FTuple1; var "Pty" "pty-req" FTuple1;
     var "Subsystem" "subsystem" FTuple1; var "WinChange" "window-change" FTuple1;
     var "Signal" "signal" FTuple1; var "ExitStatus" "exit-status" FTuple1;
     var "ExitSignal" "exit-signal" FTuple1; var "Break" "break" FTuple1; unknown_var].

Definition wire_enums : list EnumDesc :=
  [AuthMethod_desc; PubKey_desc; Signature_desc; ChannelOpenType_desc;
   ChannelReqType_desc].

Definition variant_names (d : EnumDesc) : list string :=
  flat_map (fun v => att_variant_names (var_atts v)) (variants d).

(** Payloads of [PubKey]: [Ed25519PubKey { key }], [RSAPubKey { e, n }]. *)
Definition dec_pubkey_payload (ident : string) : Dec wval := fun ctx s =>
  if String.eqb ident "Ed25519" then
    r <- dec_binstring ctx s ;;
    let '(key, s) := r in
    Ok (WStruct [("key"%string, [], WString key)], s)
  else if String.eqb ident "RSA" then
    r <- dec_binstring ctx s ;;
    let '(e, s) := r in
    r <- dec_binstring ctx s ;;
    let '(n, s) := r in
    Ok (WStruct [("e"%string, [], WString e); ("n"%string, [], WString n)], s)
  else Err Bug.

Definition dec_pubkey : Dec wval := dec_variant_prefix PubKey_desc dec_pubkey_payload.

(** [Userauth60] and its two payloads. *)
Inductive Userauth60 :=
| PkOk (algo : bytes) (key : wval)
| PwChangeReq (prompt : bytes) (lang : bytes).

(** [UserauthPkOk { algo: &str, key: Blob<PubKey> }] *)
Definition dec_pkok : Dec (bytes * wval) := fun ctx s =>
  r <- dec_str ctx s ;;
  let '(algo, s) := r in
  r <- dec_blob dec_pubkey ctx s ;;
  let '(key, s) := r in
  Ok ((algo, key), s).

(** [UserauthPwChangeReq { prompt: TextString, lang: TextString }] *)
Definition dec_pwchange : Dec (bytes * bytes) := fun ctx s =>
  r <- dec_textstring ctx s ;;
  let '(prompt, s) := r in
  r <- dec_textstring ctx s ;;
  let '(lang, s) := r in
  Ok ((prompt, lang), s).

(** [impl SSHDecode for Userauth60] *)
Definition dec_userauth60 : Dec Userauth60 := fun ctx s =>
  match cli_auth_type ctx with
  | Some AuthPassword =>
      r <- dec_pwchange ctx s ;;
      let '((prompt, lang), s) := r in
      Ok (PwChangeReq prompt lang, s)
  | Some AuthPubKey =>
      r <- dec_pkok ctx s ;;
      let '((algo, key), s) := r in
      Ok (PkOk algo key, s)
  | _ => Err PacketWrong
  end.

Definition bug_or_ok {A} (r : result A) : Prop :=
  match r with Ok _ => True | Err e => e = Bug end.

End Wire.


(** * Packet encryption and key setup: [Keys] of sshproto/src/encrypt.rs *)
Module Framing.

(** [splice buf start data]: [buf[start..start + data.len()].copy_from_slice(data)]. *)
Definition splice (buf : bytes) (start : nat) (data : bytes) : bytes :=
  firstn start buf ++ data ++ skipn (start + List.length data) buf.

(** [u32::from_be_bytes] of a 4-byte array. *)
Definition u32_from_be_bytes (d : bytes) : N :=
  match d with
  | [a; b; c; e] =>
      Byte.to_N a * 2 ^ 24 + Byte.to_N b * 2 ^ 16 + Byte.to_N c * 2 ^ 8 + Byte.to_N e
  | _ => 0
  end%N.

(** [chapoly::TAG_LEN] and [chapoly::KEY_LEN] of ring's
    chacha20_poly1305_openssh. *)
Definition CHAPOLY_TAG_LEN : nat := 16.
Definition CHAPOLY_KEY_LEN : nat := 64.
(** [sha2::Sha256::output_size()] *)
Definition SHA256_OUTPUT_SIZE : nat := 32.
(** [MAX_IV_LEN] and [MAX_KEY_LEN] *)
Definition MAX_IV_LEN : nat := 32.
Definition MAX_KEY_LEN : nat := 64.

Section FramingSec.

(** The cipher primitives are opaque: ring's chacha20-poly1305 sealing and
    opening keys, the AES-256-CTR stream state, HMAC-SHA256 and SHA-256. *)
Variable SealKey OpenKey AesCtr : Type.
(** [SealingKey::seal_in_place(seq, data, tag)]: the sealed data and the tag. *)
Variable seal_in_place : SealKey -> Z -> bytes -> bytes * bytes.
(** [OpeningKey::open_in_place(seq, data, tag)]: the opened data, or a
    failed tag check. *)
Variable open_in_place : OpenKey -> Z -> bytes -> bytes -> option bytes.
(** [OpeningKey::decrypt_packet_length(seq, first4)] *)
Variable decrypt_packet_length : OpenKey -> Z -> bytes -> bytes.
(** [StreamCipher::apply_keystream]: the stream advances. *)
Variable apply_keystream : AesCtr -> bytes -> AesCtr * bytes.
(** HMAC-SHA256 of a message under a key. *)
Variable hmac_sha256 : bytes -> bytes -> bytes.
(** [random::fill_random]: fills the slice, or fails. *)
Variable fill_random : bytes -> result bytes.

Inductive EncKey :=
| EChaPoly (k : SealKey)
| EAes256Ctr (a : AesCtr)
| ENoCipher.

Inductive DecKey :=
| DChaPoly (k : OpenKey)
| DAes256Ctr (a : AesCtr)
| DNoCipher.

Inductive IntegKey :=
| IChaPoly
| IHmacSha256 (k : bytes)
| NoInteg.

(** The kind of a sending key, for [size_block] and [is_aead]. *)
Definition enc_kind (k : EncKey) : Encrypt.EncKey :=
  match k with
  | EChaPoly _ => Encrypt.ChaPoly
  | EAes256Ctr _ => Encrypt.Aes256Ctr
  | ENoCipher => Encrypt.NoCipher
  end.

(** [DecKey::is_aead] *)
Definition dec_is_aead (k : DecKey) : bool :=
  match k with DChaPoly _ => true | _ => false end.

(** [DecKey::size_block] *)
Definition dec_size_block (k : DecKey) : nat :=
  match k with
  | DChaPoly _ => Encrypt.SSH_MIN_BLOCK
  | DAes256Ctr _ => Encrypt.AES256_BLOCK_SIZE
  | DNoCipher => Encrypt.SSH_MIN_BLOCK
  end.

(** [IntegKey::size_out] *)
Definition size_out (i : IntegKey) : nat :=
  match i with
  | IChaPoly => CHAPOLY_TAG_LEN
  | IHmacSha256 _ => SHA256_OUTPUT_SIZE
  | NoInteg => 0
  end.

Record Keys := mkKeys {
  enc : EncKey;
  dec : DecKey;
  integ_enc : IntegKey;
  integ_dec : IntegKey;
}.

(** [Keys::new_cleartext] *)
Definition Keys_new_cleartext : Keys := mkKeys ENoCipher DNoCipher NoInteg NoInteg.

Definition set_enc (k : Keys) (e : EncKey) : Keys :=
  mkKeys e (dec k) (integ_enc k) (integ_dec k).
Definition set_dec (k : Keys) (d : DecKey) : Keys :=
  mkKeys (enc k) d (integ_enc k) (integ_dec k).

(** [seq.to_be_bytes()] of the u32 sequence number. *)
Definition seq_bytes (seq : Z) : bytes := u32_to_be_bytes (Z.to_N seq).

(** [Keys::decrypt_first_block]: the total packet length (length field,
    its 4 bytes and the MAC), with the keys and the buffer as left. *)
Definition Keys_decrypt_first_block (k : Keys) (buf : bytes) (seq : Z)
  : Keys * bytes * result N :=
  if List.length buf <? dec_size_block (dec k) then (k, buf, Err Bug) else
  let buf4 := firstn 4 buf in
  let '(k, buf, d4) :=
    match dec k with
    | DChaPoly ok => (k, buf, decrypt_packet_length ok seq buf4)
    | DAes256Ctr a =>
        let '(a, c) := apply_keystream a (firstn 16 buf) in
        let buf := c ++ skipn 16 buf in
        (set_dec k (DAes256Ctr a), buf, firstn 4 buf)
    | DNoCipher => (k, buf, buf4)
    end in
  let len := u32_from_be_bytes d4 in
  let total_len := (len + N.of_nat (Encrypt.SSH_LENGTH_SIZE + size_out (integ_dec k)))%N in
  (* [checked_add] on u32 *)
  if (2 ^ 32 <=? total_len)%N then (k, buf, Err BadDecrypt)
  else (k, buf, Ok total_len).

(** [Keys::decrypt]: the payload length, with the keys and the buffer as
    left. *)
Definition Keys_decrypt (k : Keys) (buf : bytes) (seq : Z) : Keys * bytes * result nat :=
  let size_block := dec_size_block (dec k) in
  let size_integ := size_out (integ_dec k) in
  if List.length buf <? size_block + size_integ then (k, buf, Err SSHProtoError) else
  if List.length buf <? Encrypt.SSH_MIN_PACKET_SIZE + size_integ
  then (k, buf, Err SSHProtoError) else
  let sublength := if dec_is_aead (dec k) then Encrypt.SSH_LENGTH_SIZE else 0 in
  let len := List.length buf - size_integ - sublength in
  if negb (len mod size_block =? 0) then (k, buf, Err SSHProtoError) else
  let data := firstn (List.length buf - size_integ) buf in
  let mac := skipn (List.length buf - size_integ) buf in
  let r :=
    match dec k with
    | DChaPoly ok =>
        (* [mac.try_into().trap()?] *)
        if negb (List.length mac =? CHAPOLY_TAG_LEN) then (k, data, Err Bug) else
        match open_in_place ok seq data mac with
        | None => (k, data, Err BadDecrypt)
        | Some data => (k, data, Ok tt)
        end
    | DAes256Ctr a =>
        if 16 <? List.length data then
          let '(a, d) := apply_keystream a (skipn 16 data) in
          (set_dec k (DAes256Ctr a), firstn 16 data ++ d, Ok tt)
        else (k, data, Ok tt)
    | DNoCipher => (k, data, Ok tt)
    end in
  let '(k, data, r) := r in
  match r with
  | Err e => (k, data ++ mac, Err e)
  | Ok _ =>
      let checked :=
        match integ_dec k with
        | IHmacSha256 key =>
            if list_eq_dec Byte.byte_eq_dec (hmac_sha256 key (seq_bytes seq ++ data)) mac
            then Ok tt else Err BadDecrypt
        | _ => Ok tt
        end in
      match checked with
      | Err e => (k, data ++ mac, Err e)
      | Ok _ =>
          let padlen := Byte.to_nat (nth Encrypt.SSH_LENGTH_SIZE data Byte.x00) in
          if padlen <? Encrypt.SSH_MIN_PADLEN then (k, data ++ mac, Err SSHProtoError) else
          let need := Encrypt.SSH_LENGTH_SIZE + 1 + size_integ + padlen in
          (* [checked_sub] *)
          if List.length buf <? need then (k, data ++ mac, Err SSHProtoError)
          else (k, data ++ mac, Ok (List.length buf - need))
      end
  end.

(** [Keys::calc_encrypt_pad], which reads only the sending cipher's kind. *)
Definition Keys_calc_encrypt_pad (k : Keys) (payload_len : nat) : nat :=
  Encrypt.calc_encrypt_pad (enc_kind (enc k)) payload_len.

(** [Keys::encrypt]: the total length written, with the keys and the
    buffer as left. *)
Definition Keys_encrypt (k : Keys) (payload_len : nat) (buf : bytes) (seq : Z)
  : Keys * bytes * result nat :=
  let size_integ := size_out (integ_enc k) in
  let padlen := Keys_calc_encrypt_pad k payload_len in
  let len := Encrypt.SSH_LENGTH_SIZE + 1 + payload_len + padlen in
  if List.length buf <? len + size_integ then (k, buf, Err NoRoom) else
  let buf := splice buf Encrypt.SSH_LENGTH_SIZE [byte_of_N (N.of_nat padlen)] in
  let buf := splice buf 0 (u32_to_be_bytes (N.of_nat (len - Encrypt.SSH_LENGTH_SIZE))) in
  let pad_start := Encrypt.SSH_LENGTH_SIZE + 1 + payload_len in
  match fill_random (firstn padlen (skipn pad_start buf)) with
  | Err e => (k, buf, Err e)
  | Ok pad =>
      let buf := splice buf pad_start pad in
      let encd := firstn len buf in
      let rest := skipn len buf in
      let mac := firstn size_integ rest in
      let tail := skipn size_integ rest in
      let mac :=
        match integ_enc k with
        | IHmacSha256 key => hmac_sha256 key (seq_bytes seq ++ encd)
        | _ => mac
        end in
      match enc k with
      | EChaPoly sk =>
          if negb (List.length mac =? CHAPOLY_TAG_LEN) then (k, encd ++ mac ++ tail, Err Bug)
          else
            let '(encd, mac) := seal_in_place sk seq encd in
            (k, encd ++ mac ++ tail, Ok (len + size_integ))
      | EAes256Ctr a =>
          let '(a, encd) := apply_keystream a encd in
          (set_enc k (EAes256Ctr a), encd ++ mac ++ tail, Ok (len + size_integ))
      | ENoCipher => (k, encd ++ mac ++ tail, Ok (len + size_integ))
      end
  end.

(** Key setup, [Keys::new_from]. *)
Variable sha256 : bytes -> bytes.
Variable seal_key_new : bytes -> SealKey.
Variable open_key_new : bytes -> OpenKey.
(** [Aes256Ctr32BE::new_from_slices(key, iv)] *)
Variable aes_new : bytes -> bytes -> AesCtr.

(** [Cipher::key_len], [Cipher::iv_len] and [Integ::key_len]. *)
Definition cipher_key_len (c : Kex.Cipher) : nat :=
  match c with Kex.CipherChaPoly => CHAPOLY_KEY_LEN | Kex.CipherAes256Ctr => 32 end.
Definition cipher_iv_len (c : Kex.Cipher) : nat :=
  match c with Kex.CipherChaPoly => 0 | Kex.CipherAes256Ctr => 16 end.
Definition integ_key_len (i : Kex.Integ) : nat :=
  match i with Kex.IntegChaPoly => 0 | Kex.IntegHmacSha256 => 32 end.

(** [Keys::compute_key]: [out] is the caller's buffer, filled from
    [K1 = HASH(K || H || letter || session_id)] then [K2 = HASH(K || H || K1)];
    the result is its first [len] bytes, with the buffer as left.
    [hash_mpint] is the Kex module's. *)
Definition compute_key (letter : Byte.byte) (len : nat) (out : bytes)
  (k h sess_id : bytes) : result (bytes * bytes) :=
  if List.length out <? len then Err Bug else
  let k1 := sha256 (Kex.hash_mpint [] k ++ h ++ [letter] ++ sess_id) in
  let l := Nat.min (List.length out) (List.length k1) in
  let w1 := firstn l k1 in
  let rest := List.length out - l in
  let w2 :=
    if 0 <? rest then
      let k2 := sha256 (Kex.hash_mpint [] k ++ h ++ k1) in
      firstn (Nat.min rest (List.length k2)) k2
    else [] in
  let out := w1 ++ w2 ++ skipn (l + List.length w2) out in
  Ok (firstn len out, out).

(** [EncKey::from_cipher] and [DecKey::from_cipher]: [try_into] a 64-byte
    key, or [new_from_slices] of a 32-byte key and a 16-byte IV. *)
Definition EncKey_from_cipher (c : Kex.Cipher) (key iv : bytes) : result EncKey :=
  match c with
  | Kex.CipherChaPoly =>
      if List.length key =? 64 then Ok (EChaPoly (seal_key_new key)) else Err Bug
  | Kex.CipherAes256Ctr =>
      if (List.length key =? 32) && (List.length iv =? 16)
      then Ok (EAes256Ctr (aes_new key iv)) else Err Bug
  end.

Definition DecKey_from_cipher (c : Kex.Cipher) (key iv : bytes) : result DecKey :=
  match c with
  | Kex.CipherChaPoly =>
      if List.length key =? 64 then Ok (DChaPoly (open_key_new key)) else Err Bug
  | Kex.CipherAes256Ctr =>
      if (List.length key =? 32) && (List.length iv =? 16)
      then Ok (DAes256Ctr (aes_new key iv)) else Err Bug
  end.

(** [IntegKey::from_integ]: an HMAC key must be 32 bytes ([try_into]). *)
Definition IntegKey_from_integ (i : Kex.Integ) (key : bytes) : result IntegKey :=
  match i with
  | Kex.IntegChaPoly => Ok IChaPoly
  | Kex.IntegHmacSha256 =>
      if List.length key =? 32 then Ok (IHmacSha256 key) else Err Bug
  end.

Definition letter (c : ascii) : Byte.byte := Ascii.byte_of_ascii c.

(** [Keys::new_from]. The key and IV buffers are reused from one call of
    [compute_key] to the next, as in the code; note that [integ_dec]'s key
    length is read from [algos.integ_enc]. *)
Definition Keys_new_from {Secret} (k h sess_id : bytes) (algos : Kex.Algos Secret)
  : result Keys :=
  let key := repeat Byte.x00 MAX_KEY_LEN in
  let iv := repeat Byte.x00 MAX_IV_LEN in
  let '(iv_e, iv_d, k_e, k_d, i_e, i_d) :=
    if Kex.is_client Secret algos
    then ("A", "B", "C", "D", "E", "F")%char
    else ("B", "A", "D", "C", "F", "E")%char in
  r <- compute_key (letter iv_e) (cipher_iv_len (Kex.cipher_enc Secret algos)) iv k h sess_id ;;
  let '(i, iv) := r in
  r <- compute_key (letter k_e) (cipher_key_len (Kex.cipher_enc Secret algos)) key k h sess_id ;;
  let '(kk, key) := r in
  enc <- EncKey_from_cipher (Kex.cipher_enc Secret algos) kk i ;;
  r <- compute_key (letter iv_d) (cipher_iv_len (Kex.cipher_dec Secret algos)) iv k h sess_id ;;
  let '(i, iv) := r in
  r <- compute_key (letter k_d) (cipher_key_len (Kex.cipher_dec Secret algos)) key k h sess_id ;;
  let '(kk, key) := r in
  dec <- DecKey_from_cipher (Kex.cipher_dec Secret algos) kk i ;;
  r <- compute_key (letter i_e) (integ_key_len (Kex.integ_enc Secret algos)) key k h sess_id ;;
  let '(kk, key) := r in
  integ_enc <- IntegKey_from_integ (Kex.integ_enc Secret algos) kk ;;
  r <- compute_key (letter i_d) (integ_key_len (Kex.integ_enc Secret algos)) key k h sess_id ;;
  let '(kk, key) := r in
  integ_dec <- IntegKey_from_integ (Kex.integ_dec Secret algos) kk ;;
  Ok (mkKeys enc dec integ_enc integ_dec).

End FramingSec.

Arguments EChaPoly {SealKey AesCtr}.
Arguments EAes256Ctr {SealKey AesCtr}.
Arguments ENoCipher {SealKey AesCtr}.
Arguments DChaPoly {OpenKey AesCtr}.
Arguments DAes256Ctr {OpenKey AesCtr}.
Arguments DNoCipher {OpenKey AesCtr}.
Arguments mkKeys {SealKey OpenKey AesCtr}.
Arguments enc {SealKey OpenKey AesCtr}.
Arguments dec {SealKey OpenKey AesCtr}.
Arguments integ_enc {SealKey OpenKey AesCtr}.
Arguments integ_dec {SealKey OpenKey AesCtr}.
Arguments enc_kind {SealKey AesCtr}.
Arguments dec_is_aead {OpenKey AesCtr}.
Arguments dec_size_block {OpenKey AesCtr}.
Arguments Keys_new_cleartext {SealKey OpenKey AesCtr}.
Arguments set_enc {SealKey OpenKey AesCtr}.
Arguments set_dec {SealKey OpenKey AesCtr}.
Arguments Keys_calc_encrypt_pad {SealKey OpenKey AesCtr}.
Arguments Keys_encrypt {SealKey OpenKey AesCtr}.
Arguments Keys_decrypt {SealKey OpenKey AesCtr}.
Arguments Keys_decrypt_first_block {SealKey OpenKey AesCtr}.
Arguments EncKey_from_cipher {SealKey AesCtr}.
Arguments DecKey_from_cipher {OpenKey AesCtr}.
Arguments Keys_new_from {SealKey OpenKey AesCtr} sha256 seal_key_new open_key_new aes_new {Secret}.

End Framing.

(** * Client authentication requests: src/cliauth.rs *)
Module CliAuthFlow.
Import CliAuth.

(** Modelled from the spec: the method names [SSH_AUTHMETHOD_PASSWORD] and
    [SSH_AUTHMETHOD_PUBLICKEY] (sshnames.rs is not in the sources). *)
Definition SSH_AUTHMETHOD_PASSWORD := "password"%string.
Definition SSH_AUTHMETHOD_PUBLICKEY := "publickey"%string.

(** [behaviour::BhResult]: [BhError] has the single variant [Fail]. *)
Inductive BhResult (A : Type) :=
| BhOk (a : A)
| BhFail.
Arguments BhOk {A} a.
Arguments BhFail {A}.

Section CliAuthFlowSec.

(** [sign::SignKey], its public key ([PubKey]) and a signature
    ([OwnedSig], carried in a packet as [Signature]). *)
Variable SignKey PubKey OwnedSig Signature : Type.
(** [SignKey::pubkey], [SignKey::is_agent], [SignKey::sign(msg, Some(ctx))]. *)
Variable pubkey : SignKey -> PubKey.
Variable is_agent : SignKey -> bool.
(** [AuthSigMsg] and [auth::AuthSigMsg::new(&packet, sess_id)] (auth.rs). *)
Variable AuthSigMsg SessId : Type.

(** [packets::MethodPubKey]. *)
Record MethodPubKey := mkMethodPubKey {
  sig_algo : string;
  mpk_pubkey : PubKey;
  sig : option Signature;
}.

(** [packets::AuthMethod]. *)
Inductive AuthMethod :=
| MPassword (change : bool) (password : string)
| MPubKey (m : MethodPubKey)
| MNone
| MUnknown (u : bytes).

(** The packets [CliAuth] sends: [ServiceRequest] and [UserauthRequest]. *)
Inductive Packet :=
| PServiceRequest (name : string)
| PUserauthRequest (username : string) (service : string) (method : AuthMethod).

Variable AuthSigMsg_new : Packet -> SessId -> AuthSigMsg.
Variable key_sign : SignKey -> AuthSigMsg -> ParseContext -> result OwnedSig.
(** [MethodPubKey::new(pubkey, sig)] (not in the sources). *)
Variable MethodPubKey_new : PubKey -> option OwnedSig -> result MethodPubKey.
(** [PubKey]'s [PartialEq]. *)
Variable pubkey_eqb : PubKey -> PubKey -> bool.

(** [TrafSend::send]. *)
Variable Traf : Type.
Variable send : Traf -> Packet -> result Traf.

(** The [CliBehaviour] callbacks, on the behaviour's state [Beh]:
    [username], [auth_password(&mut pwbuf)] (given the buffer, giving it back
    with the result), [next_authkey] and [agent_sign]. *)
Variable Beh : Type.
Variable username_cb : Beh -> Beh * BhResult string.
Variable auth_password_cb : Beh -> string -> Beh * string * BhResult bool.
Variable next_authkey_cb : Beh -> Beh * BhResult (option SignKey).
Variable agent_sign_cb : Beh -> SignKey -> AuthSigMsg -> Beh * BhResult OwnedSig.
(** The [Error] that [?] converts a [BhError] into (error.rs is not in the
    sources). *)
Variable bh_error_into : Error.

Definition set_username (c : CliAuth SignKey) (u : string) : CliAuth SignKey :=
  mkCliAuth SignKey (state SignKey c) u (try_password SignKey c) (try_pubkey SignKey c)
    (allow_rsa_sha2 SignKey c).

Definition set_try_password (c : CliAuth SignKey) (v : bool) : CliAuth SignKey :=
  mkCliAuth SignKey (state SignKey c) (username SignKey c) v (try_pubkey SignKey c)
    (allow_rsa_sha2 SignKey c).

Definition set_try_pubkey (c : CliAuth SignKey) (v : bool) : CliAuth SignKey :=
  mkCliAuth SignKey (state SignKey c) (username SignKey c) (try_password SignKey c) v
    (allow_rsa_sha2 SignKey c).

Definition set_cli_auth_type (ctx : ParseContext) (a : option AuthType) : ParseContext :=
  mkParseContext a (method_pubkey_force_sig_bool ctx) (seen_unknown ctx).

(** [Req::req_packet]: [parse_ctx.cli_auth_type] is set before the packet
    is built, also when [MethodPubKey::new] fails. *)
Definition req_packet (r : Req SignKey) (u : string) (ctx : ParseContext)
    (s : option OwnedSig) : ParseContext * result Packet :=
  match r with
  | CliAuth.PubKey _ key =>
      let ctx := set_cli_auth_type ctx (Some AuthPubKey) in
      match MethodPubKey_new (pubkey key) s with
      | Err e => (ctx, Err e)
      | Ok m => (ctx, Ok (PUserauthRequest u SSH_SERVICE_CONNECTION (MPubKey m)))
      end
  | Password _ pw =>
      let ctx := set_cli_auth_type ctx (Some AuthPassword) in
      (ctx, Ok (PUserauthRequest u SSH_SERVICE_CONNECTION (MPassword false pw)))
  end.

(** [CliAuth::progress]: the state becomes [MethodQuery] before the
    username is asked for. *)
Definition progress (c : CliAuth SignKey) (t : Traf) (b : Beh)
  : CliAuth SignKey * Traf * Beh * result unit :=
  match state SignKey c with
  | Unstarted _ =>
      let c := set_state SignKey c (MethodQuery SignKey) in
      let '(b, r) := username_cb b in
      match r with
      | BhFail => (c, t, b, Err bh_error_into)
      | BhOk u =>
          let c := set_username c u in
          match send t (PServiceRequest SSH_SERVICE_USERAUTH) with
          | Err e => (c, t, b, Err e)
          | Ok t =>
              match send t (PUserauthRequest (username SignKey c) SSH_SERVICE_CONNECTION MNone) with
              | Err e => (c, t, b, Err e)
              | Ok t => (c, t, b, Ok tt)
              end
          end
      end
  | _ => (c, t, b, Ok tt)
  end.

(** [CliAuth::make_password_req], with a fresh empty buffer. *)
Definition make_password_req (b : Beh) : Beh * result (option (Req SignKey)) :=
  let '(b, pw, r) := auth_password_cb b EmptyString in
  match r with
  | BhFail => (b, Err (BehaviourError "No password returned"))
  | BhOk true => (b, Ok (Some (Password SignKey pw)))
  | BhOk false => (b, Ok None)
  end.

(** [CliAuth::make_pubkey_req]: a failing [next_authkey] counts as [None]. *)
Definition make_pubkey_req (c : CliAuth SignKey) (b : Beh)
  : CliAuth SignKey * Beh * option (Req SignKey) :=
  let '(b, r) := next_authkey_cb b in
  let k := match r with BhOk k => k | BhFail => None end in
  match k with
  | Some key => (c, b, Some (CliAuth.PubKey SignKey key))
  | None => (set_try_pubkey c false, b, None)
  end.

(** The loop [while self.try_pubkey { ... }] of [CliAuth::failure]. Its body
    either breaks with a request or, through [make_pubkey_req], sets
    [try_pubkey] to false, so it runs at most once. *)
Definition pubkey_loop (c : CliAuth SignKey) (b : Beh) : CliAuth SignKey * Beh :=
  if try_pubkey SignKey c then
    let '(c, b, req) := make_pubkey_req c b in
    match req with
    | Some req => (set_state SignKey c (Request SignKey req), b)
    | None => (c, b)
    end
  else (c, b).

Definition is_idle (s : AuthState SignKey) : bool :=
  match s with Idle _ => true | _ => false end.

(** [CliAuth::failure] on [UserauthFailure { methods, .. }]. The condition
    [matches!(state, Idle) && try_password && methods.has_algo(..)?]
    evaluates [has_algo] only when the first two hold. *)
Definition failure (methods : Kex.NameList) (c : CliAuth SignKey) (ctx : ParseContext)
    (t : Traf) (b : Beh) : CliAuth SignKey * ParseContext * Traf * Beh * result unit :=
  let ctx := clear_auth_type ctx in
  let c := set_state SignKey c (Idle SignKey) in
  match Kex.has_algo methods SSH_AUTHMETHOD_PUBLICKEY with
  | Err e => (c, ctx, t, b, Err e)
  | Ok has_pk =>
  let '(c, b) := if has_pk then pubkey_loop c b else (c, b) in
  let cond := if is_idle (state SignKey c) && try_password SignKey c
              then Kex.has_algo methods SSH_AUTHMETHOD_PASSWORD else Ok false in
  match cond with
  | Err e => (c, ctx, t, b, Err e)
  | Ok cond =>
  let step :=
    if cond then
      let '(b, r) := make_password_req b in
      match r with
      | Err e => (c, b, Err e)
      | Ok (Some req) => (set_state SignKey c (Request SignKey req), b, Ok tt)
      | Ok None => (set_try_password c false, b, Ok tt)
      end
    else (c, b, Ok tt) in
  match step with
  | (c, b, Err e) => (c, ctx, t, b, Err e)
  | (c, b, Ok _) =>
      match state SignKey c with
      | Request _ last_req =>
          let '(ctx, r) := req_packet last_req (username SignKey c) ctx None in
          match r with
          | Err e => (c, ctx, t, b, Err e)
          | Ok p =>
              match send t p with
              | Err e => (c, ctx, t, b, Err e)
              | Ok t => (c, ctx, t, b, Ok tt)
              end
          end
      | _ => (c, ctx, t, b, Err (BehaviourError "No authentication methods left"))
      end
  end
  end
  end.

(** [ParseContext::default()] with [method_pubkey_force_sig_bool] set. *)
Definition force_sig_ctx : ParseContext := mkParseContext None true false.

(** [CliAuth::auth_sig_msg]: the message signed is the request with its
    signature removed. *)
Definition auth_sig_msg (key : SignKey) (sess_id : SessId) (p : Packet) (b : Beh)
  : Beh * result OwnedSig :=
  match p with
  | PUserauthRequest u service (MPubKey m) =>
      let sig_packet :=
        PUserauthRequest u service (MPubKey (mkMethodPubKey (sig_algo m) (mpk_pubkey m) None)) in
      let msg := AuthSigMsg_new sig_packet sess_id in
      let ctx := force_sig_ctx in
      if is_agent key then
        let '(b, r) := agent_sign_cb b key msg in
        match r with
        | BhOk s => (b, Ok s)
        | BhFail => (b, Err bh_error_into)
        end
      else (b, key_sign key msg ctx)
  | _ => (b, Err Bug)
  end.

(** [UserauthPkOk { algo, key }]. *)
Record UserauthPkOk := mkUserauthPkOk {
  pkok_algo : string;
  pkok_key : PubKey;
}.

(** [CliAuth::auth_pkok]. *)
Definition auth_pkok (pkok : UserauthPkOk) (sess_id : SessId) (c : CliAuth SignKey)
    (ctx : ParseContext) (t : Traf) (b : Beh)
  : CliAuth SignKey * ParseContext * Traf * Beh * result unit :=
  match state SignKey c with
  | Request _ (CliAuth.PubKey _ key as last_req) =>
      if negb (pubkey_eqb (pubkey key) (pkok_key pkok)) then
        (c, ctx, t, b, Err SSHProtoError)
      else
        let '(ctx, r) := req_packet last_req (username SignKey c) ctx None in
        match r with
        | Err e => (c, ctx, t, b, Err e)
        | Ok p =>
            let '(b, r) := auth_sig_msg key sess_id p b in
            match r with
            | Err e => (c, ctx, t, b, Err e)
            | Ok new_sig =>
                let '(ctx, r) := req_packet last_req (username SignKey c) ctx (Some new_sig) in
                match r with
                | Err e => (c, ctx, t, b, Err e)
                | Ok p =>
                    match send t p with
                    | Err e => (c, ctx, t, b, Err e)
                    | Ok t => (c, ctx, t, b, Ok tt)
                    end
                end
            end
        end
  | _ => (c, ctx, t, b, Err SSHProtoError)
  end.

End CliAuthFlowSec.

Arguments mkMethodPubKey {PubKey Signature}.
Arguments sig_algo {PubKey Signature}.
Arguments mpk_pubkey {PubKey Signature}.
Arguments sig {PubKey Signature}.
Arguments MPassword {PubKey Signature}.
Arguments MPubKey {PubKey Signature}.
Arguments MNone {PubKey Signature}.
Arguments MUnknown {PubKey Signature}.
Arguments PServiceRequest {PubKey Signature}.
Arguments PUserauthRequest {PubKey Signature}.
Arguments mkUserauthPkOk {PubKey}.
Arguments pkok_algo {PubKey}.
Arguments pkok_key {PubKey}.
Arguments set_username {SignKey}.
Arguments set_try_password {SignKey}.
Arguments set_try_pubkey {SignKey}.
Arguments is_idle {SignKey}.
Arguments req_packet {SignKey PubKey OwnedSig Signature} pubkey MethodPubKey_new.
Arguments progress {SignKey PubKey Signature Traf} send {Beh} username_cb bh_error_into.
Arguments make_password_req {SignKey Beh} auth_password_cb.
Arguments make_pubkey_req {SignKey Beh} next_authkey_cb.
Arguments pubkey_loop {SignKey Beh} next_authkey_cb.
Arguments failure {SignKey PubKey OwnedSig Signature} pubkey MethodPubKey_new {Traf} send
  {Beh} auth_password_cb next_authkey_cb.
Arguments auth_sig_msg {SignKey PubKey OwnedSig Signature} is_agent {AuthSigMsg SessId}
  AuthSigMsg_new key_sign {Beh} agent_sign_cb bh_error_into.
Arguments auth_pkok {SignKey PubKey OwnedSig Signature} pubkey is_agent {AuthSigMsg SessId}
  AuthSigMsg_new key_sign MethodPubKey_new pubkey_eqb {Traf} send {Beh} agent_sign_cb
  bh_error_into.

End CliAuthFlow.

(** * Properties *)

Module EncryptFacts.
Import Encrypt.

Lemma calc_pad_block (bs extra P : nat) :
  8 <= bs ->
  let len := 1 + P + extra in
  let padlen := bs - len mod bs in
  let padlen := if padlen <? SSH_MIN_PADLEN then padlen + bs else padlen in
  let padlen := if SSH_LENGTH_SIZE + 1 + P + padlen <? SSH_MIN_PACKET_SIZE
                then padlen + bs else padlen in
  4 <= padlen /\ (exists m, len + padlen = m * bs) /\ 16 <= 4 + 1 + P + padlen.
Proof.
  intros Hbs len.
  pose proof (Nat.mod_upper_bound len bs ltac:(lia)) as Hlt.
  pose proof (Nat.div_mod_eq len bs) as Hdm.
  set (q := len / bs) in *. set (r := len mod bs) in *.
  unfold SSH_MIN_PADLEN, SSH_LENGTH_SIZE, SSH_MIN_PACKET_SIZE.
  destruct (bs - r <? 4) eqn:E1;
    [apply Nat.ltb_lt in E1 | apply Nat.ltb_ge in E1];
  match goal with
  | |- context [if ?c then _ else _] => destruct c eqn:E2;
      [apply Nat.ltb_lt in E2 | apply Nat.ltb_ge in E2]
  end;
  (split; [lia | split; [| lia]]).
  - exists (q + 3). subst len. nia.
  - exists (q + 2). nia.
  - exists (q + 2). nia.
  - exists (q + 1). nia.
Qed.

(** C3: for every cipher and payload length the padding chosen by
    [calc_encrypt_pad] is at least 4 bytes, the encrypted length (with the
    4-byte length field for non-AEAD ciphers, without it for AEAD ciphers)
    is a multiple of the block size, the block size is at least 8, and the
    packet without MAC is at least 16 bytes long. *)
Theorem calc_encrypt_pad_ok (enc : EncKey) (payload_len : nat) :
  let pad := calc_encrypt_pad enc payload_len in
  SSH_MIN_BLOCK <= size_block enc /\
  SSH_MIN_PADLEN <= pad /\
  (exists m, encrypted_len enc payload_len = m * size_block enc) /\
  (if is_aead enc then encrypted_len enc payload_len = 1 + payload_len + pad
   else encrypted_len enc payload_len = SSH_LENGTH_SIZE + 1 + payload_len + pad) /\
  SSH_MIN_PACKET_SIZE <= SSH_LENGTH_SIZE + 1 + payload_len + pad.
Proof.
  intros pad. subst pad. unfold encrypted_len, calc_encrypt_pad.
  destruct enc; cbn [is_aead size_block];
  [pose proof (calc_pad_block SSH_MIN_BLOCK 0 payload_len ltac:(cbv; lia)) as H
  |pose proof (calc_pad_block AES256_BLOCK_SIZE 4 payload_len ltac:(cbv; lia)) as H
  |pose proof (calc_pad_block SSH_MIN_BLOCK 4 payload_len ltac:(cbv; lia)) as H];
  cbv zeta in H; destruct H as (H1 & (m & H2) & H3);
  (split; [cbv; lia|]); (split; [exact H1|]);
  (split; [exists m; rewrite <- H2; unfold SSH_LENGTH_SIZE; lia|]);
  (split; [unfold SSH_LENGTH_SIZE; lia | exact H3]).
Qed.

Section SeqFacts.
Variables (Keys Buf : Type).
Variable keys_new_cleartext : Keys.
Variable keys_encrypt : Keys -> nat -> Buf -> Z -> Keys * Buf * result nat.
Variable keys_decrypt : Keys -> Buf -> Z -> Keys * Buf * result nat.
Variable keys_decrypt_first_block : Keys -> Buf -> Z -> Keys * Buf * result Z.

Lemma wrap32_range (z : Z) : (0 <= wrap32 z < 2 ^ 32)%Z.
Proof. unfold wrap32. apply Z.mod_pos_bound. lia. Qed.

(** C4: both sequence numbers start at zero; a whole-packet [encrypt]
    adds one (modulo 2^32) to the send number and a whole-packet [decrypt]
    adds one to the receive number, each leaving the other number alone;
    [decrypt_first_block] and [rekey] change neither; the counters stay
    32-bit values and the successor of 2^32 - 1 is 0. *)
Theorem seq_numbers_ok :
  (seq_encrypt (new_cleartext keys_new_cleartext) = 0%Z /\
   seq_decrypt (new_cleartext keys_new_cleartext) = 0%Z) /\
  (forall (ks : KeyState Keys) k, seq_encrypt (rekey ks k) = seq_encrypt ks /\
                seq_decrypt (rekey ks k) = seq_decrypt ks) /\
  (forall (ks : KeyState Keys) n buf,
     let ks' := fst (fst (encrypt keys_encrypt ks n buf)) in
     seq_encrypt ks' = wrap32 (seq_encrypt ks + 1) /\
     seq_decrypt ks' = seq_decrypt ks /\
     (0 <= seq_encrypt ks' < 2 ^ 32)%Z) /\
  (forall (ks : KeyState Keys) buf,
     let ks' := fst (fst (decrypt keys_decrypt ks buf)) in
     seq_decrypt ks' = wrap32 (seq_decrypt ks + 1) /\
     seq_encrypt ks' = seq_encrypt ks /\
     (0 <= seq_decrypt ks' < 2 ^ 32)%Z) /\
  (forall (ks : KeyState Keys) buf,
     let ks' := fst (fst (decrypt_first_block keys_decrypt_first_block ks buf)) in
     seq_decrypt ks' = seq_decrypt ks /\ seq_encrypt ks' = seq_encrypt ks) /\
  wrap32 (2 ^ 32 - 1 + 1) = 0%Z.
Proof.
  split; [split; reflexivity|].
  split; [intros; split; reflexivity|].
  split.
  { intros ks n buf. unfold encrypt.
    destruct (keys_encrypt (keys ks) n buf (seq_encrypt ks)) as [[k' b'] e].
    cbn. split; [reflexivity | split; [reflexivity | apply wrap32_range]]. }
  split.
  { intros ks buf. unfold decrypt.
    destruct (keys_decrypt (keys ks) buf (seq_decrypt ks)) as [[k' b'] e].
    cbn. split; [reflexivity | split; [reflexivity | apply wrap32_range]]. }
  split.
  { intros ks buf. unfold decrypt_first_block.
    destruct (keys_decrypt_first_block (keys ks) buf (seq_decrypt ks)) as [[k' b'] e].
    cbn. split; reflexivity. }
  reflexivity.
Qed.

(** C10: the whole-packet [decrypt] and [encrypt] return the result of the
    underlying cipher operation unchanged, and when that result is an
    error the sequence number has still been advanced by one: the update
    is not rolled back. *)
Theorem seq_bumped_on_error (ks : KeyState Keys) (buf : Buf) (n : nat) :
  snd (decrypt keys_decrypt ks buf) = snd (keys_decrypt (keys ks) buf (seq_decrypt ks)) /\
  (forall e, snd (decrypt keys_decrypt ks buf) = Err e ->
     seq_decrypt (fst (fst (decrypt keys_decrypt ks buf))) = wrap32 (seq_decrypt ks + 1)) /\
  snd (encrypt keys_encrypt ks n buf) = snd (keys_encrypt (keys ks) n buf (seq_encrypt ks)) /\
  (forall e, snd (encrypt keys_encrypt ks n buf) = Err e ->
     seq_encrypt (fst (fst (encrypt keys_encrypt ks n buf))) = wrap32 (seq_encrypt ks + 1)).
Proof.
  unfold decrypt, encrypt.
  destruct (keys_decrypt (keys ks) buf (seq_decrypt ks)) as [[k' b'] e'].
  destruct (keys_encrypt (keys ks) n buf (seq_encrypt ks)) as [[k'' b''] e''].
  cbn. repeat split; reflexivity.
Qed.

End SeqFacts.

Lemma seq_bumped_on_error_witness :
  let kd := fun (k : unit) (b : unit) (_ : Z) => (k, b, @Err nat BadDecrypt) in
  let ke := fun (k : unit) (_ : nat) (b : unit) (_ : Z) => (k, b, @Err nat NoRoom) in
  let ks := mkKeyState tt (2 ^ 32 - 1)%Z 7%Z in
  snd (decrypt kd ks tt) = Err BadDecrypt /\
  seq_decrypt (fst (fst (decrypt kd ks tt))) = 8%Z /\
  snd (encrypt ke ks 10 tt) = Err NoRoom /\
  seq_encrypt (fst (fst (encrypt ke ks 10 tt))) = 0%Z.
Proof.
  intros kd ke ks.
  assert (Hd : snd (decrypt kd ks tt) = Err BadDecrypt) by reflexivity.
  assert (He : snd (encrypt ke ks 10 tt) = Err NoRoom) by reflexivity.
  destruct (seq_bumped_on_error unit unit ke kd ks tt 10) as [_ [Hd' [_ He']]].
  split; [exact Hd|]. split; [rewrite (Hd' _ Hd); reflexivity|].
  split; [exact He|]. rewrite (He' _ He); reflexivity.
Defined.

End EncryptFacts.

Module KexFacts.
Import Kex.

(** Taking apart a chain of [result] binds that ended in [Ok]. *)
Ltac inv_ok :=
  repeat match goal with
  | H : Err _ = Ok _ |- _ => discriminate H
  | H : Ok _ = Ok _ |- _ => injection H as H
  | H : ok_or ?o _ = Ok _ |- _ =>
      destruct o eqn:?; cbn [ok_or] in H; [injection H as H | discriminate H]
  | H : bind ?r _ = Ok _ |- _ => destruct r eqn:?; cbn [bind] in H; [|discriminate H]
  | H : (if ?c then _ else _) = Ok _ |- _ => destruct c eqn:?
  | H : match ?x with _ => _ end = Ok _ |- _ => destruct x eqn:?
  end.

Section KexFactsSec.
Variable Secret : Type.
Variable secret_pubkey : Secret -> bytes.
Variable agree : Secret -> bytes -> bytes.
Variable gen_secret : result Secret.
Variable random_cookie : result KexCookie.
Variable sha256 : bytes -> bytes.
Variable OUR_VERSION : bytes.
Variable PubKey Signature SignKey : Type.
Variable ser_pubkey : PubKey -> bytes.
Variable ser_kexinit : KexInit -> bytes.
Variable sig_verify : SigType -> PubKey -> bytes -> Signature -> result unit.
Variable valid_hostkey : PubKey -> result bool.
Variable hostkeys : result (list SignKey).
Variable can_sign : SignKey -> SigType -> bool.
Variable signkey_pubkey : SignKey -> PubKey.
Variable sign : SignKey -> bytes -> result Signature.
Variable Traf : Type.
Variable send : Traf -> Packet PubKey Signature -> result Traf.
Variable Keys : Type.
Variable Keys_derive : KexOutput -> bytes -> Algos Secret -> result Keys.
Variable traf_rekey : Traf -> Keys -> Traf.

Local Abbreviation algo_negotiation' :=
  (algo_negotiation Secret secret_pubkey gen_secret).
Local Abbreviation handle_kexinit' :=
  (handle_kexinit Secret secret_pubkey gen_secret random_cookie OUR_VERSION
     PubKey Signature ser_kexinit Traf send).
Local Abbreviation handle_kexdhinit' :=
  (handle_kexdhinit Secret agree sha256 PubKey Signature SignKey ser_pubkey
     hostkeys can_sign signkey_pubkey sign Traf send).
Local Abbreviation handle_kexdhreply' :=
  (handle_kexdhreply Secret agree sha256 PubKey Signature ser_pubkey
     sig_verify valid_hostkey Traf send).
Local Abbreviation handle_newkeys' :=
  (handle_newkeys Secret Traf Keys Keys_derive traf_rekey).

(** The algorithms a [KexDH] state holds after [handle_kexinit] are those
    [algo_negotiation] chose. *)
Lemma handle_kexinit_negotiated st p is_cl conf rv t algos kh t1 :
  handle_kexinit' st p is_cl conf rv t = (KexDH Secret algos kh, Ok t1) ->
  algo_negotiation' is_cl p conf = Ok algos.
Proof.
  unfold handle_kexinit. intros H.
  destruct st; cbn [send_kexinit] in H;
  repeat match goal with
  | H : (_, _) = (_, _) |- _ => injection H as ?; subst
  | H : context [match ?x with _ => _ end] |- _ =>
      match x with
      | algo_negotiation _ _ _ _ _ _ => destruct x eqn:?
      | _ => destruct x eqn:?
      end
  end; try discriminate; try congruence.
Qed.

Lemma negotiation_discard is_cl p conf algos m :
  algo_negotiation' is_cl p conf = Ok algos ->
  first_match (kex p) is_cl (kexs conf) = Ok (Some m) ->
  first_follows p = true ->
  goodguess_kex p conf m = false ->
  discard_next Secret algos = true /\ Kex.is_client Secret algos = is_cl.
Proof.
  intros H Hm Hff Hg. unfold algo_negotiation in H.
  rewrite Hm in H. cbn [bind ok_or] in H.
  unfold has_algo in H. cbn [bind] in H.
  inv_ok; subst algos; cbn; (split; [|reflexivity]);
    rewrite Hff; unfold goodguess_kex in Hg; rewrite Hg; reflexivity.
Qed.

Lemma kexdhinit_discard algos kh q_c t :
  Kex.is_client Secret algos = false -> discard_next Secret algos = true ->
  handle_kexdhinit' (KexDH Secret algos kh) q_c t
  = (KexDH Secret (set_discard_next Secret algos false) kh, Ok t).
Proof. intros Hc Hd. unfold handle_kexdhinit. rewrite Hc, Hd. reflexivity. Qed.

Lemma kexdhinit_not_discarded algos kh q_c t :
  Kex.is_client Secret algos = false -> discard_next Secret algos = false ->
  match fst (handle_kexdhinit' (KexDH Secret algos kh) q_c t) with
  | KexDH _ _ _ => False
  | _ => True
  end.
Proof.
  intros Hc Hd. unfold handle_kexdhinit. rewrite Hc, Hd.
  destruct (SharedSecret_handle_kexdhinit _ _ _ _ _ _ _ _ _ _ _ _ _ _ _ _)
    as [[[a o] t'] | e]; exact I.
Qed.

Lemma kexdhreply_discard algos kh k_s q_s sig t :
  Kex.is_client Secret algos = true -> discard_next Secret algos = true ->
  handle_kexdhreply' (KexDH Secret algos kh) k_s q_s sig t
  = (KexDH Secret (set_discard_next Secret algos false) kh, Ok t).
Proof. intros Hc Hd. unfold handle_kexdhreply. rewrite Hc, Hd. reflexivity. Qed.

Lemma kexdhreply_not_discarded algos kh k_s q_s sig t :
  Kex.is_client Secret algos = true -> discard_next Secret algos = false ->
  match fst (handle_kexdhreply' (KexDH Secret algos kh) k_s q_s sig t) with
  | KexDH _ _ _ => False
  | _ => True
  end.
Proof.
  intros Hc Hd. unfold handle_kexdhreply. rewrite Hc, Hd. cbn [negb].
  destruct (SharedSecret_handle_kexdhreply _ _ _ _ _ _ _ _ _ _ _ _ _)
    as [[a o] | e]; exact I.
Qed.

(** C2: when the peer's KexInit set first-follows and its kex guess was
    wrong, the exchange state after [handle_kexinit] has the discard flag
    set; the next KexDHInit (server) or KexDHReply (client) is then dropped:
    nothing is sent, the state keeps its algorithms and hash and only the
    flag is cleared; the packet after that is processed and leaves the
    [KexDH] state. *)
Theorem kex_wrong_guess_discards_one st p is_cl conf rv t algos kh t1 m :
  handle_kexinit' st p is_cl conf rv t = (KexDH Secret algos kh, Ok t1) ->
  first_match (kex p) is_cl (kexs conf) = Ok (Some m) ->
  first_follows p = true ->
  goodguess_kex p conf m = false ->
  let algos' := set_discard_next Secret algos false in
  discard_next Secret algos = true /\ discard_next Secret algos' = false /\
  (is_cl = false ->
     (forall q_c t2,
        handle_kexdhinit' (KexDH Secret algos kh) q_c t2 = (KexDH Secret algos' kh, Ok t2)) /\
     (forall q_c t3,
        match fst (handle_kexdhinit' (KexDH Secret algos' kh) q_c t3) with
        | KexDH _ _ _ => False
        | _ => True
        end)) /\
  (is_cl = true ->
     (forall k_s q_s sig t2,
        handle_kexdhreply' (KexDH Secret algos kh) k_s q_s sig t2
        = (KexDH Secret algos' kh, Ok t2)) /\
     (forall k_s q_s sig t3,
        match fst (handle_kexdhreply' (KexDH Secret algos' kh) k_s q_s sig t3) with
        | KexDH _ _ _ => False
        | _ => True
        end)).
Proof.
  intros Hk Hm Hff Hg algos'.
  pose proof (handle_kexinit_negotiated _ _ _ _ _ _ _ _ _ Hk) as Hn.
  destruct (negotiation_discard _ _ _ _ _ Hn Hm Hff Hg) as [Hd Hc].
  split; [exact Hd|]. split; [reflexivity|].
  split.
  - intros ->. split.
    + intros. apply kexdhinit_discard; assumption.
    + intros. apply kexdhinit_not_discarded; [exact Hc | reflexivity].
  - intros ->. split.
    + intros. apply kexdhreply_discard; assumption.
    + intros. apply kexdhreply_not_discarded; [exact Hc | reflexivity].
Qed.

(** C5: the session id is written only when a [NewKeys] state is handled
    while no session id is set, and then it is the exchange hash [h] of
    that exchange; once set, no later call, in any state and whatever its
    outcome, replaces it. *)
Theorem sess_id_set_once st sess_id t :
  let sid' := snd (fst (handle_newkeys Secret Traf Keys Keys_derive traf_rekey st sess_id t)) in
  (forall s, sess_id = Some s -> sid' = Some s) /\
  (sess_id = None ->
     match st with
     | NewKeys _ output _ => sid' = Some (h output)
     | _ => sid' = None
     end).
Proof.
  intros sid'. subst sid'. unfold handle_newkeys.
  split.
  - intros s ->. destruct st; try reflexivity.
    destruct (Keys_derive _ _ _); reflexivity.
  - intros ->. destruct st; try reflexivity.
    destruct (Keys_derive _ _ _); reflexivity.
Qed.

Ltac app_norm := cbn [app]; repeat rewrite <- app_assoc; cbn [app].

(** C7: the exchange hash of a completed key exchange is SHA-256 of the
    length-prefixed client version line, server version line, client
    KexInit, server KexInit, host key blob, client point and server point,
    followed by the shared secret as an mpint; on the client the host key
    is the one received, on the server the one whose key is sent in the
    KexDHReply. *)
Theorem exchange_hash_order algos conf our_cookie rv remote kh s ourpub :
  KexHash_new Secret OUR_VERSION ser_kexinit algos conf our_cookie (Some rv) remote = Ok kh ->
  kex_algo Secret algos = KexCurve25519 Secret (Some s) ourpub ->
  let own := ser_kexinit (make_kexinit our_cookie conf) in
  let theirs := ser_kexinit remote in
  (Kex.is_client Secret algos = true ->
   forall k_s q_s sig algos' out,
   SharedSecret_handle_kexdhreply Secret agree sha256 PubKey Signature ser_pubkey
     sig_verify valid_hostkey algos kh k_s q_s sig = Ok (algos', out) ->
   h out = sha256 (length_prefixed OUR_VERSION ++ length_prefixed rv ++
                   length_prefixed own ++ length_prefixed theirs ++
                   length_prefixed (ser_pubkey k_s) ++
                   length_prefixed ourpub ++ length_prefixed q_s ++
                   mpint (agree s q_s))) /\
  (Kex.is_client Secret algos = false ->
   forall q_c t algos' out t',
   SharedSecret_handle_kexdhinit Secret agree sha256 PubKey Signature SignKey
     ser_pubkey hostkeys can_sign signkey_pubkey sign Traf send algos kh q_c t
   = Ok (algos', out, t') ->
   exists hostkey sig,
     send t (PKexDHReply PubKey Signature (signkey_pubkey hostkey) ourpub sig) = Ok t' /\
     h out = sha256 (length_prefixed rv ++ length_prefixed OUR_VERSION ++
                     length_prefixed theirs ++ length_prefixed own ++
                     length_prefixed (ser_pubkey (signkey_pubkey hostkey)) ++
                     length_prefixed q_c ++ length_prefixed ourpub ++
                     mpint (agree s q_c))).
Proof.
  intros Hkh Hk own theirs. unfold KexHash_new in Hkh. cbn [bind ok_or] in Hkh.
  split.
  - intros Hc k_s q_s sig algos' out H.
    rewrite Hc in Hkh. injection Hkh as <-.
    unfold SharedSecret_handle_kexdhreply, prefinish, KexCurve25519_secret in H.
    rewrite Hk in H. cbn [bind ok_or SharedSecret_pubkey] in H.
    destruct (Nat.eqb _ 32); [|discriminate H]. cbn [bind] in H.
    destruct (sig_verify _ _ _ _); [|discriminate H]. cbn [bind] in H.
    destruct (valid_hostkey k_s) as [[|]|]; try discriminate H.
    injection H as <- <-. cbn [KexOutput_new h].
    unfold finish, hash_mpint, hash_ser_length, hash_slice, length_prefixed.
    f_equal. app_norm. reflexivity.
  - intros Hc q_c t algos' out t' H.
    rewrite Hc in Hkh. injection Hkh as <-.
    unfold SharedSecret_handle_kexdhinit, prefinish, KexCurve25519_secret in H.
    rewrite Hk in H. cbn [bind ok_or SharedSecret_pubkey] in H.
    destruct hostkeys as [keys|]; [|discriminate H]. cbn [bind] in H.
    destruct (find _ keys) as [hk|]; [|discriminate H]. cbn [bind ok_or] in H.
    destruct (Nat.eqb _ 32); [|discriminate H]. cbn [bind] in H.
    unfold send_kexdhreply in H. cbn [bind set_kex_algo kex_algo SharedSecret_pubkey] in H.
    destruct (sign hk _) as [sig|]; [|discriminate H]. cbn [bind] in H.
    destruct (send t _) as [t''|] eqn:Hs; [|discriminate H]. cbn [bind] in H.
    injection H as <- <- <-. exists hk, sig. split; [exact Hs|].
    cbn [KexOutput_new h].
    unfold finish, hash_mpint, hash_ser_length, hash_slice, length_prefixed.
    f_equal. app_norm. reflexivity.
Qed.

Lemma negotiation_picks is_cl p conf a :
  algo_negotiation' is_cl p conf = Ok a ->
  (exists k, first_match (kex p) is_cl (kexs conf) = Ok (Some k) /\
             str_mem k marker_only_kexs = false) /\
  (exists hs, first_match (hostsig p) is_cl (hostsig_conf conf) = Ok (Some hs) /\
              SigType_from_name hs = Ok (hostsig_algo Secret a)) /\
  (exists n, first_match (if is_cl then cipher_c2s p else cipher_s2c p) is_cl
               (ciphers conf) = Ok (Some n) /\
             Cipher_from_name n = Ok (cipher_enc Secret a)) /\
  (exists n, first_match (if is_cl then cipher_s2c p else cipher_c2s p) is_cl
               (ciphers conf) = Ok (Some n) /\
             Cipher_from_name n = Ok (cipher_dec Secret a)) /\
  match Cipher_integ (cipher_enc Secret a) with
  | Some i => integ_enc Secret a = i
  | None => exists n, first_match (if is_cl then mac_c2s p else mac_s2c p) is_cl
                        (macs conf) = Ok (Some n) /\
                      Integ_from_name n = Ok (integ_enc Secret a)
  end /\
  match Cipher_integ (cipher_dec Secret a) with
  | Some i => integ_dec Secret a = i
  | None => exists n, first_match (if is_cl then mac_s2c p else mac_c2s p) is_cl
                        (macs conf) = Ok (Some n) /\
                      Integ_from_name n = Ok (integ_dec Secret a)
  end /\
  (exists n, first_match (if is_cl then comp_c2s p else comp_s2c p) is_cl
               (comps conf) = Ok (Some n)) /\
  (exists n, first_match (if is_cl then comp_s2c p else comp_c2s p) is_cl
               (comps conf) = Ok (Some n)).
Proof.
  intros H. unfold algo_negotiation in H. unfold has_algo in H. cbn [bind] in H.
  inv_ok; subst; cbn [hostsig_algo cipher_enc cipher_dec integ_enc integ_dec];
  repeat match goal with
  | H : Cipher_integ ?c = _ |- context [Cipher_integ ?c] => rewrite H
  end;
  repeat (split || (eexists; split; [reflexivity|])); eauto.
Qed.

Lemma str_mem_In x l : str_mem x l = true <-> In x l.
Proof.
  unfold str_mem. rewrite existsb_exists. split.
  - intros (y & Hy & Heq). apply String.eqb_eq in Heq. subst. exact Hy.
  - intros Hx. exists x. split; [exact Hx | apply String.eqb_refl].
Qed.

Lemma find_in_mem c o x : find_in c o = Some x -> str_mem x o = true /\ In x c.
Proof.
  induction c as [|y c IH]; cbn [find_in]; [discriminate|].
  destruct (str_mem y o) eqn:E.
  - intros H. injection H as <-. split; [exact E | left; reflexivity].
  - intros H. destruct (IH H) as [H1 H2]. split; [exact H1 | right; exact H2].
Qed.

(** A method [first_match] picks is one of our own names. *)
Lemma first_match_ours theirs b ours x :
  first_match theirs b ours = Ok (Some x) -> In x ours.
Proof.
  unfold first_match. intros H. injection H as H. destruct b.
  - exact (proj2 (find_in_mem _ _ _ H)).
  - exact (proj1 (str_mem_In _ _) (proj1 (find_in_mem _ _ _ H))).
Qed.

Lemma kex_name_ok b k s0 :
  gen_secret = Ok s0 ->
  In k (kexs (AlgoConfig_new b)) -> str_mem k marker_only_kexs = false ->
  exists ss, SharedSecret_from_name Secret secret_pubkey gen_secret k = Ok ss.
Proof.
  intros Hg Hk Hm. unfold SharedSecret_from_name. rewrite Hg.
  destruct b; cbn in Hk;
  repeat match goal with
  | H : _ \/ _ |- _ => destruct H as [<- | H]
  | H : False |- _ => destruct H
  end; try discriminate Hm; eexists; reflexivity.
Qed.

Lemma conf_names_ok b :
  (forall n, In n (hostsig_conf (AlgoConfig_new b)) -> exists t, SigType_from_name n = Ok t) /\
  (forall n, In n (ciphers (AlgoConfig_new b)) -> exists c, Cipher_from_name n = Ok c) /\
  (forall n, In n (macs (AlgoConfig_new b)) -> exists i, Integ_from_name n = Ok i).
Proof.
  repeat split; intros n Hn; cbn in Hn;
  repeat match goal with
  | H : _ \/ _ |- _ => destruct H as [<- | H]
  | H : False |- _ => destruct H
  end; eexists; reflexivity.
Qed.

(** With our own algorithm configuration, every way negotiation can fail
    is an algorithm mismatch. *)
Lemma negotiation_errors is_cl p s0 e :
  gen_secret = Ok s0 ->
  algo_negotiation' is_cl p (AlgoConfig_new is_cl) = Err e ->
  exists what, e = AlgoNoMatch what.
Proof.
  intros Hg H. revert Hg. destruct (conf_names_ok is_cl) as (Hs & Hc & Hi).
  unfold algo_negotiation, has_algo in H. cbn [bind] in H.
  repeat match goal with
  | H : Ok _ = Err _ |- _ => discriminate H
  | H : Err _ = Ok _ |- _ => discriminate H
  | H : Err _ = Err _ |- _ => injection H as <-
  | H : Ok _ = Ok _ |- _ => injection H as H; subst
  | H : ok_or ?o _ = _ |- _ => destruct o eqn:?; cbn [ok_or] in H
  | H : bind ?r _ = Err _ |- _ => destruct r eqn:?; cbn [bind] in H
  | H : (if ?c then _ else _) = Err _ |- _ => destruct c eqn:?
  | H : match ?x with _ => _ end = Err _ |- _ => destruct x eqn:?
  end;
  intros Hg; try (eexists; reflexivity);
  repeat match goal with
  | H : first_match _ _ _ = Err _ |- _ => discriminate H
  | H : first_match _ _ _ = Ok (Some _) |- _ => apply first_match_ours in H
  end;
  match goal with
  | H : SharedSecret_from_name _ _ _ ?k = Err _,
    Hk : In ?k _, Hm : str_mem ?k _ = false |- _ =>
      destruct (kex_name_ok _ _ _ Hg Hk Hm) as [? E]; rewrite E in H; discriminate H
  | H : SigType_from_name ?k = Err _, Hk : In ?k _ |- _ =>
      destruct (Hs _ Hk) as [? E]; rewrite E in H; discriminate H
  | H : Cipher_from_name ?k = Err _, Hk : In ?k _ |- _ =>
      destruct (Hc _ Hk) as [? E]; rewrite E in H; discriminate H
  | H : Integ_from_name ?k = Err _, Hk : In ?k _ |- _ =>
      destruct (Hi _ Hk) as [? E]; rewrite E in H; discriminate H
  end.
Qed.

Lemma kex_nomatch is_cl p conf :
  (first_match (kex p) is_cl (kexs conf) = Ok None \/
   exists k, first_match (kex p) is_cl (kexs conf) = Ok (Some k) /\
             str_mem k marker_only_kexs = true) ->
  algo_negotiation' is_cl p conf = Err (AlgoNoMatch "kex").
Proof.
  intros [H | (k & H & Hm)]; unfold algo_negotiation, has_algo; cbn [bind];
    rewrite H; cbn [bind ok_or]; [reflexivity|]. rewrite Hm. reflexivity.
Qed.

(** The mac list of a direction whose negotiated cipher has its own
    integrity is never read: replacing it does not change the outcome. *)
Lemma aead_tx_macs_ignored (is_cl : bool) (p : KexInit) (conf : AlgoConfig)
    (n : string) (c : Cipher) (i : Integ) (m : NameList) :
  first_match (if is_cl then cipher_c2s p else cipher_s2c p) is_cl (ciphers conf) = Ok (Some n) ->
  Cipher_from_name n = Ok c -> Cipher_integ c = Some i ->
  algo_negotiation' is_cl
    (if is_cl then KexInit_with_macs p m (mac_s2c p) else KexInit_with_macs p (mac_c2s p) m)
    conf = algo_negotiation' is_cl p conf.
Proof.
  intros H1 H2 H3.
  destruct is_cl; unfold algo_negotiation, KexInit_with_macs;
  cbn [kex hostsig cipher_c2s cipher_s2c mac_c2s mac_s2c comp_c2s comp_s2c first_follows];
  rewrite H1; cbn [bind ok_or]; rewrite H2; cbn [bind]; rewrite H3; reflexivity.
Qed.

Lemma aead_rx_macs_ignored (is_cl : bool) (p : KexInit) (conf : AlgoConfig)
    (n : string) (c : Cipher) (i : Integ) (m : NameList) :
  first_match (if is_cl then cipher_s2c p else cipher_c2s p) is_cl (ciphers conf) = Ok (Some n) ->
  Cipher_from_name n = Ok c -> Cipher_integ c = Some i ->
  algo_negotiation' is_cl
    (if is_cl then KexInit_with_macs p (mac_c2s p) m else KexInit_with_macs p m (mac_s2c p))
    conf = algo_negotiation' is_cl p conf.
Proof.
  intros H1 H2 H3.
  destruct is_cl; unfold algo_negotiation, KexInit_with_macs;
  cbn [kex hostsig cipher_c2s cipher_s2c mac_c2s mac_s2c comp_c2s comp_s2c first_follows];
  rewrite H1; cbn [bind ok_or]; rewrite H2; cbn [bind]; rewrite H3; reflexivity.
Qed.

(** With an AEAD cipher negotiated both ways, negotiation never fails with
    a mac mismatch. *)
Lemma aead_no_mac_failure (s0 : Secret) (Hg : gen_secret = Ok s0)
    (is_cl : bool) (p : KexInit) (conf : AlgoConfig) (n n' : string)
    (c c' : Cipher) (i i' : Integ) e :
  first_match (if is_cl then cipher_c2s p else cipher_s2c p) is_cl (ciphers conf) = Ok (Some n) ->
  Cipher_from_name n = Ok c -> Cipher_integ c = Some i ->
  first_match (if is_cl then cipher_s2c p else cipher_c2s p) is_cl (ciphers conf) = Ok (Some n') ->
  Cipher_from_name n' = Ok c' -> Cipher_integ c' = Some i' ->
  algo_negotiation' is_cl p conf = Err e -> e <> AlgoNoMatch "mac".
Proof.
  intros H1 H2 H3 H4 H5 H6 H.
  destruct is_cl; unfold algo_negotiation, has_algo in H; cbn [bind] in H;
  rewrite H1 in H; cbn [bind ok_or] in H; rewrite H2 in H; cbn [bind] in H;
  rewrite H4 in H; cbn [bind ok_or] in H; rewrite H5 in H; cbn [bind] in H;
  rewrite H3, H6 in H; cbn [bind] in H;
  repeat match goal with
  | H : Ok _ = Err _ |- _ => discriminate H
  | H : Err _ = Err _ |- _ => injection H as <-
  | H : ok_or ?o _ = _ |- _ => destruct o eqn:?; cbn [ok_or] in H
  | H : bind ?r _ = Err _ |- _ => destruct r eqn:?; cbn [bind] in H
  | H : (if ?c then _ else _) = Err _ |- _ => destruct c eqn:?
  | H : match ?x with _ => _ end = Err _ |- _ => destruct x eqn:?
  end; try discriminate;
  match goal with
  | H : SigType_from_name _ = Err ?e0 |- _ => revert H; unfold SigType_from_name
  | H : SharedSecret_from_name _ _ _ _ = Err ?e0 |- _ =>
      revert H; unfold SharedSecret_from_name; rewrite Hg
  end;
  repeat match goal with |- context [if ?b then _ else _] => destruct b end;
  cbn [bind]; intros H; first [discriminate H | injection H as <-; discriminate].
Qed.

(** C6, as the code has it: a successful negotiation took, for kex, host
    key, cipher (each direction) and compression (each direction), the
    first entry of the client's list that the server also lists
    ([first_match]), and the kex entry is not a marker name; a mac is
    negotiated the same way only for a direction whose cipher has no
    integrity of its own, while an AEAD cipher (ChaCha20-Poly1305) brings
    its own and the mac lists are not looked at. When no kex entry is
    common, or the winning one is a marker, negotiation fails with an
    algorithm mismatch for kex; with our own configuration every failure
    is an algorithm mismatch. For a direction whose negotiated cipher is
    AEAD, replacing that direction's mac list (for instance by one with no
    entry in common with ours) leaves the outcome unchanged, and with AEAD
    ciphers both ways no failure is a mac mismatch. *)
Theorem algo_negotiation_choices (s0 : Secret) (Hg : gen_secret = Ok s0) :
  (forall is_cl p conf a,
     algo_negotiation' is_cl p conf = Ok a ->
     (exists k, first_match (kex p) is_cl (kexs conf) = Ok (Some k) /\
                str_mem k marker_only_kexs = false) /\
     (exists hs, first_match (hostsig p) is_cl (hostsig_conf conf) = Ok (Some hs) /\
                 SigType_from_name hs = Ok (hostsig_algo Secret a)) /\
     (exists n, first_match (if is_cl then cipher_c2s p else cipher_s2c p) is_cl
                  (ciphers conf) = Ok (Some n) /\
                Cipher_from_name n = Ok (cipher_enc Secret a)) /\
     (exists n, first_match (if is_cl then cipher_s2c p else cipher_c2s p) is_cl
                  (ciphers conf) = Ok (Some n) /\
                Cipher_from_name n = Ok (cipher_dec Secret a)) /\
     match Cipher_integ (cipher_enc Secret a) with
     | Some i => integ_enc Secret a = i
     | None => exists n, first_match (if is_cl then mac_c2s p else mac_s2c p) is_cl
                           (macs conf) = Ok (Some n) /\
                         Integ_from_name n = Ok (integ_enc Secret a)
     end /\
     match Cipher_integ (cipher_dec Secret a) with
     | Some i => integ_dec Secret a = i
     | None => exists n, first_match (if is_cl then mac_s2c p else mac_c2s p) is_cl
                           (macs conf) = Ok (Some n) /\
                         Integ_from_name n = Ok (integ_dec Secret a)
     end /\
     (exists n, first_match (if is_cl then comp_c2s p else comp_s2c p) is_cl
                  (comps conf) = Ok (Some n)) /\
     (exists n, first_match (if is_cl then comp_s2c p else comp_c2s p) is_cl
                  (comps conf) = Ok (Some n))) /\
  (forall is_cl p conf,
     (first_match (kex p) is_cl (kexs conf) = Ok None \/
      exists k, first_match (kex p) is_cl (kexs conf) = Ok (Some k) /\
                str_mem k marker_only_kexs = true) ->
     algo_negotiation' is_cl p conf = Err (AlgoNoMatch "kex")) /\
  (forall is_cl p e,
     algo_negotiation' is_cl p (AlgoConfig_new is_cl) = Err e ->
     exists what, e = AlgoNoMatch what) /\
  (forall (is_cl : bool) (p : KexInit) (conf : AlgoConfig) (n : string) (c : Cipher)
          (i : Integ) (m : NameList),
     first_match (if is_cl then cipher_c2s p else cipher_s2c p) is_cl (ciphers conf) = Ok (Some n) ->
     Cipher_from_name n = Ok c -> Cipher_integ c = Some i ->
     algo_negotiation' is_cl
       (if is_cl then KexInit_with_macs p m (mac_s2c p) else KexInit_with_macs p (mac_c2s p) m)
       conf = algo_negotiation' is_cl p conf) /\
  (forall (is_cl : bool) (p : KexInit) (conf : AlgoConfig) (n : string) (c : Cipher)
          (i : Integ) (m : NameList),
     first_match (if is_cl then cipher_s2c p else cipher_c2s p) is_cl (ciphers conf) = Ok (Some n) ->
     Cipher_from_name n = Ok c -> Cipher_integ c = Some i ->
     algo_negotiation' is_cl
       (if is_cl then KexInit_with_macs p (mac_c2s p) m else KexInit_with_macs p m (mac_s2c p))
       conf = algo_negotiation' is_cl p conf) /\
  (forall (is_cl : bool) (p : KexInit) (conf : AlgoConfig) (n n' : string)
          (c c' : Cipher) (i i' : Integ) e,
     first_match (if is_cl then cipher_c2s p else cipher_s2c p) is_cl (ciphers conf) = Ok (Some n) ->
     Cipher_from_name n = Ok c -> Cipher_integ c = Some i ->
     first_match (if is_cl then cipher_s2c p else cipher_c2s p) is_cl (ciphers conf) = Ok (Some n') ->
     Cipher_from_name n' = Ok c' -> Cipher_integ c' = Some i' ->
     algo_negotiation' is_cl p conf = Err e -> e <> AlgoNoMatch "mac").
Proof.
  split; [|split; [|split; [|split; [|split]]]].
  - intros is_cl p conf a H. exact (negotiation_picks _ _ _ _ H).
  - intros is_cl p conf H. exact (kex_nomatch _ _ _ H).
  - intros is_cl p e H. exact (negotiation_errors _ _ _ _ Hg H).
  - intros is_cl p conf n c i m. exact (aead_tx_macs_ignored is_cl p conf n c i m).
  - intros is_cl p conf n c i m. exact (aead_rx_macs_ignored is_cl p conf n c i m).
  - intros is_cl p conf n n' c c' i i' e.
    exact (aead_no_mac_failure s0 Hg is_cl p conf n n' c c' i i' e).
Qed.

End KexFactsSec.

Lemma sess_id_set_once_witness :
  let rd := fun (_ : KexOutput) (_ : bytes) (_ : Algos unit) => @Ok unit tt in
  let rk := fun (t : unit) (_ : unit) => t in
  let a := mkAlgos unit (KexCurve25519 unit None []) Ed25519 CipherChaPoly
             CipherChaPoly IntegChaPoly IntegChaPoly false true false in
  let out1 := mkKexOutput [Byte.x02] [] in
  let out2 := mkKexOutput [Byte.x03] [] in
  let sid1 := snd (fst (handle_newkeys unit unit unit rd rk (NewKeys unit out1 a) None tt)) in
  sid1 = Some [Byte.x02] /\
  snd (fst (handle_newkeys unit unit unit rd rk (NewKeys unit out2 a) sid1 tt))
    = Some [Byte.x02].
Proof.
  intros rd rk a out1 out2 sid1.
  destruct (sess_id_set_once unit unit unit rd rk (NewKeys unit out1 a) None tt) as [_ H1].
  specialize (H1 eq_refl).
  change (sid1 = Some (h out1)) in H1.
  split; [exact H1|].
  rewrite H1.
  destruct (sess_id_set_once unit unit unit rd rk (NewKeys unit out2 a) (Some (h out1)) tt)
    as [H2 _].
  exact (H2 _ eq_refl).
Defined.

Lemma kex_wrong_guess_discards_one_witness :
  let p := mkKexInit [] [SSH_NAME_CURVE25519_LIBSSH; SSH_NAME_CURVE25519]
             [SSH_NAME_ED25519] [SSH_NAME_CHAPOLY] [SSH_NAME_CHAPOLY] [] []
             [SSH_NAME_NONE] [SSH_NAME_NONE] [] [] true 0 in
  let conf := AlgoConfig_new false in
  exists algos kh,
    handle_kexinit unit (fun _ => []) (Ok tt) (Ok []) [] unit unit
      (fun _ => []) unit (fun t _ => Ok t) (Idle unit) p false conf (Some []) tt
    = (KexDH unit algos kh, Ok tt) /\
    first_match (kex p) false (kexs conf) = Ok (Some SSH_NAME_CURVE25519_LIBSSH) /\
    first_follows p = true /\
    goodguess_kex p conf SSH_NAME_CURVE25519_LIBSSH = false /\
    discard_next unit algos = true /\
    handle_kexdhinit unit (fun _ _ => []) (fun x => x) unit unit unit
      (fun _ => []) (Ok [tt]) (fun _ _ => true) (fun k => k) (fun _ _ => Ok tt)
      unit (fun t _ => Ok t) (KexDH unit algos kh) [] tt
    = (KexDH unit (set_discard_next unit algos false) kh, Ok tt).
Proof.
  intros p conf. do 2 eexists.
  match goal with |- ?A /\ _ => assert (H1 : A) by reflexivity end.
  assert (H2 : first_match (kex p) false (kexs conf) = Ok (Some SSH_NAME_CURVE25519_LIBSSH))
    by reflexivity.
  assert (H3 : first_follows p = true) by reflexivity.
  assert (H4 : goodguess_kex p conf SSH_NAME_CURVE25519_LIBSSH = false) by reflexivity.
  pose proof (kex_wrong_guess_discards_one unit (fun _ => []) (fun _ _ => [])
    (Ok tt) (Ok []) (fun x => x) [] unit unit unit (fun _ => []) (fun _ => [])
    (fun _ _ _ _ => Ok tt) (fun _ => Ok true) (Ok [tt]) (fun _ _ => true)
    (fun k => k) (fun _ _ => Ok tt) unit (fun t _ => Ok t)
    (Idle unit) p false conf (Some []) tt _ _ tt _ H1 H2 H3 H4) as (Hd & _ & Hs & _).
  split; [exact H1|]. split; [exact H2|]. split; [exact H3|]. split; [exact H4|].
  split; [exact Hd|]. exact (proj1 (Hs eq_refl) [] tt).
Defined.

Lemma exchange_hash_order_witness :
  let a := mkAlgos unit (KexCurve25519 unit (Some tt) []) Ed25519 CipherChaPoly
             CipherChaPoly IntegChaPoly IntegChaPoly false true false in
  let q_s := repeat Byte.x00 32 in
  exists kh algos' out,
    KexHash_new unit [] (fun _ => []) a (AlgoConfig_new true) [] (Some [])
      (make_kexinit [] (AlgoConfig_new false)) = Ok kh /\
    kex_algo unit a = KexCurve25519 unit (Some tt) [] /\
    SharedSecret_handle_kexdhreply unit (fun _ _ => []) (fun x => x) unit unit
      (fun _ => []) (fun _ _ _ _ => Ok tt) (fun _ => Ok true) a kh tt q_s tt
    = Ok (algos', out) /\
    h out = length_prefixed [] ++ length_prefixed [] ++ length_prefixed [] ++
            length_prefixed [] ++ length_prefixed [] ++ length_prefixed [] ++
            length_prefixed q_s ++ mpint [].
Proof.
  intros a q_s. exists (repeat Byte.x00 16). do 2 eexists.
  assert (H1 : KexHash_new unit [] (fun _ => []) a (AlgoConfig_new true) [] (Some [])
                 (make_kexinit [] (AlgoConfig_new false)) = Ok (repeat Byte.x00 16))
    by reflexivity.
  assert (H2 : kex_algo unit a = KexCurve25519 unit (Some tt) []) by reflexivity.
  split; [exact H1|]. split; [exact H2|].
  match goal with |- ?A /\ _ => assert (H3 : A) by reflexivity end.
  split; [exact H3|].
  exact (proj1 (exchange_hash_order unit (fun _ _ => []) (fun x => x) [] unit unit unit
    (fun _ => []) (fun _ => []) (fun _ _ _ _ => Ok tt) (fun _ => Ok true) (Ok [tt])
    (fun _ _ => true) (fun k => k) (fun _ _ => Ok tt) unit (fun t _ => Ok t)
    a (AlgoConfig_new true) [] [] (make_kexinit [] (AlgoConfig_new false))
    _ tt [] H1 H2) eq_refl tt q_s tt _ _ H3).
Defined.

Lemma algo_negotiation_choices_witness :
  let p := mkKexInit [] [SSH_NAME_CURVE25519] [SSH_NAME_ED25519]
             [SSH_NAME_CHAPOLY] [SSH_NAME_CHAPOLY]
             [SSH_NAME_HMAC_SHA256] [SSH_NAME_HMAC_SHA256]
             [SSH_NAME_NONE] [SSH_NAME_NONE] [] [] false 0 in
  let conf := AlgoConfig_new false in
  algo_negotiation unit (fun _ => []) (Ok tt) false
    (KexInit_with_macs p ["hmac-md5"%string] ["hmac-md5"%string]) conf
  = algo_negotiation unit (fun _ => []) (Ok tt) false p conf.
Proof.
  intros p conf.
  destruct (algo_negotiation_choices unit (fun _ => []) (Ok tt) tt eq_refl)
    as (_ & _ & _ & Htx & Hrx & _).
  (* server: the transmit direction is server to client *)
  rewrite <- (Htx false p conf SSH_NAME_CHAPOLY CipherChaPoly IntegChaPoly
                ["hmac-md5"%string] eq_refl eq_refl eq_refl).
  exact (Hrx false (KexInit_with_macs p (mac_c2s p) ["hmac-md5"%string]) conf
           SSH_NAME_CHAPOLY CipherChaPoly IntegChaPoly ["hmac-md5"%string]
           eq_refl eq_refl eq_refl).
Defined.

(** C6 as stated does not hold: the peer's mac lists have no entry in
    common with ours, yet negotiation succeeds, because ChaCha20-Poly1305
    was chosen in both directions and brings its own integrity. *)
Lemma mac_mismatch_accepted_with_aead :
  let p := mkKexInit [] [SSH_NAME_CURVE25519] [SSH_NAME_ED25519]
             [SSH_NAME_CHAPOLY] [SSH_NAME_CHAPOLY]
             ["hmac-md5"%string] ["hmac-md5"%string]
             [SSH_NAME_NONE] [SSH_NAME_NONE] [] [] false 0 in
  let conf := AlgoConfig_new false in
  first_match (mac_c2s p) false (macs conf) = Ok None /\
  first_match (mac_s2c p) false (macs conf) = Ok None /\
  exists a, algo_negotiation unit (fun _ => []) (Ok tt) false p conf = Ok a /\
            integ_enc unit a = IntegChaPoly /\ integ_dec unit a = IntegChaPoly.
Proof.
  intros p conf. split; [reflexivity|]. split; [reflexivity|].
  eexists. split; [reflexivity|]. split; reflexivity.
Qed.
End KexFacts.

Module WireFacts.
Import Wire.

Lemma field_att_var_names_err atts e : field_att_var_names atts = Err e -> e = Bug.
Proof.
  unfold field_att_var_names. destruct (att_variant_names atts) as [|? [|? ?]];
    intros H; first [discriminate H | injection H as <-; reflexivity].
Qed.

Lemma variant_name_err d i e : variant_name d i = Err e -> e = Bug.
Proof.
  unfold variant_name. destruct (find_variant d i) as [v|]; [|intros H; injection H as <-; reflexivity].
  destruct (existsb is_capture_unknown (var_atts v)); [intros H; injection H as <-; reflexivity|].
  apply field_att_var_names_err.
Qed.

Lemma bug_or_ok_bind {A B} (r : result A) (f : A -> result B) :
  bug_or_ok r -> (forall a, bug_or_ok (f a)) -> bug_or_ok (bind r f).
Proof. destruct r; cbn; auto. Qed.

Lemma bug_or_ok_variant_name d i : bug_or_ok (variant_name d i).
Proof.
  unfold bug_or_ok. destruct (variant_name d i) eqn:E; [exact I|].
  exact (variant_name_err _ _ _ E).
Qed.

Lemma bind_bug {A B} (r : result A) (f : A -> result B) :
  r = Err Bug -> bind r f = Err Bug.
Proof. intros ->. reflexivity. Qed.

(** Every error [enc] reports is [Bug]; on a well-typed value holding an
    [Unknown] anywhere it reports one. *)
Lemma enc_bug (v : wval) :
  bug_or_ok (enc v) /\
  (well_typed v = true -> contains_unknown v = true -> enc v = Err Bug).
Proof.
  revert v. fix IH 1. intros v. destruct v as [b|n|b|s|name|fs|d ident payload|inner|o].
  - split; [exact I | discriminate 2].
  - split; [exact I | discriminate 2].
  - split; [exact I | discriminate 2].
  - split; [exact I | discriminate 2].
  - split; [reflexivity | reflexivity].
  - cbn [enc well_typed contains_unknown].
    match goal with
    | |- bug_or_ok (?F fs) /\ (?W fs = true -> ?G fs = true -> _) =>
      refine ((fix go (l : list (string * list FieldAtt * wval)) :
                 bug_or_ok (F l) /\ (W l = true -> G l = true -> F l = Err Bug) := _) fs)
    end.
    destruct l as [|[[fname atts] fv] r].
    + split; [exact I | discriminate 2].
    + destruct (IH fv) as [H1 H2]. destruct (go r) as [H3 H4].
      cbn.
      match goal with
      | |- context [bind (?N atts) _] => assert (Hn : bug_or_ok (N atts))
      end.
      { clear H1 H2 H3 H4. induction atts as [|a atts IHa]; [exact I|].
        destruct a as [ef| |nm]; cbn; try exact IHa.
        apply bug_or_ok_bind.
        - destruct (lookup_field fs ef) as [[]|]; try reflexivity.
          apply bug_or_ok_variant_name.
        - intros n. apply bug_or_ok_bind; [exact IHa|]. intros. exact I. }
      split.
      * apply bug_or_ok_bind; [exact Hn|].
        intros pre. apply bug_or_ok_bind; [exact H1|]. intros b.
        apply bug_or_ok_bind; [exact H3|]. intros. exact I.
      * intros Hw Hc. apply andb_true_iff in Hw as [Hw Hwr].
        revert Hn. destruct (_ atts) as [pre|e]; cbn [bug_or_ok bind]; [intros _|intros ->; reflexivity].
        apply orb_true_iff in Hc as [Hc|Hc].
        -- apply bind_bug. exact (H2 Hw Hc).
        -- revert H1. destruct (enc fv) as [b|e]; cbn [bug_or_ok bind];
             [intros _|intros ->; reflexivity].
           apply bind_bug. exact (H4 Hwr Hc).
  - cbn [enc well_typed contains_unknown]. split.
    + apply bug_or_ok_bind.
      * destruct (existsb is_variant_prefix (cont_atts d)); [|exact I].
        apply bug_or_ok_bind; [apply bug_or_ok_variant_name | intros; exact I].
      * intros pre. destruct (find_variant d ident) as [var|]; [|reflexivity].
        destruct (var_fields var), payload as [p|]; try exact I; try reflexivity.
        destruct (existsb is_capture_unknown (var_atts var)); [reflexivity|].
        apply bug_or_ok_bind; [exact (proj1 (IH p)) | intros; exact I].
    + intros Hw Hc. unfold is_unknown_variant in Hc.
      destruct (existsb is_variant_prefix (cont_atts d)).
      * destruct (variant_name d ident) as [nm|e] eqn:Evn; cbn [bind];
          [| rewrite (variant_name_err _ _ _ Evn); reflexivity].
        destruct (find_variant d ident) as [var|]; [|discriminate Hw].
        destruct (var_fields var), payload as [p|]; try discriminate Hw.
        -- rewrite Bool.negb_true_iff in Hw. rewrite Hw in Hc. discriminate Hc.
        -- destruct (existsb is_capture_unknown (var_atts var)); [reflexivity|].
           rewrite (proj2 (IH p) Hw Hc). reflexivity.
      * cbn [bind].
        destruct (find_variant d ident) as [var|]; [|discriminate Hw].
        destruct (var_fields var), payload as [p|]; try discriminate Hw.
        -- rewrite Bool.negb_true_iff in Hw. rewrite Hw in Hc. discriminate Hc.
        -- destruct (existsb is_capture_unknown (var_atts var)); [reflexivity|].
           rewrite (proj2 (IH p) Hw Hc). reflexivity.
  - cbn [enc well_typed contains_unknown]. split.
    + apply bug_or_ok_bind; [exact (proj1 (IH inner)) | intros; exact I].
    + intros Hw Hc. rewrite (proj2 (IH inner) Hw Hc). reflexivity.
  - destruct o as [x|]; cbn [enc well_typed contains_unknown].
    + exact (IH x).
    + split; [exact I | discriminate 2].
Qed.

Lemma dec_enum_unknown d dec_payload name ctx s :
  In d wire_enums -> ~ In name (variant_names d) ->
  dec_enum d dec_payload name ctx s
  = Ok (WEnum d "Unknown" (Some (WUnknown (list_byte_of_string name))), s).
Proof.
  intros Hd Hn. cbn in Hd.
  repeat match type of Hd with
  | _ \/ _ => destruct Hd as [<- | Hd]
  | False => destruct Hd
  end;
  cbn -[String.eqb] in Hn; unfold dec_enum; cbn -[String.eqb];
  repeat match goal with
  | |- context [String.eqb ?a name] =>
      destruct (String.eqb_spec a name) as [Heq|_];
        [exfalso; apply Hn; subst; tauto|]
  end; reflexivity.
Qed.

(** C9: for each enum of the wire model, a variant name that none of its
    variants has decodes to the catch-all [Unknown] variant holding the
    name bytes, with the input left as it was; encoding any well-typed
    value that holds an [Unknown] variant anywhere, such as the one just
    decoded, fails with [Bug] and writes no bytes. *)
Theorem unknown_variant_never_encoded :
  (forall d, In d wire_enums ->
   forall dec_payload name ctx s, ~ In name (variant_names d) ->
   dec_enum d dec_payload name ctx s
   = Ok (WEnum d "Unknown" (Some (WUnknown (list_byte_of_string name))), s) /\
   is_unknown_variant d "Unknown" = true /\
   enc (WEnum d "Unknown" (Some (WUnknown (list_byte_of_string name)))) = Err Bug) /\
  (forall v, well_typed v = true -> contains_unknown v = true -> enc v = Err Bug).
Proof.
  split.
  - intros d Hd dec_payload name ctx s Hn.
    split; [exact (dec_enum_unknown _ _ _ _ _ Hd Hn)|].
    cbn in Hd.
    repeat match type of Hd with
    | _ \/ _ => destruct Hd as [<- | Hd]
    | False => destruct Hd
    end; split; reflexivity.
  - intros v. exact (proj2 (enc_bug v)).
Qed.

Lemma unknown_variant_never_encoded_witness :
  let name := "keyboard-interactive"%string in
  let v := WStruct [("username"%string, [], WString []);
                    ("method"%string, [], WEnum AuthMethod_desc "Unknown"
                       (Some (WUnknown (list_byte_of_string name))))] in
  ~ In name (variant_names AuthMethod_desc) /\
  dec_enum AuthMethod_desc (fun _ _ _ => Err Bug) name ParseContext_new []
  = Ok (WEnum AuthMethod_desc "Unknown" (Some (WUnknown (list_byte_of_string name))), []) /\
  well_typed v = true /\ contains_unknown v = true /\ enc v = Err Bug.
Proof.
  intros name v.
  assert (Hn : ~ In name (variant_names AuthMethod_desc)).
  { cbn. intros H. repeat destruct H as [H|H]; discriminate H || exact H. }
  assert (Hd : In AuthMethod_desc wire_enums) by (left; reflexivity).
  assert (Hw : well_typed v = true) by reflexivity.
  assert (Hc : contains_unknown v = true) by reflexivity.
  destruct unknown_variant_never_encoded as [Hdec Henc].
  split; [exact Hn|].
  split; [exact (proj1 (Hdec _ Hd (fun _ _ _ => Err Bug) name ParseContext_new [] Hn))|].
  split; [exact Hw|]. split; [exact Hc|].
  exact (Henc v Hw Hc).
Defined.

(** C8: the message numbered 60 is decoded according to the parse
    context's hint alone: with [Password] it is a password change request
    whenever it decodes (never a pk-ok), with [PubKey] a pk-ok (never a
    password change request), and a decoding failure is that of the chosen
    variant's fields; with no hint every input is refused with
    [PacketWrong]. *)
Theorem userauth60_by_hint ctx s :
  (cli_auth_type ctx = Some AuthPassword ->
     (forall prompt lang s', dec_pwchange ctx s = Ok ((prompt, lang), s') ->
        dec_userauth60 ctx s = Ok (PwChangeReq prompt lang, s')) /\
     (forall e, dec_pwchange ctx s = Err e -> dec_userauth60 ctx s = Err e) /\
     (forall algo key s', dec_userauth60 ctx s <> Ok (PkOk algo key, s'))) /\
  (cli_auth_type ctx = Some AuthPubKey ->
     (forall algo key s', dec_pkok ctx s = Ok ((algo, key), s') ->
        dec_userauth60 ctx s = Ok (PkOk algo key, s')) /\
     (forall e, dec_pkok ctx s = Err e -> dec_userauth60 ctx s = Err e) /\
     (forall prompt lang s', dec_userauth60 ctx s <> Ok (PwChangeReq prompt lang, s'))) /\
  (cli_auth_type ctx = None -> dec_userauth60 ctx s = Err PacketWrong).
Proof.
  unfold dec_userauth60. split; [|split].
  - intros ->. split; [|split].
    + intros prompt lang s' ->. reflexivity.
    + intros e ->. reflexivity.
    + intros algo key s'. destruct (dec_pwchange ctx s) as [[[p l] s'']|e]; cbn;
        discriminate.
  - intros ->. split; [|split].
    + intros algo key s' ->. reflexivity.
    + intros e ->. reflexivity.
    + intros prompt lang s'. destruct (dec_pkok ctx s) as [[[a k] s'']|e]; cbn;
        discriminate.
  - intros ->. reflexivity.
Qed.

Lemma userauth60_by_hint_witness :
  let ctx := mkParseContext (Some AuthPassword) false false in
  let s := [Byte.x00; Byte.x00; Byte.x00; Byte.x01; Byte.x61;
            Byte.x00; Byte.x00; Byte.x00; Byte.x00] in
  cli_auth_type ctx = Some AuthPassword /\
  dec_pwchange ctx s = Ok (([Byte.x61], []), []) /\
  dec_userauth60 ctx s = Ok (PwChangeReq [Byte.x61] [], []) /\
  dec_userauth60 (mkParseContext None false false) s = Err PacketWrong.
Proof.
  intros ctx s.
  assert (H1 : cli_auth_type ctx = Some AuthPassword) by reflexivity.
  assert (H2 : dec_pwchange ctx s = Ok (([Byte.x61], []), [])) by reflexivity.
  split; [exact H1|]. split; [exact H2|].
  split; [exact (proj1 (proj1 (userauth60_by_hint ctx s) H1) _ _ _ H2)|].
  exact (proj2 (proj2 (userauth60_by_hint (mkParseContext None false false) s)) eq_refl).
Defined.

End WireFacts.

Module CliAuthFacts.
Import CliAuth.

(** C1: when the client receives [UserauthSuccess] and the
    [ServiceRequest] for "ssh-connection" is queued, the authentication
    state becomes [Idle], the parse context forgets the pending method,
    the behaviour's [authenticated] callback is made once, and the call
    succeeds; the packet sent names the service "ssh-connection". *)
Theorem userauth_success_sends_connection SignKey Traf send
    (c : CliAuth SignKey) (ctx : ParseContext) (t t' : Traf) (b : list BehCall) :
  send t (PServiceRequest SSH_SERVICE_CONNECTION) = Ok t' ->
  auth_success SignKey Traf send c ctx t b
  = (set_state SignKey c (Idle SignKey), clear_auth_type ctx, t', b ++ [Authenticated], Ok tt) /\
  SSH_SERVICE_CONNECTION = "ssh-connection"%string /\
  cli_auth_type (clear_auth_type ctx) = None /\
  state SignKey (set_state SignKey c (Idle SignKey)) = Idle SignKey.
Proof.
  intros Hs. unfold auth_success. rewrite Hs. repeat split.
Qed.

Lemma userauth_success_sends_connection_witness :
  let send := fun (t : list Packet) p => Ok (t ++ [p]) in
  send [] (PServiceRequest SSH_SERVICE_CONNECTION)
    = Ok [PServiceRequest SSH_SERVICE_CONNECTION] /\
  auth_success unit (list Packet) send (CliAuth_new unit) ParseContext_new [] []
  = (set_state unit (CliAuth_new unit) (Idle unit), clear_auth_type ParseContext_new,
     [PServiceRequest SSH_SERVICE_CONNECTION], [Authenticated], Ok tt).
Proof.
  intros send.
  assert (Hs : send [] (PServiceRequest SSH_SERVICE_CONNECTION)
               = Ok [PServiceRequest SSH_SERVICE_CONNECTION]) by reflexivity.
  split; [exact Hs|].
  exact (proj1 (userauth_success_sends_connection unit (list Packet) send
                  (CliAuth_new unit) ParseContext_new [] _ [] Hs)).
Defined.

End CliAuthFacts.

Module FramingFacts.
Import Framing.

Lemma length_splice (buf : bytes) start (d : bytes) :
  start + List.length d <= List.length buf -> List.length (splice buf start d) = List.length buf.
Proof.
  intros H. unfold splice. rewrite !length_app, length_firstn, length_skipn. lia.
Qed.

Lemma nth_splice_out (buf : bytes) start (d : bytes) i x :
  start + List.length d <= List.length buf -> i < start \/ start + List.length d <= i ->
  nth i (splice buf start d) x = nth i buf x.
Proof.
  unfold splice. intros H [Hi|Hi].
  - rewrite app_nth1 by (rewrite length_firstn; lia).
    rewrite nth_firstn. destruct (i <? start) eqn:E; [reflexivity|].
    apply Nat.ltb_ge in E. lia.
  - rewrite app_nth2 by (rewrite length_firstn; lia).
    rewrite app_nth2 by (rewrite length_firstn; lia).
    rewrite nth_skipn, length_firstn. f_equal. lia.
Qed.

Lemma nth_splice_in (buf : bytes) start (d : bytes) i x :
  start + List.length d <= List.length buf -> start <= i < start + List.length d ->
  nth i (splice buf start d) x = nth (i - start) d x.
Proof.
  unfold splice. intros H Hi.
  rewrite app_nth2 by (rewrite length_firstn; lia).
  rewrite app_nth1 by (rewrite length_firstn; lia).
  rewrite length_firstn. f_equal. lia.
Qed.

Lemma byte_of_N_to_N n : Byte.to_N (byte_of_N n) = (n mod 256)%N.
Proof.
  unfold byte_of_N. destruct (Byte.of_N (n mod 256)) eqn:E.
  - apply Byte.to_of_N in E. exact E.
  - apply Byte.of_N_None_iff in E. pose proof (N.mod_lt n 256 ltac:(discriminate)). lia.
Qed.

Lemma byte_of_N_to_nat p : p < 256 -> Byte.to_nat (byte_of_N (N.of_nat p)) = p.
Proof.
  intros H. rewrite Byte.to_nat_via_N, byte_of_N_to_N.
  rewrite N.mod_small by lia. lia.
Qed.

Lemma u32_roundtrip n : u32_from_be_bytes (u32_to_be_bytes n) = (n mod 2 ^ 32)%N.
Proof.
  unfold u32_from_be_bytes, u32_to_be_bytes. rewrite !byte_of_N_to_N.
  replace (2 ^ 32)%N with (2 ^ 24 * 256)%N by reflexivity.
  rewrite N.Div0.mod_mul_r.
  replace (2 ^ 24)%N with (2 ^ 16 * 256)%N by reflexivity.
  rewrite N.Div0.mod_mul_r.
  replace (2 ^ 16)%N with (2 ^ 8 * 256)%N by reflexivity.
  rewrite N.Div0.mod_mul_r.
  replace (2 ^ 8)%N with 256%N by reflexivity.
  rewrite <- !N.Div0.div_div.
  lia.
Qed.

Lemma calc_pad_le e P : Encrypt.calc_encrypt_pad e P <= 3 * Encrypt.size_block e.
Proof.
  unfold Encrypt.calc_encrypt_pad, Encrypt.SSH_MIN_PADLEN, Encrypt.SSH_MIN_PACKET_SIZE,
    Encrypt.SSH_LENGTH_SIZE.
  destruct e; cbn [Encrypt.size_block Encrypt.is_aead];
  unfold Encrypt.SSH_MIN_BLOCK, Encrypt.AES256_BLOCK_SIZE;
  repeat match goal with |- context [if ?c then _ else _] => destruct c end; lia.
Qed.

Lemma calc_pad_nocipher P :
  let pad := Encrypt.calc_encrypt_pad Encrypt.NoCipher P in
  4 <= pad /\ pad <= 24 /\ (exists m, 4 + 1 + P + pad = m * 8) /\ 16 <= 4 + 1 + P + pad.
Proof.
  intros pad. pose proof (calc_pad_le Encrypt.NoCipher P) as Hle.
  pose proof (EncryptFacts.calc_pad_block 8 4 P ltac:(lia)) as H.
  change (4 <= pad /\ (exists m, 1 + P + 4 + pad = m * 8) /\ 16 <= 4 + 1 + P + pad) in H.
  destruct H as (H1 & (m & H2) & H3). cbn in Hle.
  split; [exact H1|]. split; [lia|]. split; [exists m; lia|exact H3].
Qed.

Lemma firstn_splice_before (buf : bytes) start (d : bytes) n :
  n <= start -> start + List.length d <= List.length buf ->
  firstn n (splice buf start d) = firstn n buf.
Proof.
  intros Hn Hl. apply nth_ext with (d := Byte.x00) (d' := Byte.x00).
  - rewrite !length_firstn, length_splice by lia. reflexivity.
  - intros i Hi. rewrite length_firstn, length_splice in Hi by lia.
    rewrite !nth_firstn. destruct (i <? n) eqn:E; [|reflexivity].
    apply nth_splice_out; [lia|]. apply Nat.ltb_lt in E. lia.
Qed.

Lemma length_u32 n : List.length (u32_to_be_bytes n) = 4.
Proof. reflexivity. Qed.

Ltac ltb_false :=
  match goal with |- context [?a <? ?b] =>
    replace (a <? b) with false by (symmetry; apply Nat.ltb_ge; lia) end.

Section FramingFactsSec.
Variable SealKey OpenKey AesCtr : Type.
Variable seal_in_place : SealKey -> Z -> bytes -> bytes * bytes.
Variable open_in_place : OpenKey -> Z -> bytes -> bytes -> option bytes.
Variable decrypt_packet_length : OpenKey -> Z -> bytes -> bytes.
Variable apply_keystream : AesCtr -> bytes -> AesCtr * bytes.
Variable hmac_sha256 : bytes -> bytes -> bytes.
Variable fill_random : bytes -> result bytes.


(** X1: with cleartext keys (no cipher either way, the same integrity key
    both ways, a 32-byte HMAC output and a [fill_random] that keeps the length),
    a successful [Keys_encrypt] of a [P]-byte payload keeps the keys and the
    buffer length and writes [n] bytes, at most the buffer's length; on those
    [n] bytes [Keys_decrypt_first_block] reads back [n] as the total length
    (when it fits in 32 bits), [Keys_decrypt] returns the payload length [P],
    and the payload bytes after the 5-byte header are the caller's. *)
Lemma encrypt_decrypt_roundtrip_cleartext (k : Keys SealKey OpenKey AesCtr) P (buf : bytes) seq k' (buf' : bytes) n :
  enc k = ENoCipher -> dec k = DNoCipher -> integ_enc k = integ_dec k ->
  (forall key m, integ_enc k = IHmacSha256 key -> List.length (hmac_sha256 key m) = SHA256_OUTPUT_SIZE) ->
  (forall s s', fill_random s = Ok s' -> List.length s' = List.length s) ->
  Keys_encrypt seal_in_place apply_keystream hmac_sha256 fill_random k P buf seq = (k', buf', Ok n) ->
  k' = k /\ n <= List.length buf /\ List.length buf' = List.length buf /\
  ((N.of_nat n < 2 ^ 32)%N -> Keys_decrypt_first_block decrypt_packet_length apply_keystream k (firstn n buf') seq = (k, firstn n buf', Ok (N.of_nat n))) /\
  Keys_decrypt open_in_place apply_keystream hmac_sha256 k (firstn n buf') seq = (k, firstn n buf', Ok P) /\
  firstn P (skipn 5 (firstn n buf')) = firstn P (skipn 5 buf).
Proof.
  intros Henc Hdec Hint Hhmac Hfill H.
  pose proof (calc_pad_nocipher P) as Hpad. cbv zeta in Hpad.
  assert (Hp : Keys_calc_encrypt_pad k P = Encrypt.calc_encrypt_pad Encrypt.NoCipher P)
    by (unfold Keys_calc_encrypt_pad; rewrite Henc; reflexivity).
  unfold Keys_encrypt in H. cbv zeta in H. rewrite Hp in H.
  set (pad := Encrypt.calc_encrypt_pad Encrypt.NoCipher P) in *.
  set (si := size_out (integ_enc k)) in *.
  destruct Hpad as (Hp4 & Hp24 & (m & Hm) & Hp16).
  unfold Encrypt.SSH_LENGTH_SIZE in H.
  destruct (List.length buf <? 4 + 1 + P + pad + si) eqn:E1; [discriminate H|].
  apply Nat.ltb_ge in E1.
  set (b1 := splice buf 4 [byte_of_N (N.of_nat pad)]) in *.
  set (b2 := splice b1 0 (u32_to_be_bytes (N.of_nat (4 + 1 + P + pad - 4)))) in *.
  assert (L1 : List.length b1 = List.length buf) by (apply length_splice; cbn; lia).
  assert (L2 : List.length b2 = List.length buf) by (unfold b2; rewrite length_splice; rewrite ?length_u32; lia).
  destruct (fill_random (firstn pad (skipn (4 + 1 + P) b2))) as [padb|e] eqn:Ef; [|discriminate H].
  apply Hfill in Ef. rewrite length_firstn, length_skipn in Ef.
  assert (Lp : List.length padb = pad) by lia. clear Ef.
  set (b3 := splice b2 (4 + 1 + P) padb) in *.
  assert (L3 : List.length b3 = List.length buf) by (unfold b3; rewrite length_splice; lia).
  set (len := 4 + 1 + P + pad) in *.
  assert (Hlen : len = 4 + 1 + P + pad) by reflexivity.
  set (encd := firstn len b3) in *.
  set (mac := match integ_enc k with
              | IHmacSha256 key => hmac_sha256 key (seq_bytes seq ++ encd)
              | _ => firstn si (skipn len b3) end) in *.
  assert (Lm : List.length mac = si).
  { unfold mac, si. destruct (integ_enc k) eqn:Ei;
      try (rewrite length_firstn, length_skipn; lia).
    rewrite (Hhmac _ _ eq_refl). reflexivity. }
  assert (Le : List.length encd = len) by (unfold encd; rewrite length_firstn; lia).
  rewrite Henc in H.
  pose proof (f_equal (fun t => fst (fst t)) H) as Hk.
  pose proof (f_equal (fun t => snd (fst t)) H) as Hb.
  pose proof (f_equal snd H) as Hn.
  cbn [fst snd] in Hk, Hb, Hn. clear H. subst k' buf'.
  assert (Hn' : n = len + si) by congruence. clear Hn. subst n.
  assert (Hv : firstn (len + si) (encd ++ mac ++ skipn si (skipn len b3)) = encd ++ mac).
  { rewrite app_assoc, firstn_app, length_app, Le, Lm, Nat.sub_diag, firstn_O, app_nil_r.
    apply firstn_all2. rewrite length_app. lia. }
  rewrite Hv.
  (* bytes of the written packet *)
  assert (Bnth : forall i, i < len -> nth i (encd ++ mac) Byte.x00 = nth i b3 Byte.x00).
  { intros i Hi. rewrite app_nth1 by lia. unfold encd. rewrite nth_firstn.
    replace (i <? len) with true by (symmetry; apply Nat.ltb_lt; lia). reflexivity. }
  assert (Bpad : nth 4 (encd ++ mac) Byte.x00 = byte_of_N (N.of_nat pad)).
  { rewrite Bnth by lia. unfold b3. rewrite nth_splice_out by lia.
    unfold b2. rewrite nth_splice_out by (rewrite ?length_u32; cbn [List.length]; lia).
    unfold b1. rewrite nth_splice_in by (rewrite ?length_u32; cbn [List.length]; lia). reflexivity. }
  split; [reflexivity|]. split; [lia|].
  split; [rewrite !length_app, length_skipn, length_skipn; lia|].
  split; [|split].
  - (* first block *)
    intros Hn. unfold Keys_decrypt_first_block. rewrite Hdec. cbv zeta.
    cbn [dec_size_block]. unfold Encrypt.SSH_MIN_BLOCK.
    rewrite length_app, Le, Lm. ltb_false.
    assert (H4 : firstn 4 (encd ++ mac) = u32_to_be_bytes (N.of_nat (len - 4))).
    { apply nth_ext with (d := Byte.x00) (d' := Byte.x00).
      - rewrite length_firstn, length_app, length_u32. lia.
      - intros i Hi. rewrite length_firstn, length_app in Hi.
        rewrite nth_firstn. replace (i <? 4) with true by (symmetry; apply Nat.ltb_lt; lia).
        rewrite Bnth by lia. unfold b3. rewrite nth_splice_out by lia.
        unfold b2. rewrite nth_splice_in by (rewrite ?length_u32; lia).
        rewrite Nat.sub_0_r. reflexivity. }
    rewrite H4, u32_roundtrip, N.mod_small by lia.
    rewrite <- Hint. fold si. unfold Encrypt.SSH_LENGTH_SIZE.
    replace (N.of_nat (len - 4) + N.of_nat (4 + si))%N with (N.of_nat (len + si)) by lia.
    destruct (2 ^ 32 <=? N.of_nat (len + si))%N eqn:E; [apply N.leb_le in E; lia|reflexivity].
  - (* full packet *)
    unfold Keys_decrypt. rewrite Hdec, <- Hint. fold si. cbv zeta.
    cbn [dec_size_block dec_is_aead].
    unfold Encrypt.SSH_MIN_BLOCK, Encrypt.SSH_MIN_PACKET_SIZE.
    rewrite length_app, Le, Lm. ltb_false. ltb_false.
    replace (len + si - si - 0) with (m * 8) by lia.
    rewrite Nat.Div0.mod_mul. cbn [Nat.eqb negb].
    replace (len + si - si) with len by lia.
    rewrite firstn_app, Le, Nat.sub_diag, firstn_O, app_nil_r, firstn_all2 by lia.
    rewrite skipn_app, Le, Nat.sub_diag, skipn_all2, skipn_O by lia. cbn [app].
    assert (Hc : match integ_enc k with
                 | IHmacSha256 key =>
                     if list_eq_dec Byte.byte_eq_dec (hmac_sha256 key (seq_bytes seq ++ encd)) mac
                     then Ok tt else Err BadDecrypt
                 | _ => Ok tt end = Ok tt).
    { unfold mac. destruct (integ_enc k); try reflexivity.
      destruct (list_eq_dec _ _ _) as [_|C]; [reflexivity|].
      exfalso. apply C. reflexivity. }
    rewrite Hc.
    replace (nth Encrypt.SSH_LENGTH_SIZE encd Byte.x00) with (byte_of_N (N.of_nat pad)).
    2:{ rewrite <- Bpad. rewrite app_nth1 by lia. reflexivity. }
    rewrite byte_of_N_to_nat by lia. unfold Encrypt.SSH_MIN_PADLEN, Encrypt.SSH_LENGTH_SIZE.
    ltb_false. ltb_false. replace (len + si - (4 + 1 + si + pad)) with P by lia. reflexivity.
  - (* payload bytes *)
    apply nth_ext with (d := Byte.x00) (d' := Byte.x00).
    + rewrite !length_firstn, !length_skipn, length_app. lia.
    + intros i Hi. rewrite length_firstn, length_skipn, length_app in Hi.
      rewrite !nth_firstn. destruct (i <? P) eqn:Ei; [|reflexivity].
      apply Nat.ltb_lt in Ei. rewrite !nth_skipn.
      rewrite Bnth by lia. unfold b3. rewrite nth_splice_out by lia.
      unfold b2. rewrite nth_splice_out by (rewrite ?length_u32; lia).
      unfold b1. rewrite nth_splice_out by (rewrite ?length_u32; cbn [List.length]; lia). reflexivity.
Qed.

(** X2: [Keys_encrypt] needs room for the length field, the padding length
    byte, the payload, the padding and the MAC: a shorter buffer gives
    [NoRoom] with keys and buffer unchanged, and a success returns exactly
    that size. *)
Lemma encrypt_needs_room (k : Keys SealKey OpenKey AesCtr) P (buf : bytes) seq :
  let need := 4 + 1 + P + Keys_calc_encrypt_pad k P + size_out (integ_enc k) in
  (List.length buf < need -> Keys_encrypt seal_in_place apply_keystream hmac_sha256 fill_random k P buf seq = (k, buf, Err NoRoom)) /\
  (forall k' buf' n, Keys_encrypt seal_in_place apply_keystream hmac_sha256 fill_random k P buf seq = (k', buf', Ok n) -> n = need /\ n <= List.length buf).
Proof.
  intros need. unfold Keys_encrypt. cbv zeta. unfold Encrypt.SSH_LENGTH_SIZE. fold need.
  split.
  - intros H. replace (List.length buf <? need) with true by (symmetry; apply Nat.ltb_lt; exact H).
    reflexivity.
  - intros k' buf' n H.
    destruct (List.length buf <? need) eqn:E1; [discriminate H|]. apply Nat.ltb_ge in E1.
    destruct (fill_random _) as [padb|e]; [|discriminate H].
    destruct (enc k) as [sk|a|].
    + destruct (negb _); [discriminate H|].
      destruct (seal_in_place _ _ _). injection H as _ _ <-. unfold need. lia.
    + destruct (apply_keystream _ _). injection H as _ _ <-. unfold need. lia.
    + injection H as _ _ <-. unfold need. lia.
Qed.

(** X3: when [Keys_decrypt] succeeds, the buffer held at least a block
    plus the MAC and at least 16 bytes plus the MAC, its length without the
    MAC (and without the length field for an AEAD cipher) is a multiple of
    the block size, the result buffer is the decrypted data followed by the
    received MAC, the padding length byte is at least 4, the payload length
    plus the length field, the padding length byte, the MAC and the padding
    is the buffer length, an HMAC integrity key produced exactly the received
    MAC over the sequence number and the data, and the integrity key is
    unchanged. *)
Lemma decrypt_ok_layout (k : Keys SealKey OpenKey AesCtr) (buf : bytes) seq k' (buf' : bytes) p :
  Keys_decrypt open_in_place apply_keystream hmac_sha256 k buf seq = (k', buf', Ok p) ->
  let si := size_out (integ_dec k) in
  let bs := dec_size_block (dec k) in
  let mac := skipn (List.length buf - si) buf in
  bs + si <= List.length buf /\ Encrypt.SSH_MIN_PACKET_SIZE + si <= List.length buf /\
  (List.length buf - si - (if dec_is_aead (dec k) then Encrypt.SSH_LENGTH_SIZE else 0)) mod bs = 0 /\
  exists data, buf' = data ++ mac /\
    Encrypt.SSH_MIN_PADLEN <= Byte.to_nat (nth Encrypt.SSH_LENGTH_SIZE data Byte.x00) /\
    p + Encrypt.SSH_LENGTH_SIZE + 1 + si + Byte.to_nat (nth Encrypt.SSH_LENGTH_SIZE data Byte.x00)
      = List.length buf /\
    (forall key, integ_dec k' = IHmacSha256 key -> hmac_sha256 key (seq_bytes seq ++ data) = mac) /\
    integ_dec k' = integ_dec k.
Proof.
  intros H si bs mac. unfold Keys_decrypt in H. cbv zeta in H. fold si bs mac in H.
  destruct (List.length buf <? bs + si) eqn:E1; [discriminate H|]. apply Nat.ltb_ge in E1.
  destruct (List.length buf <? Encrypt.SSH_MIN_PACKET_SIZE + si) eqn:E2; [discriminate H|].
  apply Nat.ltb_ge in E2.
  destruct (negb (_ mod bs =? 0)) eqn:E3; [discriminate H|].
  apply negb_false_iff, Nat.eqb_eq in E3.
  split; [exact E1|]. split; [exact E2|]. split; [exact E3|].
  set (data0 := firstn (List.length buf - si) buf) in *.
  assert (Hr : exists k1 data, integ_dec k1 = integ_dec k /\
    match dec k with
    | DChaPoly ok =>
        if negb (List.length mac =? CHAPOLY_TAG_LEN) then (k, data0, Err Bug) else
        match open_in_place ok seq data0 mac with
        | None => (k, data0, Err BadDecrypt)
        | Some data => (k, data, Ok tt)
        end
    | DAes256Ctr a =>
        if 16 <? List.length data0 then
          let '(a, d) := apply_keystream a (skipn 16 data0) in
          (set_dec k (DAes256Ctr a), firstn 16 data0 ++ d, Ok tt)
        else (k, data0, Ok tt)
    | DNoCipher => (k, data0, Ok tt)
    end = (k1, data, Ok tt)).
  { destruct (dec k) as [ok|a|].
    - destruct (negb _) eqn:E; [discriminate H|].
      destruct (open_in_place ok seq data0 mac) as [d|]; [|discriminate H].
      exists k, d. split; reflexivity.
    - destruct (16 <? _).
      + destruct (apply_keystream _ _) as [a' d]. eexists _, _. split; [|reflexivity]. reflexivity.
      + exists k, data0. split; reflexivity.
    - exists k, data0. split; reflexivity. }
  destruct Hr as (k1 & data & Hk1 & Hr). rewrite Hr in H.
  exists data.
  destruct (match integ_dec k1 with
            | IHmacSha256 key =>
                if list_eq_dec Byte.byte_eq_dec (hmac_sha256 key (seq_bytes seq ++ data)) mac
                then Ok tt else Err BadDecrypt
            | _ => Ok tt end) eqn:Ec; [|discriminate H].
  destruct (Byte.to_nat _ <? Encrypt.SSH_MIN_PADLEN) eqn:E4; [discriminate H|].
  apply Nat.ltb_ge in E4.
  destruct (List.length buf <? _) eqn:E5; [discriminate H|]. apply Nat.ltb_ge in E5.
  injection H as <- <- <-.
  split; [reflexivity|]. split; [exact E4|].
  split; [unfold Encrypt.SSH_LENGTH_SIZE in *; lia|]. split; [|exact Hk1].
  intros key Hkey. rewrite Hkey in Ec.
  destruct (list_eq_dec _ _ _) as [Heq|]; [exact Heq|discriminate Ec].
Qed.

(** X4: [Keys_decrypt_first_block] on a buffer shorter than the receive
    block fails with [Bug] and changes nothing; a success returns a total
    length of at least the length field plus the MAC and below 2^32. *)
Lemma first_block_length_bounds (k : Keys SealKey OpenKey AesCtr) (buf : bytes) seq :
  (List.length buf < dec_size_block (dec k) -> Keys_decrypt_first_block decrypt_packet_length apply_keystream k buf seq = (k, buf, Err Bug)) /\
  (forall k' buf' t, Keys_decrypt_first_block decrypt_packet_length apply_keystream k buf seq = (k', buf', Ok t) ->
     (N.of_nat (Encrypt.SSH_LENGTH_SIZE + size_out (integ_dec k)) <= t < 2 ^ 32)%N).
Proof.
  unfold Keys_decrypt_first_block. split.
  - intros H. replace (List.length buf <? _) with true by (symmetry; apply Nat.ltb_lt; exact H).
    reflexivity.
  - intros k' buf' t H.
    destruct (List.length buf <? _); [discriminate H|]. cbv zeta in H.
    assert (Hs : exists k1 buf1 d4, integ_dec k1 = integ_dec k /\
      match dec k with
      | DChaPoly ok => (k, buf, decrypt_packet_length ok seq (firstn 4 buf))
      | DAes256Ctr a =>
          let '(a, c) := apply_keystream a (firstn 16 buf) in
          (set_dec k (DAes256Ctr a), c ++ skipn 16 buf, firstn 4 (c ++ skipn 16 buf))
      | DNoCipher => (k, buf, firstn 4 buf)
      end = (k1, buf1, d4)).
    { destruct (dec k).
      - do 3 eexists. split; [|reflexivity]. reflexivity.
      - destruct (apply_keystream _ _). do 3 eexists. split; [|reflexivity]. reflexivity.
      - do 3 eexists. split; [|reflexivity]. reflexivity. }
    destruct Hs as (k1 & buf1 & d4 & Hk1 & Hs). rewrite Hs in H. rewrite Hk1 in H.
    remember (u32_from_be_bytes d4 + N.of_nat (Encrypt.SSH_LENGTH_SIZE + size_out (integ_dec k)))%N
      as tot eqn:Htot.
    destruct (2 ^ 32 <=? _)%N eqn:E; [discriminate H|]. apply N.leb_gt in E.
    injection H as _ _ <-. lia.
Qed.

Variable sha256 : bytes -> bytes.
Variable seal_key_new : bytes -> SealKey.
Variable open_key_new : bytes -> OpenKey.
Variable aes_new : bytes -> bytes -> AesCtr.

(** X5: with a 32-byte SHA-256 and [len <= length out <= 64],
    [compute_key] fills the output buffer with
    [K1 = HASH(mpint K || H || letter || session_id)] followed by
    [K2 = HASH(mpint K || H || K1)], cut to the buffer's length, and returns
    its first [len] bytes as the key. *)
Lemma compute_key_hash_chain letter len (out : bytes) k h s :
  (forall m, List.length (sha256 m) = SHA256_OUTPUT_SIZE) ->
  len <= List.length out <= 2 * SHA256_OUTPUT_SIZE ->
  compute_key sha256 letter len out k h s =
  Ok (firstn len (firstn (List.length out)
        (sha256 (Kex.hash_mpint [] k ++ h ++ [letter] ++ s) ++
         sha256 (Kex.hash_mpint [] k ++ h ++ sha256 (Kex.hash_mpint [] k ++ h ++ [letter] ++ s)))),
      firstn (List.length out)
        (sha256 (Kex.hash_mpint [] k ++ h ++ [letter] ++ s) ++
         sha256 (Kex.hash_mpint [] k ++ h ++ sha256 (Kex.hash_mpint [] k ++ h ++ [letter] ++ s)))).
Proof.
  intros Hsha Hl. unfold compute_key. cbv zeta.
  replace (List.length out <? len) with false by (symmetry; apply Nat.ltb_ge; lia).
  set (k1 := sha256 (Kex.hash_mpint [] k ++ h ++ [letter] ++ s)).
  set (k2 := sha256 (Kex.hash_mpint [] k ++ h ++ k1)).
  assert (L1 : List.length k1 = 32) by apply Hsha.
  assert (L2 : List.length k2 = 32) by apply Hsha.
  unfold SHA256_OUTPUT_SIZE in Hl. rewrite L1, L2.
  set (lo := List.length out) in *.
  destruct (Nat.le_gt_cases lo 32) as [Hs|Hs].
  - replace (Nat.min lo 32) with lo by lia. rewrite Nat.sub_diag. cbn [Nat.ltb Nat.leb].
    cbn [List.length app]. rewrite Nat.add_0_r. unfold lo. rewrite skipn_all, app_nil_r.
    rewrite firstn_app. replace (List.length out - List.length k1) with 0 by lia.
    rewrite firstn_O, app_nil_r. reflexivity.
  - replace (Nat.min lo 32) with 32 by lia.
    replace (0 <? lo - 32) with true by (symmetry; apply Nat.ltb_lt; lia).
    replace (Nat.min (lo - 32) 32) with (lo - 32) by lia.
    rewrite length_firstn, L2. replace (32 + Nat.min (lo - 32) 32) with lo by lia.
    unfold lo. rewrite skipn_all, app_nil_r.
    rewrite (firstn_app (List.length out) k1 k2), L1.
    rewrite !(firstn_all2 k1) by lia.
    reflexivity.
Qed.

(** X6: with a 32-byte SHA-256, [Keys_new_from] fails with [Bug] exactly
    when the sending integrity algorithm is the ChaCha20-Poly1305 tag and the
    receiving one is HMAC-SHA256 (the receiving key length is read from the
    sending algorithm); for every other choice of algorithms it succeeds. *)
Lemma new_from_integ_mismatch {Secret} (k h sid : bytes) (algos : Kex.Algos Secret) :
  (forall m, List.length (sha256 m) = SHA256_OUTPUT_SIZE) ->
  (Kex.integ_enc Secret algos = Kex.IntegChaPoly /\ Kex.integ_dec Secret algos = Kex.IntegHmacSha256 /\
   Keys_new_from sha256 seal_key_new open_key_new aes_new k h sid algos = Err Bug) \/
  (~ (Kex.integ_enc Secret algos = Kex.IntegChaPoly /\ Kex.integ_dec Secret algos = Kex.IntegHmacSha256) /\
   exists ks, Keys_new_from sha256 seal_key_new open_key_new aes_new k h sid algos = Ok ks).
Proof.
  intros Hsha. unfold Keys_new_from.
  destruct algos as [ka hs ce cd ie id dn ic sei]. cbn [Kex.integ_enc Kex.integ_dec Kex.is_client
    Kex.cipher_enc Kex.cipher_dec].
  destruct ic, ce, cd, ie, id; cbv beta iota zeta;
  repeat (rewrite compute_key_hash_chain by
            (exact Hsha || (rewrite ?length_firstn, ?length_app, ?Hsha, ?repeat_length;
              unfold cipher_key_len, cipher_iv_len, integ_key_len, CHAPOLY_KEY_LEN, MAX_KEY_LEN,
                MAX_IV_LEN, SHA256_OUTPUT_SIZE; lia));
          cbv beta iota zeta; cbn [bind]).
  all: unfold EncKey_from_cipher, DecKey_from_cipher, IntegKey_from_integ;
  rewrite ?length_firstn, ?length_app, ?Hsha, ?repeat_length;
  unfold cipher_key_len, cipher_iv_len, integ_key_len, CHAPOLY_KEY_LEN, MAX_KEY_LEN,
    MAX_IV_LEN, SHA256_OUTPUT_SIZE;
  cbn -[Kex.hash_mpint letter firstn app];
  first [ left; split; [reflexivity|]; split; reflexivity
        | right; split; [intros [H1 H2]; discriminate | eexists; reflexivity] ].
Qed.

Ltac new_from_simpl Hsha :=
  unfold Keys_new_from;
  cbn [Kex.is_client Kex.cipher_enc Kex.cipher_dec Kex.integ_enc Kex.integ_dec];
  cbv beta iota zeta;
  repeat (rewrite compute_key_hash_chain by
            (exact Hsha || (rewrite ?length_firstn, ?length_app, ?Hsha, ?repeat_length;
              unfold cipher_key_len, cipher_iv_len, integ_key_len, CHAPOLY_KEY_LEN, MAX_KEY_LEN,
                MAX_IV_LEN, SHA256_OUTPUT_SIZE; lia));
          cbv beta iota zeta; cbn [bind]);
  unfold EncKey_from_cipher, DecKey_from_cipher, IntegKey_from_integ;
  rewrite ?length_firstn, ?length_app, ?Hsha, ?repeat_length;
  unfold cipher_key_len, cipher_iv_len, integ_key_len, CHAPOLY_KEY_LEN, MAX_KEY_LEN,
    MAX_IV_LEN, SHA256_OUTPUT_SIZE;
  cbn -[Kex.hash_mpint letter firstn app].

(** X7: when a client and a server negotiated mirrored algorithms and both
    derive keys from the same shared secret, exchange hash and session id,
    each side's sending cipher key matches the other side's receiving key
    (the same ChaCha20-Poly1305 key material, or the same AES-256-CTR
    state), and each side's sending integrity key is the other's receiving
    integrity key. *)
Lemma new_from_peers_agree {Secret} (k h sid : bytes) (ac asv : Kex.Algos Secret) kc ks :
  (forall m, List.length (sha256 m) = SHA256_OUTPUT_SIZE) ->
  Kex.is_client Secret ac = true -> Kex.is_client Secret asv = false ->
  Kex.cipher_enc Secret ac = Kex.cipher_dec Secret asv ->
  Kex.cipher_dec Secret ac = Kex.cipher_enc Secret asv ->
  Kex.integ_enc Secret ac = Kex.integ_dec Secret asv ->
  Kex.integ_dec Secret ac = Kex.integ_enc Secret asv ->
  Keys_new_from sha256 seal_key_new open_key_new aes_new k h sid ac = Ok kc ->
  Keys_new_from sha256 seal_key_new open_key_new aes_new k h sid asv = Ok ks ->
  ((exists b, enc kc = EChaPoly (seal_key_new b) /\ dec ks = DChaPoly (open_key_new b)) \/
   (exists a, enc kc = EAes256Ctr a /\ dec ks = DAes256Ctr a)) /\
  ((exists b, enc ks = EChaPoly (seal_key_new b) /\ dec kc = DChaPoly (open_key_new b)) \/
   (exists a, enc ks = EAes256Ctr a /\ dec kc = DAes256Ctr a)) /\
  integ_enc kc = integ_dec ks /\ integ_enc ks = integ_dec kc.
Proof.
  intros Hsha Hc Hs E1 E2 E3 E4.
  destruct ac as [ka1 hs1 ce1 cd1 ie1 id1 dn1 ic1 sei1].
  destruct asv as [ka2 hs2 ce2 cd2 ie2 id2 dn2 ic2 sei2].
  cbn in Hc, Hs, E1, E2, E3, E4. subst.
  intros H1 H2.
  destruct ce2, cd2, ie2, id2;
  revert H1; new_from_simpl Hsha; intros H1; try discriminate H1;
  revert H2; new_from_simpl Hsha; intros H2; try discriminate H2;
  injection H1 as <-; injection H2 as <-; cbn [enc dec integ_enc integ_dec];
  (split; [first [left; eexists; split; reflexivity | right; eexists; split; reflexivity]|]);
  (split; [first [left; eexists; split; reflexivity | right; eexists; split; reflexivity]|]);
  split; reflexivity.
Qed.

End FramingFactsSec.

Lemma encrypt_decrypt_roundtrip_cleartext_witness :
  let seal := fun (_ : unit) (_ : Z) (d : bytes) => (d, @nil Byte.byte) in
  let ks := fun (a : unit) (d : bytes) => (a, d) in
  let hm := fun (_ _ : bytes) => repeat Byte.x00 32 in
  let fr := fun (s : bytes) => Ok s in
  let op := fun (_ : unit) (_ : Z) (d : bytes) (_ : bytes) => Some d in
  let k := @Keys_new_cleartext unit unit unit in
  let buf := repeat Byte.x00 40 in
  exists buf',
    Keys_encrypt seal ks hm fr k 3 buf 0%Z = (k, buf', Ok 16) /\
    Keys_decrypt op ks hm k (firstn 16 buf') 0%Z = (k, firstn 16 buf', Ok 3).
Proof.
  intros seal ks hm fr op k buf.
  exists (snd (fst (Keys_encrypt seal ks hm fr k 3 buf 0%Z))).
  assert (H : Keys_encrypt seal ks hm fr k 3 buf 0%Z
              = (k, snd (fst (Keys_encrypt seal ks hm fr k 3 buf 0%Z)), Ok 16))
    by reflexivity.
  split; [exact H|].
  refine (proj1 (proj2 (proj2 (proj2 (proj2
    (encrypt_decrypt_roundtrip_cleartext unit unit unit seal op (fun _ _ d => d) ks hm fr
       k 3 buf 0%Z k _ 16 eq_refl eq_refl eq_refl _ _ H)))))).
  - intros key m Hi. discriminate Hi.
  - intros s s' Hs. injection Hs as <-. reflexivity.
Defined.

Lemma decrypt_ok_layout_witness :
  let ks := fun (a : unit) (d : bytes) => (a, d) in
  let hm := fun (_ _ : bytes) => repeat Byte.x00 32 in
  let op := fun (_ : unit) (_ : Z) (d : bytes) (_ : bytes) => Some d in
  let k := @Keys_new_cleartext unit unit unit in
  let buf := [Byte.x00; Byte.x00; Byte.x00; Byte.x0c; Byte.x08; Byte.x01; Byte.x02; Byte.x03]
             ++ repeat Byte.x00 8 in
  Keys_decrypt op ks hm k buf 0%Z = (k, buf, Ok 3) /\
  3 + Encrypt.SSH_LENGTH_SIZE + 1 + size_out (integ_dec k)
    + Byte.to_nat (nth Encrypt.SSH_LENGTH_SIZE buf Byte.x00) = List.length buf.
Proof.
  intros ks hm op k buf.
  assert (H : Keys_decrypt op ks hm k buf 0%Z = (k, buf, Ok 3)) by reflexivity.
  split; [exact H|].
  destruct (decrypt_ok_layout unit unit unit op ks hm k buf 0%Z k buf 3 H)
    as (_ & _ & _ & data & Hd & _ & Hlen & _).
  assert (Hdata : data = buf).
  { change (buf = data ++ []) in Hd. rewrite app_nil_r in Hd. exact (eq_sym Hd). }
  rewrite Hdata in Hlen. exact Hlen.
Defined.

Lemma compute_key_hash_chain_witness :
  compute_key (fun _ => repeat Byte.x00 32) (letter "A") 16 (repeat Byte.x00 40) [] [] []
  = Ok (repeat Byte.x00 16, repeat Byte.x00 40).
Proof.
  rewrite (compute_key_hash_chain (fun _ => repeat Byte.x00 32) (letter "A") 16
             (repeat Byte.x00 40) [] [] []).
  - reflexivity.
  - intros m. reflexivity.
  - cbn. lia.
Defined.

Lemma new_from_integ_mismatch_witness :
  let a := Kex.mkAlgos unit (Kex.KexCurve25519 unit (Some tt) []) Kex.Ed25519
             Kex.CipherChaPoly Kex.CipherChaPoly Kex.IntegChaPoly Kex.IntegHmacSha256
             false true false in
  Keys_new_from (fun _ => repeat Byte.x00 32) (fun k : bytes => k) (fun k : bytes => k)
    (fun k iv : bytes => k ++ iv) [] [] [] a = Err Bug.
Proof.
  intros a.
  destruct (new_from_integ_mismatch bytes bytes bytes (fun _ => repeat Byte.x00 32)
              (fun k => k) (fun k => k) (fun k iv => k ++ iv) [] [] [] a
              (fun m => eq_refl)) as [(_ & _ & H) | (Hn & _)].
  - exact H.
  - exfalso. apply Hn. split; reflexivity.
Defined.

Lemma new_from_peers_agree_witness :
  let sha := fun (_ : bytes) => repeat Byte.x00 32 in
  let ac := Kex.mkAlgos unit (Kex.KexCurve25519 unit (Some tt) []) Kex.Ed25519
              Kex.CipherChaPoly Kex.CipherAes256Ctr Kex.IntegHmacSha256 Kex.IntegHmacSha256
              false true false in
  let asv := Kex.mkAlgos unit (Kex.KexCurve25519 unit (Some tt) []) Kex.Ed25519
               Kex.CipherAes256Ctr Kex.CipherChaPoly Kex.IntegHmacSha256 Kex.IntegHmacSha256
               false false false in
  exists kc ks,
    Keys_new_from sha (fun k : bytes => k) (fun k : bytes => k) (fun k iv : bytes => k ++ iv)
      [] [] [] ac = Ok kc /\
    Keys_new_from sha (fun k : bytes => k) (fun k : bytes => k) (fun k iv : bytes => k ++ iv)
      [] [] [] asv = Ok ks /\
    integ_enc kc = integ_dec ks /\ integ_enc ks = integ_dec kc.
Proof.
  intros sha ac asv. do 2 eexists.
  match goal with |- ?A /\ ?B /\ _ =>
    assert (H1 : A) by reflexivity; assert (H2 : B) by reflexivity end.
  split; [exact H1|]. split; [exact H2|].
  exact (proj2 (proj2 (new_from_peers_agree bytes bytes bytes sha (fun k => k) (fun k => k)
           (fun k iv => k ++ iv) [] [] [] ac asv _ _ (fun m => eq_refl) eq_refl eq_refl
           eq_refl eq_refl eq_refl eq_refl H1 H2))).
Defined.

End FramingFacts.

Module KexMoreFacts.
Import Kex.

Section KexMoreSec.
Variable Secret : Type.
Variable secret_pubkey : Secret -> bytes.
Variable agree : Secret -> bytes -> bytes.
Variable gen_secret : result Secret.
Variable random_cookie : result KexCookie.
Variable sha256 : bytes -> bytes.
Variable OUR_VERSION : bytes.
Variable PubKey Signature SignKey : Type.
Variable ser_pubkey : PubKey -> bytes.
Variable ser_kexinit : KexInit -> bytes.
Variable sig_verify : SigType -> PubKey -> bytes -> Signature -> result unit.
Variable valid_hostkey : PubKey -> result bool.
Variable hostkeys : result (list SignKey).
Variable can_sign : SignKey -> SigType -> bool.
Variable signkey_pubkey : SignKey -> PubKey.
Variable sign : SignKey -> bytes -> result Signature.
Variable Traf : Type.
Variable send : Traf -> Packet PubKey Signature -> result Traf.
Variable Keys : Type.
Variable Keys_derive : KexOutput -> bytes -> Algos Secret -> result Keys.
Variable traf_rekey : Traf -> Keys -> Traf.

(** X8: key exchange packets in the wrong state are refused: [KexDHInit]
    or [KexDHReply] outside [KexDH], and [NewKeys] outside [NewKeys], fail
    with [PacketWrong] and leave the state [Taken]; a [KexInit] when neither
    [Idle] nor [KexInitSent] fails with [PacketWrong] and keeps the state;
    a [KexDHInit] received by a client or a [KexDHReply] received by a server
    fails with [Bug] and keeps the state. *)
Lemma kex_unexpected_packets :
  (forall st q_c t, (forall a kh, st <> KexDH Secret a kh) ->
     handle_kexdhinit Secret agree sha256 PubKey Signature SignKey ser_pubkey
       hostkeys can_sign signkey_pubkey sign Traf send st q_c t = (Taken Secret, Err PacketWrong)) /\
  (forall st k_s q_s sig t, (forall a kh, st <> KexDH Secret a kh) ->
     handle_kexdhreply Secret agree sha256 PubKey Signature ser_pubkey sig_verify
       valid_hostkey Traf send st k_s q_s sig t = (Taken Secret, Err PacketWrong)) /\
  (forall st sid t, (forall o a, st <> NewKeys Secret o a) ->
     handle_newkeys Secret Traf Keys Keys_derive traf_rekey st sid t
     = (Taken Secret, sid, Err PacketWrong)) /\
  (forall st p is_cl conf rv t, st <> Idle Secret -> (forall c, st <> KexInitSent Secret c) ->
     handle_kexinit Secret secret_pubkey gen_secret random_cookie OUR_VERSION PubKey
       Signature ser_kexinit Traf send st p is_cl conf rv t = (st, Err PacketWrong)) /\
  (forall algos kh q_c t, is_client Secret algos = true ->
     handle_kexdhinit Secret agree sha256 PubKey Signature SignKey ser_pubkey
       hostkeys can_sign signkey_pubkey sign Traf send (KexDH Secret algos kh) q_c t
     = (KexDH Secret algos kh, Err Bug)) /\
  (forall algos kh k_s q_s sig t, is_client Secret algos = false ->
     handle_kexdhreply Secret agree sha256 PubKey Signature ser_pubkey sig_verify
       valid_hostkey Traf send (KexDH Secret algos kh) k_s q_s sig t
     = (KexDH Secret algos kh, Err Bug)).
Proof.
  split; [|split; [|split; [|split; [|split]]]].
  - intros st q_c t H. destruct st; try reflexivity. exfalso. eapply H. reflexivity.
  - intros st k_s q_s sig t H. destruct st; try reflexivity. exfalso. eapply H. reflexivity.
  - intros st sid t H. destruct st; try reflexivity. exfalso. eapply H. reflexivity.
  - intros st p is_cl conf rv t H1 H2. destruct st; try reflexivity.
    + exfalso. apply H1. reflexivity.
    + exfalso. eapply H2. reflexivity.
  - intros algos kh q_c t H. cbn. rewrite H. reflexivity.
  - intros algos kh k_s q_s sig t H. cbn. rewrite H. reflexivity.
Qed.

(** X9: a successful [KexCurve25519::secret] had a 32-byte peer point,
    removes our secret (keeping our public key) and changes nothing else in
    the algorithms; a second call on the result fails with [Bug]. *)
Lemma curve25519_secret_once algos theirs kh algos' out :
  KexCurve25519_secret Secret agree sha256 algos theirs kh = Ok (algos', out) ->
  List.length theirs = 32 /\
  kex_algo Secret algos' = KexCurve25519 Secret None (SharedSecret_pubkey Secret (kex_algo Secret algos)) /\
  algos' = set_kex_algo Secret algos (kex_algo Secret algos') /\
  (forall theirs' kh', KexCurve25519_secret Secret agree sha256 algos' theirs' kh' = Err Bug).
Proof.
  unfold KexCurve25519_secret. destruct (kex_algo Secret algos) as [ours pub] eqn:Ek.
  destruct ours as [s|]; cbn [ok_or bind]; [|discriminate].
  destruct (Nat.eqb (List.length theirs) 32) eqn:El; [|discriminate].
  intros H. injection H as <- <-. apply Nat.eqb_eq in El.
  split; [exact El|]. split; [reflexivity|]. split; [reflexivity|].
  intros theirs' kh'. reflexivity.
Qed.

(** X10: [KexCurve25519::secret] with our secret present and a peer point
    whose length is not 32 fails with [BadKex]. *)
Lemma curve25519_bad_point algos theirs kh s pub :
  kex_algo Secret algos = KexCurve25519 Secret (Some s) pub ->
  List.length theirs <> 32 ->
  KexCurve25519_secret Secret agree sha256 algos theirs kh = Err BadKex.
Proof.
  intros Ek Hl. unfold KexCurve25519_secret. rewrite Ek. cbn [ok_or bind].
  replace (Nat.eqb (List.length theirs) 32) with false
    by (symmetry; apply Nat.eqb_neq; exact Hl).
  reflexivity.
Qed.

(** X11: a successful [handle_kexinit] from [Idle] first sends our own
    [KexInit] with a fresh cookie, then negotiates the algorithms, sends the
    client's [KexDHInit] carrying our public key when we are the client
    (nothing more as the server), builds the exchange hash from that cookie
    and moves to [KexDH]. *)
Lemma kexinit_from_idle p is_cl conf rv t st' t' :
  handle_kexinit Secret secret_pubkey gen_secret random_cookie OUR_VERSION PubKey
    Signature ser_kexinit Traf send (Idle Secret) p is_cl conf rv t = (st', Ok t') ->
  exists c t1 algos kh,
    random_cookie = Ok c /\
    send t (PKexInit PubKey Signature (make_kexinit c conf)) = Ok t1 /\
    algo_negotiation Secret secret_pubkey gen_secret is_cl p conf = Ok algos /\
    (if is_cl
     then send t1 (PKexDHInit PubKey Signature (SharedSecret_pubkey Secret (kex_algo Secret algos)))
          = Ok t'
     else t' = t1) /\
    KexHash_new Secret OUR_VERSION ser_kexinit algos conf c rv p = Ok kh /\
    st' = KexDH Secret algos kh.
Proof.
  unfold handle_kexinit, send_kexinit.
  destruct random_cookie as [c|e]; [|discriminate].
  destruct (send t _) as [t1|e] eqn:Es; [|discriminate].
  destruct (algo_negotiation _ _ _ _ _ _) as [algos|e] eqn:Ea; [|discriminate].
  intros H.
  destruct is_cl.
  - cbn [make_kexdhinit bind] in H.
    destruct (send t1 _) as [t2|e] eqn:Es2; [|discriminate].
    destruct (KexHash_new _ _ _ _ _ _ _ _) as [kh|e] eqn:Ek; [|discriminate].
    injection H as <- <-. exists c, t1, algos, kh. repeat split; first [reflexivity | assumption].
  - destruct (KexHash_new _ _ _ _ _ _ _ _) as [kh|e] eqn:Ek; [|discriminate].
    injection H as <- <-. exists c, t1, algos, kh. repeat split; first [reflexivity | assumption].
Qed.

(** X12: when the server's [handle_kexdhinit] succeeds (no packet to
    discard), the algorithms are a server's, the first host key able to sign
    with the negotiated host signature algorithm signed the exchange hash,
    [KexDHReply] with that key's public part, our public point and the
    signature was sent, then [NewKeys]; our secret is consumed and the state
    is [NewKeys]. *)
Lemma server_kexdhinit_replies algos kh q_c t st' t' :
  discard_next Secret algos = false ->
  handle_kexdhinit Secret agree sha256 PubKey Signature SignKey ser_pubkey
    hostkeys can_sign signkey_pubkey sign Traf send (KexDH Secret algos kh) q_c t = (st', Ok t') ->
  exists keys hostkey sig t1 algos' out,
    is_client Secret algos = false /\
    hostkeys = Ok keys /\
    find (fun k => can_sign k (hostsig_algo Secret algos)) keys = Some hostkey /\
    sign hostkey (h out) = Ok sig /\
    send t (PKexDHReply PubKey Signature (signkey_pubkey hostkey)
              (SharedSecret_pubkey Secret (kex_algo Secret algos)) sig) = Ok t1 /\
    send t1 (PNewKeys PubKey Signature) = Ok t' /\
    kex_algo Secret algos' = KexCurve25519 Secret None (SharedSecret_pubkey Secret (kex_algo Secret algos)) /\
    st' = NewKeys Secret out algos'.
Proof.
  intros Hd. unfold handle_kexdhinit. rewrite Hd.
  destruct (is_client Secret algos) eqn:Ec; [discriminate|].
  unfold SharedSecret_handle_kexdhinit.
  destruct hostkeys as [keys|e]; cbn [bind]; [|discriminate].
  destruct (find _ keys) as [hk|] eqn:Ef; cbn [ok_or bind]; [|discriminate].
  unfold prefinish; cbn [bind].
  destruct (KexCurve25519_secret _ _ _ _ _ _) as [[algos' out]|e] eqn:Ek; cbn [bind]; [|discriminate].
  pose proof (curve25519_secret_once _ _ _ _ _ Ek) as (_ & Hk' & _).
  unfold send_kexdhreply. cbn [bind].
  destruct (sign hk (h out)) as [sig|e] eqn:Esg; cbn [bind]; [|discriminate].
  rewrite Hk'. cbn [SharedSecret_pubkey].
  destruct (send t _) as [t1|e] eqn:Es; cbn [bind]; [|discriminate].
  intros H. injection H as <- Hs2.
  exists keys, hk, sig, t1, algos', out.
  rewrite Hk' in *. auto 10.
Qed.

(** X13: negotiated algorithms record our role, and only a server whose peer
    listed "ext-info-c" in its kex names will send [ExtInfo]. *)
Lemma negotiated_role algos is_cl p conf :
  algo_negotiation Secret secret_pubkey gen_secret is_cl p conf = Ok algos ->
  is_client Secret algos = is_cl /\
  send_ext_info Secret algos = negb is_cl && str_mem SSH_NAME_EXT_INFO_C (kex p).
Proof.
  unfold algo_negotiation. intros H.
  repeat match goal with
  | H : Err _ = Ok _ |- _ => discriminate H
  | H : Ok _ = Ok _ |- _ => injection H as H
  | H : bind ?r _ = Ok _ |- _ => destruct r eqn:?; cbn [bind] in H; [|discriminate H]
  | H : (if ?c then _ else _) = Ok _ |- _ => destruct c eqn:?
  | H : match ?x with _ => _ end = Ok _ |- _ => destruct x eqn:?
  end.
  all: subst algos; cbn [is_client send_ext_info]; split; [reflexivity|].
  all: repeat match goal with
       | H : has_algo _ _ = Ok _ |- _ => unfold has_algo in H; injection H as H
       end; subst; reflexivity.
Qed.
(** X14: when the client's [handle_kexdhreply] succeeds (no packet to
    discard), the algorithms are a client's, the shared secret was computed
    from the server's point over the exchange hash extended with the host
    key, our point and the server's point, the server's signature over the
    exchange hash verified, the behaviour accepted the host key, [NewKeys]
    was sent and the state is [NewKeys]. *)
Lemma client_kexdhreply_verified algos kh k_s q_s sig t st' t' :
  discard_next Secret algos = false ->
  handle_kexdhreply Secret agree sha256 PubKey Signature ser_pubkey sig_verify
    valid_hostkey Traf send (KexDH Secret algos kh) k_s q_s sig t = (st', Ok t') ->
  exists algos' out,
    is_client Secret algos = true /\
    KexCurve25519_secret Secret agree sha256 algos q_s
      (hash_slice (hash_slice (hash_ser_length kh (ser_pubkey k_s))
         (SharedSecret_pubkey Secret (kex_algo Secret algos))) q_s) = Ok (algos', out) /\
    sig_verify (hostsig_algo Secret algos) k_s (h out) sig = Ok tt /\
    valid_hostkey k_s = Ok true /\
    send t (PNewKeys PubKey Signature) = Ok t' /\
    st' = NewKeys Secret out algos'.
Proof.
  intros Hd. unfold handle_kexdhreply. rewrite Hd.
  destruct (is_client Secret algos) eqn:Ec; [|discriminate].
  unfold SharedSecret_handle_kexdhreply, prefinish. cbn [bind negb].
  destruct (KexCurve25519_secret _ _ _ _ _ _) as [[algos' out]|e] eqn:Ek; cbn [bind]; [|discriminate].
  pose proof (curve25519_secret_once _ _ _ _ _ Ek) as (_ & _ & Ha & _).
  rewrite Ha. cbn [hostsig_algo set_kex_algo]. rewrite <- Ha.
  destruct (sig_verify _ _ _ _) as [[]|e] eqn:Ev; cbn [bind]; [|discriminate].
  destruct (valid_hostkey k_s) as [[|]|e] eqn:Eh; try discriminate.
  intros H. injection H as <- Hs.
  exists algos', out. repeat split; assumption.
Qed.

End KexMoreSec.

Lemma curve25519_secret_once_witness :
  let a := mkAlgos unit (KexCurve25519 unit (Some tt) [Byte.x01]) Ed25519 CipherChaPoly
             CipherChaPoly IntegChaPoly IntegChaPoly false true false in
  exists algos' out,
    KexCurve25519_secret unit (fun _ _ => [Byte.x02]) (fun x => x) a (repeat Byte.x00 32) []
    = Ok (algos', out) /\
    KexCurve25519_secret unit (fun _ _ => [Byte.x02]) (fun x => x) algos' (repeat Byte.x00 32) []
    = Err Bug.
Proof.
  intros a. do 2 eexists.
  match goal with |- ?A /\ _ => assert (H1 : A) by reflexivity end.
  split; [exact H1|].
  exact (proj2 (proj2 (proj2 (curve25519_secret_once unit (fun _ _ => [Byte.x02])
           (fun x => x) a (repeat Byte.x00 32) [] _ _ H1))) (repeat Byte.x00 32) []).
Defined.

Lemma curve25519_bad_point_witness :
  let a := mkAlgos unit (KexCurve25519 unit (Some tt) [Byte.x01]) Ed25519 CipherChaPoly
             CipherChaPoly IntegChaPoly IntegChaPoly false true false in
  kex_algo unit a = KexCurve25519 unit (Some tt) [Byte.x01] /\
  KexCurve25519_secret unit (fun _ _ => [Byte.x02]) (fun x => x) a [Byte.x00] []
  = Err BadKex.
Proof.
  intros a. split; [reflexivity|].
  apply (curve25519_bad_point unit (fun _ _ => [Byte.x02]) (fun x => x) a [Byte.x00] []
           tt [Byte.x01]).
  - reflexivity.
  - intros H. discriminate H.
Defined.

Lemma kexinit_from_idle_witness :
  let p := mkKexInit [] [SSH_NAME_CURVE25519] [SSH_NAME_ED25519] [SSH_NAME_CHAPOLY]
             [SSH_NAME_CHAPOLY] [] [] [SSH_NAME_NONE] [SSH_NAME_NONE] [] [] false 0 in
  let conf := AlgoConfig_new false in
  exists st' algos,
    handle_kexinit unit (fun _ => []) (Ok tt) (Ok []) [] unit unit (fun _ => []) unit
      (fun t _ => Ok t) (Idle unit) p false conf (Some []) tt = (st', Ok tt) /\
    algo_negotiation unit (fun _ => []) (Ok tt) false p conf = Ok algos.
Proof.
  intros p conf. eexists.
  match goal with |- exists _, ?A /\ _ => assert (H : A) by reflexivity end.
  destruct (kexinit_from_idle unit (fun _ => []) (Ok tt) (Ok []) [] unit unit (fun _ => [])
              unit (fun t _ => Ok t) p false conf (Some []) tt _ tt H)
    as (c & t1 & algos & kh & _ & _ & Hn & _).
  exists algos. split; [exact H | exact Hn].
Defined.

Lemma server_kexdhinit_replies_witness :
  let a := mkAlgos unit (KexCurve25519 unit (Some tt) []) Ed25519 CipherChaPoly
             CipherChaPoly IntegChaPoly IntegChaPoly false false false in
  exists st',
    handle_kexdhinit unit (fun _ _ => []) (fun x => x) unit unit unit (fun _ => [])
      (Ok [tt]) (fun _ _ => true) (fun k => k) (fun _ _ => Ok tt) unit (fun t _ => Ok t)
      (KexDH unit a []) (repeat Byte.x00 32) tt = (st', Ok tt) /\
    exists out algos',
      st' = NewKeys unit out algos' /\ kex_algo unit algos' = KexCurve25519 unit None [].
Proof.
  intros a. eexists.
  match goal with |- ?A /\ _ => assert (H : A) by reflexivity end.
  split; [exact H|].
  destruct (server_kexdhinit_replies unit (fun _ _ => []) (fun x => x) unit unit unit
              (fun _ => []) (Ok [tt]) (fun _ _ => true) (fun k => k) (fun _ _ => Ok tt)
              unit (fun t _ => Ok t) a [] (repeat Byte.x00 32) tt _ tt eq_refl H)
    as (keys & hostkey & sig & t1 & algos' & out & _ & _ & _ & _ & _ & _ & Hk & Hst).
  exists out, algos'. split; [exact Hst | exact Hk].
Defined.

Lemma negotiated_role_witness :
  let p := mkKexInit [] [SSH_NAME_CURVE25519; SSH_NAME_EXT_INFO_C] [SSH_NAME_ED25519]
             [SSH_NAME_CHAPOLY] [SSH_NAME_CHAPOLY] [] [] [SSH_NAME_NONE] [SSH_NAME_NONE]
             [] [] false 0 in
  exists algos,
    algo_negotiation unit (fun _ => []) (Ok tt) false p (AlgoConfig_new false) = Ok algos /\
    is_client unit algos = false /\ send_ext_info unit algos = true.
Proof.
  intros p. eexists.
  match goal with |- ?A /\ _ => assert (H : A) by reflexivity end.
  split; [exact H|].
  destruct (negotiated_role unit (fun _ => []) (Ok tt) _ false p (AlgoConfig_new false) H)
    as [Hc He].
  split; [exact Hc|]. rewrite He. reflexivity.
Defined.

Lemma client_kexdhreply_verified_witness :
  let a := mkAlgos unit (KexCurve25519 unit (Some tt) []) Ed25519 CipherChaPoly
             CipherChaPoly IntegChaPoly IntegChaPoly false true false in
  exists st',
    handle_kexdhreply unit (fun _ _ => []) (fun x => x) unit unit (fun _ => [])
      (fun _ _ _ _ => Ok tt) (fun _ => Ok true) unit (fun t _ => Ok t)
      (KexDH unit a []) tt (repeat Byte.x00 32) tt tt = (st', Ok tt) /\
    exists algos' out, st' = NewKeys unit out algos'.
Proof.
  intros a. eexists.
  match goal with |- ?A /\ _ => assert (H : A) by reflexivity end.
  split; [exact H|].
  destruct (client_kexdhreply_verified unit (fun _ _ => []) (fun x => x) unit unit
              (fun _ => []) (fun _ _ _ _ => Ok tt) (fun _ => Ok true) unit (fun t _ => Ok t)
              a [] tt (repeat Byte.x00 32) tt tt _ tt eq_refl H)
    as (algos' & out & _ & _ & _ & _ & _ & Hst).
  exists algos', out. exact Hst.
Defined.
End KexMoreFacts.

Module CliAuthFlowFacts.
Import CliAuth CliAuthFlow.

Section CliAuthFlowFactsSec.

Variable SignKey PubKey OwnedSig Signature : Type.
Variable pubkey : SignKey -> PubKey.
Variable is_agent : SignKey -> bool.
Variable AuthSigMsg SessId : Type.
Variable AuthSigMsg_new : Packet PubKey Signature -> SessId -> AuthSigMsg.
Variable key_sign : SignKey -> AuthSigMsg -> ParseContext -> result OwnedSig.
Variable MethodPubKey_new : PubKey -> option OwnedSig -> result (MethodPubKey PubKey Signature).
Variable pubkey_eqb : PubKey -> PubKey -> bool.
Variable Traf : Type.
Variable send : Traf -> Packet PubKey Signature -> result Traf.
Variable Beh : Type.
Variable username_cb : Beh -> Beh * BhResult string.
Variable auth_password_cb : Beh -> string -> Beh * string * BhResult bool.
Variable next_authkey_cb : Beh -> Beh * BhResult (option SignKey).
Variable agent_sign_cb : Beh -> SignKey -> AuthSigMsg -> Beh * BhResult OwnedSig.
Variable bh_error_into : Error.

Lemma pubkey_loop_username (c : CliAuth SignKey) (b : Beh) :
  username SignKey (fst (pubkey_loop next_authkey_cb c b)) = username SignKey c.
Proof.
  unfold pubkey_loop, make_pubkey_req. destruct (try_pubkey SignKey c); [|reflexivity].
  destruct (next_authkey_cb b) as [b' r].
  destruct (match r with BhOk k => k | BhFail => None end); reflexivity.
Qed.

Lemma req_packet_auth_type (req : Req SignKey) (u : string) (ctx ctx' : ParseContext)
    (s : option OwnedSig) (r : result (Packet PubKey Signature)) :
  req_packet pubkey MethodPubKey_new req u ctx s = (ctx', r) ->
  cli_auth_type ctx' = Some (match req with
                             | CliAuth.PubKey _ _ => AuthPubKey
                             | Password _ _ => AuthPassword
                             end).
Proof.
  destruct req as [pw|key]; cbn [req_packet].
  - intros H. injection H as <- _. reflexivity.
  - destruct (MethodPubKey_new (pubkey key) s); intros H; injection H as <- _; reflexivity.
Qed.

(** X15: [CliAuth::progress] leaves the state out of [Unstarted] whatever
    its outcome, so any later call sends nothing and succeeds: the opening
    requests are sent at most once. *)
Theorem progress_runs_once (c : CliAuth SignKey) (t : Traf) (b : Beh) :
  let '(c1, t1, b1, r) := progress send username_cb bh_error_into c t b in
  state SignKey c1 <> Unstarted SignKey /\
  progress send username_cb bh_error_into c1 t1 b1 = (c1, t1, b1, Ok tt).
Proof.
  unfold progress. destruct (state SignKey c) eqn:Hs.
  - cbn [state set_state]. destruct (username_cb b) as [b1 [u|]].
    + cbn [state set_state set_username].
      destruct (send t _) as [t1|e]; [destruct (send t1 _) as [t2|e]|];
        split; (discriminate || reflexivity).
    + split; (discriminate || reflexivity).
  - rewrite Hs. split; (discriminate || reflexivity).
  - rewrite Hs. split; (discriminate || reflexivity).
  - rewrite Hs. split; (discriminate || reflexivity).
Qed.

(** X16: the first [progress] from [Unstarted], with a username from the
    behaviour, sends [ServiceRequest "ssh-userauth"] and then a
    [UserauthRequest] for that user, service "ssh-connection" and method
    [none], stores the username and moves to [MethodQuery]. *)
Theorem progress_first_call (c : CliAuth SignKey) (t t1 t2 : Traf) (b b1 : Beh) (u : string) :
  state SignKey c = Unstarted SignKey ->
  username_cb b = (b1, BhOk u) ->
  send t (PServiceRequest SSH_SERVICE_USERAUTH) = Ok t1 ->
  send t1 (PUserauthRequest u SSH_SERVICE_CONNECTION MNone) = Ok t2 ->
  progress send username_cb bh_error_into c t b
  = (mkCliAuth SignKey (MethodQuery SignKey) u (try_password SignKey c)
       (try_pubkey SignKey c) (allow_rsa_sha2 SignKey c), t2, b1, Ok tt).
Proof.
  intros Hs Hu H1 H2. unfold progress. rewrite Hs, Hu, H1. cbn [username set_username].
  rewrite H2. reflexivity.
Qed.

(** X17: when the behaviour's [username] fails on the first [progress], the
    state is already [MethodQuery], nothing is sent and the error is
    returned; later calls send nothing, so authentication never starts. *)
Theorem progress_username_fails (c : CliAuth SignKey) (t : Traf) (b b1 : Beh) :
  state SignKey c = Unstarted SignKey ->
  username_cb b = (b1, BhFail) ->
  progress send username_cb bh_error_into c t b
  = (set_state SignKey c (MethodQuery SignKey), t, b1, Err bh_error_into) /\
  forall t' b',
  progress send username_cb bh_error_into (set_state SignKey c (MethodQuery SignKey)) t' b'
  = (set_state SignKey c (MethodQuery SignKey), t', b', Ok tt).
Proof.
  intros Hs Hu. unfold progress. rewrite Hs, Hu. split; reflexivity.
Qed.

(** X18: on [UserauthFailure], when neither public keys (not offered by the
    server, or exhausted) nor passwords (not offered, or declined before) can
    be tried, the client sends nothing, makes no behaviour call, goes
    [Idle], clears the pending method hint and fails with
    "No authentication methods left". *)
Theorem failure_no_methods_left (methods : Kex.NameList) (c : CliAuth SignKey)
    (ctx : ParseContext) (t : Traf) (b : Beh) :
  (try_pubkey SignKey c = false \/ Kex.str_mem SSH_AUTHMETHOD_PUBLICKEY methods = false) ->
  (try_password SignKey c = false \/ Kex.str_mem SSH_AUTHMETHOD_PASSWORD methods = false) ->
  failure pubkey MethodPubKey_new send auth_password_cb next_authkey_cb methods c ctx t b
  = (set_state SignKey c (Idle SignKey), clear_auth_type ctx, t, b,
     Err (BehaviourError "No authentication methods left")).
Proof.
  intros Hk Hp. unfold failure, Kex.has_algo.
  assert (Hl : (if Kex.str_mem SSH_AUTHMETHOD_PUBLICKEY methods
                then pubkey_loop next_authkey_cb (set_state SignKey c (Idle SignKey)) b
                else (set_state SignKey c (Idle SignKey), b))
               = (set_state SignKey c (Idle SignKey), b)).
  { destruct (Kex.str_mem SSH_AUTHMETHOD_PUBLICKEY methods) eqn:Hm; [|reflexivity].
    destruct Hk as [Hk|Hk]; [|discriminate Hk].
    unfold pubkey_loop. cbn [try_pubkey set_state]. rewrite Hk. reflexivity. }
  rewrite Hl. cbn [state set_state is_idle try_password andb].
  destruct (try_password SignKey c); [destruct Hp as [Hp|Hp]; [discriminate Hp|rewrite Hp]|];
    reflexivity.
Qed.

(** X19: on [UserauthFailure] listing "publickey", while keys remain and the
    behaviour gives a key, the client sends a [UserauthRequest] for that
    key's public part without a signature, sets the method hint to
    [PubKey], moves to [Request] with that key, and does not ask for a
    password. *)
Theorem failure_sends_pubkey_probe (methods : Kex.NameList) (c : CliAuth SignKey)
    (ctx : ParseContext) (t t1 : Traf) (b b1 : Beh) (key : SignKey)
    (m : MethodPubKey PubKey Signature) :
  Kex.str_mem SSH_AUTHMETHOD_PUBLICKEY methods = true ->
  try_pubkey SignKey c = true ->
  next_authkey_cb b = (b1, BhOk (Some key)) ->
  MethodPubKey_new (pubkey key) None = Ok m ->
  send t (PUserauthRequest (username SignKey c) SSH_SERVICE_CONNECTION (MPubKey m)) = Ok t1 ->
  failure pubkey MethodPubKey_new send auth_password_cb next_authkey_cb methods c ctx t b
  = (set_state SignKey c (Request SignKey (CliAuth.PubKey SignKey key)),
     set_cli_auth_type (clear_auth_type ctx) (Some AuthPubKey), t1, b1, Ok tt).
Proof.
  intros Hm Hk Hn Hnew Hsend. unfold failure, Kex.has_algo. rewrite Hm.
  unfold pubkey_loop, make_pubkey_req. cbn [try_pubkey set_state]. rewrite Hk, Hn.
  cbn [state set_state is_idle andb username req_packet]. rewrite Hnew.
  cbn [username]. rewrite Hsend. reflexivity.
Qed.

(** X20: on [UserauthFailure] listing "publickey" and "password", when the
    behaviour has no further key (or its [next_authkey] fails), the client
    stops trying keys and, if passwords are still allowed and the behaviour
    gives one, sends a password [UserauthRequest] (change flag false), sets
    the method hint to [Password] and moves to [Request] with it. *)
Theorem failure_password_after_keys (methods : Kex.NameList) (c : CliAuth SignKey)
    (ctx : ParseContext) (t t1 : Traf) (b b1 b2 : Beh) (rk : BhResult (option SignKey))
    (pw : string) :
  Kex.str_mem SSH_AUTHMETHOD_PUBLICKEY methods = true ->
  try_pubkey SignKey c = true ->
  next_authkey_cb b = (b1, rk) ->
  (forall key, rk <> BhOk (Some key)) ->
  try_password SignKey c = true ->
  Kex.str_mem SSH_AUTHMETHOD_PASSWORD methods = true ->
  auth_password_cb b1 EmptyString = (b2, pw, BhOk true) ->
  send t (PUserauthRequest (username SignKey c) SSH_SERVICE_CONNECTION (MPassword false pw))
  = Ok t1 ->
  failure pubkey MethodPubKey_new send auth_password_cb next_authkey_cb methods c ctx t b
  = (mkCliAuth SignKey (Request SignKey (Password SignKey pw)) (username SignKey c)
       true false (allow_rsa_sha2 SignKey c),
     set_cli_auth_type (clear_auth_type ctx) (Some AuthPassword), t1, b2, Ok tt).
Proof.
  intros Hm Hk Hn Hrk Hp Hpm Hpw Hsend. unfold failure, Kex.has_algo. rewrite Hm.
  unfold pubkey_loop, make_pubkey_req. cbn [try_pubkey set_state]. rewrite Hk, Hn.
  assert (Hnone : match rk with BhOk k => k | BhFail => None end = None).
  { destruct rk as [[k|]|]; [exfalso; exact (Hrk k eq_refl)|reflexivity|reflexivity]. }
  rewrite Hnone. cbn [state set_state set_try_pubkey is_idle try_password andb].
  rewrite Hp, Hpm. unfold make_password_req. rewrite Hpw.
  cbn [state set_state set_try_pubkey username req_packet]. rewrite Hsend.
  unfold set_state, set_try_pubkey.
  cbn [state username try_password try_pubkey allow_rsa_sha2]. rewrite Hp. reflexivity.
Qed.

(** X21: on [UserauthFailure] with no key to try, when the behaviour's
    [auth_password] fails the client returns "No password returned" and
    still allows passwords later; when it declines, the client stops trying
    passwords and fails with "No authentication methods left"; nothing is
    sent in either case. *)
Theorem failure_password_refused (methods : Kex.NameList) (c : CliAuth SignKey)
    (ctx : ParseContext) (t : Traf) (b b1 : Beh) (pw : string) (r : BhResult bool) :
  (try_pubkey SignKey c = false \/ Kex.str_mem SSH_AUTHMETHOD_PUBLICKEY methods = false) ->
  try_password SignKey c = true ->
  Kex.str_mem SSH_AUTHMETHOD_PASSWORD methods = true ->
  auth_password_cb b EmptyString = (b1, pw, r) ->
  r <> BhOk true ->
  failure pubkey MethodPubKey_new send auth_password_cb next_authkey_cb methods c ctx t b
  = match r with
    | BhFail =>
        (set_state SignKey c (Idle SignKey), clear_auth_type ctx, t, b1,
         Err (BehaviourError "No password returned"))
    | _ =>
        (mkCliAuth SignKey (Idle SignKey) (username SignKey c) false (try_pubkey SignKey c)
           (allow_rsa_sha2 SignKey c), clear_auth_type ctx, t, b1,
         Err (BehaviourError "No authentication methods left"))
    end.
Proof.
  intros Hk Hp Hpm Hpw Hr. unfold failure, Kex.has_algo.
  assert (Hl : (if Kex.str_mem SSH_AUTHMETHOD_PUBLICKEY methods
                then pubkey_loop next_authkey_cb (set_state SignKey c (Idle SignKey)) b
                else (set_state SignKey c (Idle SignKey), b))
               = (set_state SignKey c (Idle SignKey), b)).
  { destruct (Kex.str_mem SSH_AUTHMETHOD_PUBLICKEY methods) eqn:Hm; [|reflexivity].
    destruct Hk as [Hk|Hk]; [|discriminate Hk].
    unfold pubkey_loop. cbn [try_pubkey set_state]. rewrite Hk. reflexivity. }
  rewrite Hl. cbn [state set_state is_idle try_password andb]. rewrite Hp, Hpm.
  unfold make_password_req. rewrite Hpw.
  destruct r as [[|]|]; [exfalso; exact (Hr eq_refl)|reflexivity|reflexivity].
Qed.

(** X22: whenever [CliAuth::failure] succeeds, the new state is [Request]
    with some request, the username is unchanged, exactly the packet built
    from that request without a signature was sent, and the parse context's
    method hint names that request's method. *)
Theorem failure_ok_sent_request (methods : Kex.NameList) (c c1 : CliAuth SignKey)
    (ctx ctx1 : ParseContext) (t t1 : Traf) (b b1 : Beh) (u : unit) :
  failure pubkey MethodPubKey_new send auth_password_cb next_authkey_cb methods c ctx t b
  = (c1, ctx1, t1, b1, Ok u) ->
  exists req p,
    state SignKey c1 = Request SignKey req /\
    username SignKey c1 = username SignKey c /\
    req_packet pubkey MethodPubKey_new req (username SignKey c) (clear_auth_type ctx) None
    = (ctx1, Ok p) /\
    send t p = Ok t1 /\
    cli_auth_type ctx1 = Some (match req with
                               | CliAuth.PubKey _ _ => AuthPubKey
                               | Password _ _ => AuthPassword
                               end).
Proof.
  intros H. unfold failure in H.
  destruct (Kex.has_algo methods SSH_AUTHMETHOD_PUBLICKEY) as [hp|e]; [|discriminate H].
  destruct (if hp then pubkey_loop next_authkey_cb (set_state SignKey c (Idle SignKey)) b
            else (set_state SignKey c (Idle SignKey), b)) as [c2 b2] eqn:Hcb.
  assert (Hu2 : username SignKey c2 = username SignKey c).
  { destruct hp.
    - change c2 with (fst (c2, b2)). rewrite <- Hcb, pubkey_loop_username. reflexivity.
    - injection Hcb as <- _. reflexivity. }
  destruct (if is_idle (state SignKey c2) && try_password SignKey c2
            then Kex.has_algo methods SSH_AUTHMETHOD_PASSWORD else Ok false)
    as [cond|e]; [|discriminate H].
  destruct (if cond then _ else _) as [[c3 b3] r3] eqn:Hstep in H.
  assert (Hu3 : username SignKey c3 = username SignKey c2).
  { destruct cond.
    - destruct (make_password_req auth_password_cb b2) as [b' [[req|]|e]];
        injection Hstep as <- _ _; reflexivity.
    - injection Hstep as <- _ _; reflexivity. }
  destruct r3 as [?|e]; [|discriminate H].
  destruct (state SignKey c3) as [| |last_req|] eqn:Hs3; try discriminate H.
  destruct (req_packet pubkey MethodPubKey_new last_req (username SignKey c3)
              (clear_auth_type ctx) None) as [ctx' r] eqn:Hrp.
  destruct r as [p|e]; [|discriminate H].
  destruct (send t p) as [t'|e] eqn:Hsd; [|discriminate H].
  injection H as Hc Hctx Ht _ _. subst c1 ctx1 t1.
  pose proof (req_packet_auth_type _ _ _ _ _ _ Hrp) as Hty.
  rewrite Hu3, Hu2 in Hrp.
  exists last_req, p. repeat split; congruence.
Qed.

(** X23: a [UserauthPkOk] received when the client is not waiting on a
    public key request, or that names another key than the one requested,
    fails with [SSHProtoError], sends nothing and changes nothing. *)
Theorem auth_pkok_rejects (pkok : UserauthPkOk PubKey) (sid : SessId) (c : CliAuth SignKey)
    (ctx : ParseContext) (t : Traf) (b : Beh) :
  (forall key, state SignKey c = Request SignKey (CliAuth.PubKey SignKey key) ->
               pubkey_eqb (pubkey key) (pkok_key pkok) = false) ->
  auth_pkok pubkey is_agent AuthSigMsg_new key_sign MethodPubKey_new pubkey_eqb send
    agent_sign_cb bh_error_into pkok sid c ctx t b
  = (c, ctx, t, b, Err SSHProtoError).
Proof.
  intros H. unfold auth_pkok.
  destruct (state SignKey c) as [| |[pw|key]|] eqn:Hs; try reflexivity.
  rewrite (H key eq_refl). reflexivity.
Qed.

(** X24: on a [UserauthPkOk] for the requested key, the client signs the
    request for that key with the signature left out, in a parse context
    with [method_pubkey_force_sig_bool] set (through the agent for agent
    keys), sends the request again carrying the signature and sets the
    method hint to [PubKey]. *)
Theorem auth_pkok_signs_and_sends (pkok : UserauthPkOk PubKey) (sid : SessId)
    (c : CliAuth SignKey) (ctx : ParseContext) (t t1 : Traf) (b b1 : Beh) (key : SignKey)
    (m0 m1 : MethodPubKey PubKey Signature) (s : OwnedSig) :
  state SignKey c = Request SignKey (CliAuth.PubKey SignKey key) ->
  pubkey_eqb (pubkey key) (pkok_key pkok) = true ->
  MethodPubKey_new (pubkey key) None = Ok m0 ->
  (let msg := AuthSigMsg_new
       (PUserauthRequest (username SignKey c) SSH_SERVICE_CONNECTION
          (MPubKey (mkMethodPubKey (sig_algo m0) (mpk_pubkey m0) None))) sid in
   if is_agent key then agent_sign_cb b key msg = (b1, BhOk s)
   else key_sign key msg force_sig_ctx = Ok s /\ b1 = b) ->
  MethodPubKey_new (pubkey key) (Some s) = Ok m1 ->
  send t (PUserauthRequest (username SignKey c) SSH_SERVICE_CONNECTION (MPubKey m1)) = Ok t1 ->
  auth_pkok pubkey is_agent AuthSigMsg_new key_sign MethodPubKey_new pubkey_eqb send
    agent_sign_cb bh_error_into pkok sid c ctx t b
  = (c, set_cli_auth_type ctx (Some AuthPubKey), t1, b1, Ok tt) /\
  method_pubkey_force_sig_bool force_sig_ctx = true.
Proof.
  intros Hs Heq Hm0 Hsig Hm1 Hsend. split; [|reflexivity].
  unfold auth_pkok. rewrite Hs, Heq. cbn [negb req_packet]. rewrite Hm0.
  unfold auth_sig_msg. cbv zeta in Hsig.
  destruct (is_agent key).
  - rewrite Hsig. cbn [req_packet]. rewrite Hm1. rewrite Hsend. reflexivity.
  - destruct Hsig as [Hsig ->]. rewrite Hsig. cbn [req_packet]. rewrite Hm1, Hsend.
    reflexivity.
Qed.

End CliAuthFlowFactsSec.

Lemma progress_first_call_witness :
  let send := fun (t : list (Packet nat nat)) p => @Ok (list (Packet nat nat)) (t ++ [p]) in
  let username_cb := fun (b : list string) => (b, BhOk "alice"%string) in
  state nat (CliAuth_new nat) = Unstarted nat /\
  progress send username_cb Bug (CliAuth_new nat) [] []
  = (mkCliAuth nat (MethodQuery nat) "alice" true true false,
     [PServiceRequest SSH_SERVICE_USERAUTH;
      PUserauthRequest "alice" SSH_SERVICE_CONNECTION MNone], [], Ok tt).
Proof.
  intros send username_cb. split; [reflexivity|].
  eapply progress_first_call; reflexivity.
Defined.

Lemma progress_username_fails_witness :
  let send := fun (t : list (Packet nat nat)) p => @Ok (list (Packet nat nat)) (t ++ [p]) in
  let username_cb := fun (b : list string) => (b, @BhFail string) in
  progress send username_cb Bug (CliAuth_new nat) [] []
  = (set_state nat (CliAuth_new nat) (MethodQuery nat), [], [], Err Bug) /\
  progress send username_cb Bug (set_state nat (CliAuth_new nat) (MethodQuery nat)) [] []
  = (set_state nat (CliAuth_new nat) (MethodQuery nat), [], [], Ok tt).
Proof.
  intros send username_cb.
  assert (Hs : state nat (CliAuth_new nat) = Unstarted nat) by reflexivity.
  assert (Hu : username_cb [] = ([], BhFail)) by reflexivity.
  destruct (progress_username_fails nat nat nat (list (Packet nat nat)) send (list string)
              username_cb Bug (CliAuth_new nat) [] [] [] Hs Hu) as [H1 H2].
  split; [exact H1|exact (H2 [] [])].
Defined.

Lemma failure_no_methods_left_witness :
  let send := fun (t : list (Packet nat nat)) p => @Ok (list (Packet nat nat)) (t ++ [p]) in
  let mpk_new := fun (pk : nat) (s : option nat) =>
                   @Ok (MethodPubKey nat nat) (mkMethodPubKey "ssh-ed25519" pk s) in
  let pw_cb := fun (b : list string) (_ : string) => (b, "hunter2"%string, BhOk true) in
  let key_cb := fun (b : list string) => (b, BhOk (Some 1)) in
  let c := mkCliAuth nat (MethodQuery nat) "alice" false false false in
  failure (fun k : nat => k) mpk_new send pw_cb key_cb
    [SSH_AUTHMETHOD_PUBLICKEY; SSH_AUTHMETHOD_PASSWORD] c ParseContext_new [] []
  = (set_state nat c (Idle nat), clear_auth_type ParseContext_new, [], [],
     Err (BehaviourError "No authentication methods left")).
Proof.
  intros send mpk_new pw_cb key_cb c.
  eapply failure_no_methods_left; left; reflexivity.
Defined.

Lemma failure_sends_pubkey_probe_witness :
  let send := fun (t : list (Packet nat nat)) p => @Ok (list (Packet nat nat)) (t ++ [p]) in
  let mpk_new := fun (pk : nat) (s : option nat) =>
                   @Ok (MethodPubKey nat nat) (mkMethodPubKey "ssh-ed25519" pk s) in
  let pw_cb := fun (b : list string) (_ : string) => (b, "hunter2"%string, BhOk true) in
  let key_cb := fun (b : list string) => (b, BhOk (Some 1)) in
  let c := mkCliAuth nat (MethodQuery nat) "alice" true true false in
  failure (fun k : nat => k) mpk_new send pw_cb key_cb
    [SSH_AUTHMETHOD_PUBLICKEY; SSH_AUTHMETHOD_PASSWORD] c ParseContext_new [] []
  = (set_state nat c (Request nat (CliAuth.PubKey nat 1)),
     set_cli_auth_type (clear_auth_type ParseContext_new) (Some AuthPubKey),
     [PUserauthRequest "alice" SSH_SERVICE_CONNECTION
        (MPubKey (mkMethodPubKey "ssh-ed25519" 1 None))], [], Ok tt).
Proof.
  intros send mpk_new pw_cb key_cb c.
  eapply failure_sends_pubkey_probe; reflexivity.
Defined.

Lemma failure_password_after_keys_witness :
  let send := fun (t : list (Packet nat nat)) p => @Ok (list (Packet nat nat)) (t ++ [p]) in
  let mpk_new := fun (pk : nat) (s : option nat) =>
                   @Ok (MethodPubKey nat nat) (mkMethodPubKey "ssh-ed25519" pk s) in
  let pw_cb := fun (b : list string) (_ : string) => (b, "hunter2"%string, BhOk true) in
  let key_cb := fun (b : list string) => (b, @BhFail (option nat)) in
  let c := mkCliAuth nat (MethodQuery nat) "alice" true true false in
  failure (fun k : nat => k) mpk_new send pw_cb key_cb
    [SSH_AUTHMETHOD_PUBLICKEY; SSH_AUTHMETHOD_PASSWORD] c ParseContext_new [] []
  = (mkCliAuth nat (Request nat (Password nat "hunter2")) "alice" true false false,
     set_cli_auth_type (clear_auth_type ParseContext_new) (Some AuthPassword),
     [PUserauthRequest "alice" SSH_SERVICE_CONNECTION (MPassword false "hunter2")], [],
     Ok tt).
Proof.
  intros send mpk_new pw_cb key_cb c.
  eapply failure_password_after_keys;
    [reflexivity|reflexivity|reflexivity|intros k Hk; discriminate Hk
    |reflexivity|reflexivity|reflexivity|reflexivity].
Defined.

Lemma failure_password_refused_witness :
  let send := fun (t : list (Packet nat nat)) p => @Ok (list (Packet nat nat)) (t ++ [p]) in
  let mpk_new := fun (pk : nat) (s : option nat) =>
                   @Ok (MethodPubKey nat nat) (mkMethodPubKey "ssh-ed25519" pk s) in
  let pw_cb := fun (b : list string) (_ : string) => (b, EmptyString, BhOk false) in
  let key_cb := fun (b : list string) => (b, BhOk (Some 1)) in
  let c := mkCliAuth nat (MethodQuery nat) "alice" true false false in
  failure (fun k : nat => k) mpk_new send pw_cb key_cb
    [SSH_AUTHMETHOD_PUBLICKEY; SSH_AUTHMETHOD_PASSWORD] c ParseContext_new [] []
  = (mkCliAuth nat (Idle nat) "alice" false false false, clear_auth_type ParseContext_new,
     [], [], Err (BehaviourError "No authentication methods left")).
Proof.
  intros send mpk_new pw_cb key_cb c.
  exact (failure_password_refused nat nat nat nat (fun k : nat => k) mpk_new
           (list (Packet nat nat)) send (list string) pw_cb key_cb
           [SSH_AUTHMETHOD_PUBLICKEY; SSH_AUTHMETHOD_PASSWORD] c ParseContext_new [] [] []
           EmptyString (BhOk false) (or_introl eq_refl) eq_refl eq_refl eq_refl
           ltac:(discriminate)).
Defined.

Lemma failure_ok_sent_request_witness :
  let send := fun (t : list (Packet nat nat)) p => @Ok (list (Packet nat nat)) (t ++ [p]) in
  let mpk_new := fun (pk : nat) (s : option nat) =>
                   @Ok (MethodPubKey nat nat) (mkMethodPubKey "ssh-ed25519" pk s) in
  let pw_cb := fun (b : list string) (_ : string) => (b, "hunter2"%string, BhOk true) in
  let key_cb := fun (b : list string) => (b, BhOk (Some 1)) in
  let c := mkCliAuth nat (MethodQuery nat) "alice" true true false in
  let c1 := mkCliAuth nat (Request nat (CliAuth.PubKey nat 1)) "alice" true true false in
  let ctx1 := mkParseContext (Some AuthPubKey) false false in
  let t1 := [PUserauthRequest "alice" SSH_SERVICE_CONNECTION
               (MPubKey (mkMethodPubKey "ssh-ed25519" 1 None))] in
  failure (fun k : nat => k) mpk_new send pw_cb key_cb
    [SSH_AUTHMETHOD_PUBLICKEY; SSH_AUTHMETHOD_PASSWORD] c ParseContext_new [] []
  = (c1, ctx1, t1, [], Ok tt) /\
  exists req p,
    state nat c1 = Request nat req /\
    username nat c1 = username nat c /\
    req_packet (fun k : nat => k) mpk_new req (username nat c)
      (clear_auth_type ParseContext_new) None = (ctx1, Ok p) /\
    send [] p = Ok t1 /\
    cli_auth_type ctx1 = Some (match req with
                               | CliAuth.PubKey _ _ => AuthPubKey
                               | Password _ _ => AuthPassword
                               end).
Proof.
  intros send mpk_new pw_cb key_cb c c1 ctx1 t1.
  assert (H : failure (fun k : nat => k) mpk_new send pw_cb key_cb
                [SSH_AUTHMETHOD_PUBLICKEY; SSH_AUTHMETHOD_PASSWORD] c ParseContext_new [] []
              = (c1, ctx1, t1, [], Ok tt)) by reflexivity.
  split; [exact H|].
  exact (failure_ok_sent_request nat nat nat nat (fun k : nat => k) mpk_new
           (list (Packet nat nat)) send (list string) pw_cb key_cb
           [SSH_AUTHMETHOD_PUBLICKEY; SSH_AUTHMETHOD_PASSWORD] c c1 ParseContext_new ctx1
           [] t1 [] [] tt H).
Defined.

Lemma auth_pkok_rejects_witness :
  let send := fun (t : list (Packet nat nat)) p => @Ok (list (Packet nat nat)) (t ++ [p]) in
  let mpk_new := fun (pk : nat) (s : option nat) =>
                   @Ok (MethodPubKey nat nat) (mkMethodPubKey "ssh-ed25519" pk s) in
  let sign_new := fun (_ : nat) (_ : Packet nat nat) (_ : ParseContext) => @Ok nat 7 in
  let agent_cb := fun (b : list string) (_ : nat) (_ : Packet nat nat) => (b, @BhFail nat) in
  let c := mkCliAuth nat (Request nat (CliAuth.PubKey nat 1)) "alice" true true false in
  auth_pkok (fun k : nat => k) (fun _ => false) (fun p (_ : unit) => p) sign_new mpk_new
    Nat.eqb send agent_cb Bug (mkUserauthPkOk "ssh-ed25519" 2) tt c ParseContext_new [] []
  = (c, ParseContext_new, [], [], Err SSHProtoError).
Proof.
  intros send mpk_new sign_new agent_cb c.
  apply auth_pkok_rejects. intros key Hk. injection Hk as <-. reflexivity.
Defined.

Lemma auth_pkok_signs_and_sends_witness :
  let send := fun (t : list (Packet nat nat)) p => @Ok (list (Packet nat nat)) (t ++ [p]) in
  let mpk_new := fun (pk : nat) (s : option nat) =>
                   @Ok (MethodPubKey nat nat) (mkMethodPubKey "ssh-ed25519" pk s) in
  let sign_new := fun (_ : nat) (_ : Packet nat nat) (_ : ParseContext) => @Ok nat 7 in
  let agent_cb := fun (b : list string) (_ : nat) (_ : Packet nat nat) => (b, @BhFail nat) in
  let c := mkCliAuth nat (Request nat (CliAuth.PubKey nat 1)) "alice" true true false in
  auth_pkok (fun k : nat => k) (fun _ => false) (fun p (_ : unit) => p) sign_new mpk_new
    Nat.eqb send agent_cb Bug (mkUserauthPkOk "ssh-ed25519" 1) tt c ParseContext_new [] []
  = (c, set_cli_auth_type ParseContext_new (Some AuthPubKey),
     [PUserauthRequest "alice" SSH_SERVICE_CONNECTION
        (MPubKey (mkMethodPubKey "ssh-ed25519" 1 (Some 7)))], [], Ok tt) /\
  method_pubkey_force_sig_bool force_sig_ctx = true.
Proof.
  intros send mpk_new sign_new agent_cb c.
  eapply auth_pkok_signs_and_sends;
    [reflexivity|reflexivity|reflexivity|cbv zeta; split; reflexivity
    |reflexivity|reflexivity].
Defined.

End CliAuthFlowFacts.
